(** * Authentication service: login lockout, verification, password reset

    A shallow embedding of the [AuthService] class of
    [src/auth.service.js] together with the parts of the [User] model it
    relies on.  Every [async] method becomes a computation in a small
    state-and-exception monad over a [World] holding the [users] table and
    the counters of the clock and of the random source.  Exceptions carry
    the [message] of the JavaScript [Error], and state changes made before
    a [throw] are kept, as they are in the database.  Console logging is
    left out. *)

From Stdlib Require Import ZArith List String Bool Lia QArith Qround DecimalString.
Import ListNotations.

Local Open Scope string_scope.
Local Open Scope list_scope.
Local Open Scope Z_scope.

(** ** Data model *)

(** A row of the [users] table, with the columns [User.init] declares.
    [DataTypes.DATE] columns are milliseconds since the epoch, nullable
    columns are [option]s.  [User.init] declares no [walletAddress]:
    Sequelize drops a key that is not an attribute of the model from what
    [User.create] and [user.update] are handed, and [user.walletAddress]
    reads [undefined] on every instance. *)
Record User := mkUser {
  id : Z;
  username : string;
  email : string;
  password : string;
  isVerified : bool;
  verificationToken : option string;
  failedLoginAttempts : Z;
  lockUntil : option Z;
  resetPasswordToken : option string;
  resetPasswordExpires : option Z
}.

(** The object handed to [user.update(...)]: a field is [None] when the
    key is absent and [Some v] when it is present with value [v] (for a
    nullable column [v] may itself be [None], the JavaScript [null]).
    The primary key is not part of it: Sequelize ignores an [id] key on a
    persisted instance.  [walletAddress] is a key callers do pass. *)
Record Patch := mkPatch {
  p_username : option string;
  p_email : option string;
  p_password : option string;
  p_walletAddress : option string;
  p_isVerified : option bool;
  p_verificationToken : option (option string);
  p_failedLoginAttempts : option Z;
  p_lockUntil : option (option Z);
  p_resetPasswordToken : option (option string);
  p_resetPasswordExpires : option (option Z)
}.

Definition orElse {A : Type} (o : option A) (d : A) : A :=
  match o with Some v => v | None => d end.

(** The row after the keys present in the patch have been assigned.  A
    [walletAddress] key names no attribute of the model and is dropped. *)
Definition applyPatch (p : Patch) (u : User) : User :=
  {| id := id u;
     username := orElse (p_username p) (username u);
     email := orElse (p_email p) (email u);
     password := orElse (p_password p) (password u);
     isVerified := orElse (p_isVerified p) (isVerified u);
     verificationToken := orElse (p_verificationToken p) (verificationToken u);
     failedLoginAttempts := orElse (p_failedLoginAttempts p) (failedLoginAttempts u);
     lockUntil := orElse (p_lockUntil p) (lockUntil u);
     resetPasswordToken := orElse (p_resetPasswordToken p) (resetPasswordToken u);
     resetPasswordExpires := orElse (p_resetPasswordExpires p) (resetPasswordExpires u) |}.

(** The state the service runs in: the table in insertion order, the
    auto-increment counter of [id], and how many times the clock and the
    random source have been read so far. *)
Record World := mkWorld {
  users : list User;
  nextId : Z;
  ticks : nat;
  draws : nat
}.

Definition setUsers (l : list User) (w : World) : World :=
  mkWorld l (nextId w) (ticks w) (draws w).

(** ** External collaborators *)

(** The claims signed into a token by [generateTokens]; the wallet
    address is [None] when the payload has none. *)
Inductive Claims :=
| AccessClaims (uid : Z) (uname mail : string) (wallet : option string)
| RefreshClaims (uid : Z).

(** What the service takes from its environment: the wall clock
    ([Date.now()], [new Date()]), [crypto.randomBytes(n).toString('hex')],
    [bcrypt], [jwt.sign] and [config.jwtSecret].  The clock and the random
    source are indexed by the number of earlier reads.  [rowChoice] is the
    database's part in a [findOne] without [ORDER BY] that several rows
    match: given the table and the matching rows, the position of the row
    it returns (taken modulo their number). *)
Class Runtime := {
  clock : nat -> Z;
  randomHex : nat -> nat -> string;
  bcrypt_hash : string -> Z -> nat -> string;
  bcrypt_compare : string -> string -> bool;
  jwt_sign : Claims -> string -> string -> Z -> string;
  jwtSecret : string;
  rowChoice : list User -> list User -> nat
}.

(** ** The monad of service computations *)

Inductive Outcome (A : Type) :=
| Returned (a : A)
| Thrown (msg : string).
Arguments Returned {A} a.
Arguments Thrown {A} msg.

Definition M (A : Type) : Type := World -> Outcome A * World.

Definition ret {A : Type} (a : A) : M A := fun w => (Returned a, w).

Definition bind {A B : Type} (m : M A) (k : A -> M B) : M B :=
  fun w => match m w with
           | (Returned a, w') => k a w'
           | (Thrown msg, w') => (Thrown msg, w')
           end.

(** [throw new Error(msg)] *)
Definition throw {A : Type} (msg : string) : M A := fun w => (Thrown msg, w).

(** [try { body } catch (error) { throw new Error(`${context}: ${error.message}`) }] *)
Definition rethrow {A : Type} (context : string) (body : M A) : M A :=
  fun w => match body w with
           | (Returned a, w') => (Returned a, w')
           | (Thrown msg, w') => (Thrown (context ++ ": " ++ msg)%string, w')
           end.

Notation "x <- c ;; k" := (bind c (fun x => k))
  (at level 61, c at next level, right associativity).
Notation "c ;;; k" := (bind c (fun _ => k))
  (at level 61, right associativity).

Definition getUsers : M (list User) := fun w => (Returned (users w), w).

(** ** JavaScript helpers *)

(** Truthiness of a string value and of a possibly absent string key. *)
Definition truthy (s : string) : bool := negb (s =? "")%string.

Definition truthyKey (o : option string) : bool :=
  match o with Some s => truthy s | None => false end.

(** [n || 0] on a number. *)
Definition orZero (n : Z) : Z := if n =? 0 then 0 else n.

(** [Math.ceil] of a quotient, computed on exact rationals. *)
Definition Math_ceil (q : Q) : Z := Qceiling q.

(** Template interpolation of a number. *)
Definition showNumber (n : Z) : string := NilZero.string_of_int (Z.to_int n).

Definition optEqb (o : option string) (s : string) : bool :=
  match o with Some t => (t =? s)%string | None => false end.

(** ** The service *)

Section AuthService.

Context {R : Runtime}.

(** *** Primitive effects *)

(** [Date.now()] and [new Date()]: one read of the clock. *)
Definition Date_now : M Z :=
  fun w => (Returned (clock (ticks w)),
            mkWorld (users w) (nextId w) (S (ticks w)) (draws w)).

(** [crypto.randomBytes(n).toString('hex')] *)
Definition randomBytesHex (n : nat) : M string :=
  fun w => (Returned (randomHex n (draws w)),
            mkWorld (users w) (nextId w) (ticks w) (S (draws w))).

(** [bcrypt.hash(plain, rounds)]: the salt is one draw of the random source. *)
Definition bcrypt_hashM (plain : string) (rounds : Z) : M string :=
  fun w => (Returned (bcrypt_hash plain rounds (draws w)),
            mkWorld (users w) (nextId w) (ticks w) (S (draws w))).

(** [jwt.sign(claims, secret, { expiresIn })]: the issue time is one read
    of the clock. *)
Definition jwt_signM (c : Claims) (secret expiresIn : string) : M string :=
  now <- Date_now ;; ret (jwt_sign c secret expiresIn now).

(** *** The [User] model *)

(** [User.findOne({ where })] where the clause is on a unique column
    ([email], [id]) or where only the presence of a match is looked at:
    the first row, in table order, on which the [where] clause holds. *)
Definition User_findOne (where_ : User -> bool) : M (option User) :=
  rows <- getUsers ;; ret (find where_ rows).

(** The row the database returns out of the rows that match. *)
Definition chosen (table matching : list User) : option User :=
  nth_error matching (rowChoice table matching mod List.length matching).

(** [User.findOne({ where })] where the clause is on columns that are not
    unique ([verificationToken], [resetPasswordToken]): several rows may
    match, the query has no [ORDER BY], and which of them comes back is
    the database's choice. *)
Definition User_findAny (where_ : User -> bool) : M (option User) :=
  fun w => (Returned (chosen (users w) (filter where_ (users w))), w).

(** [User.findByPk(id)] *)
Definition User_findByPk (uid : Z) : M (option User) :=
  User_findOne (fun r => id r =? uid).

(** The [unique: true] columns: a write of [username] or [email] that
    another row already holds is refused by the table. *)
Definition takenByOther (self : Z) (name : option string) (col : User -> string)
    (rows : list User) : bool :=
  match name with
  | Some v => existsb (fun r => negb (id r =? self) && (col r =? v)%string) rows
  | None => false
  end.

Definition violatesUnique (self : Z) (p : Patch) (rows : list User) : bool :=
  takenByOther self (p_username p) username rows
  || takenByOther self (p_email p) email rows.

(** [DataTypes.STRING] is [VARCHAR(255)] and [DataTypes.INTEGER] a 32-bit
    [INTEGER]; the database is PostgreSQL, which refuses a value that does
    not fit its column. *)
Definition fitsVarchar (s : string) : bool := (String.length s <=? 255)%nat.

Definition fitsInteger (n : Z) : bool := (-2147483648 <=? n) && (n <=? 2147483647).

Definition fitsKey (o : option string) : bool :=
  match o with Some s => fitsVarchar s | None => true end.

Definition fitsNullableKey (o : option (option string)) : bool :=
  match o with Some (Some s) => fitsVarchar s | _ => true end.

Definition valueTooLong : string := "value too long for type character varying(255)".

Definition outOfRange (n : Z) : string :=
  ("value " ++ String (Ascii.ascii_of_nat 34) (showNumber n)
   ++ String (Ascii.ascii_of_nat 34) " is out of range for type integer")%string.

(** What the database answers to the values of a patch that do not fit:
    the integer is read when the statement is bound, the strings are cut
    to their columns when it runs. *)
Definition columnError (p : Patch) : option string :=
  match p_failedLoginAttempts p with
  | Some n =>
      if fitsInteger n then
        if fitsKey (p_username p) && fitsKey (p_email p) && fitsKey (p_password p)
           && fitsNullableKey (p_verificationToken p)
           && fitsNullableKey (p_resetPasswordToken p)
        then None else Some valueTooLong
      else Some (outOfRange n)
  | None =>
      if fitsKey (p_username p) && fitsKey (p_email p) && fitsKey (p_password p)
         && fitsNullableKey (p_verificationToken p)
         && fitsNullableKey (p_resetPasswordToken p)
      then None else Some valueTooLong
  end.

(** The table after the keys of a patch have been written to the row
    with primary key [key]. *)
Definition writeRow (key : Z) (p : Patch) (rows : list User) : list User :=
  map (fun r => if id r =? key then applyPatch p r else r) rows.

(** [user.update(patch)] with values the service has computed itself:
    assigns the keys of the patch on the instance and writes them to the
    row with the instance's primary key; yields the instance.  A bcrypt
    hash has 60 characters, a token of 32 random bytes 64, and the counter
    of failed logins is counted up from 0: these values fit their columns
    and are written without a look at [columnError]. *)
Definition user_update (u : User) (p : Patch) : M User :=
  fun w =>
    if violatesUnique (id u) p (users w) then (Thrown "Validation error", w)
    else (Returned (applyPatch p u), setUsers (writeRow (id u) p (users w)) w).

(** [user.update(updateData)] with values from the caller: the database
    refuses what does not fit before it looks at the unique columns. *)
Definition user_updateWith (u : User) (p : Patch) : M User :=
  match columnError p with
  | Some msg => throw msg
  | None => user_update u p
  end.

(** [User.create(fields)] for the fields [register] passes; the other
    columns take their defaults.  The wallet address is handed over and
    dropped, the model having no such attribute; the username and the
    email address come from the caller and must fit their columns. *)
Definition User_create (uname mail hashed wallet : string) (vtoken : string) : M User :=
  fun w =>
    let u := {| id := nextId w; username := uname; email := mail;
                password := hashed;
                isVerified := false; verificationToken := Some vtoken;
                failedLoginAttempts := 0; lockUntil := None;
                resetPasswordToken := None; resetPasswordExpires := None |} in
    if negb (fitsVarchar uname && fitsVarchar mail)
    then (Thrown valueTooLong, w)
    else if existsb (fun r => (username r =? uname)%string || (email r =? mail)%string)
                    (users w)
    then (Thrown "Validation error", w)
    else (Returned u, mkWorld (users w ++ [u]) (nextId w + 1) (ticks w) (draws w)).

(** *** Results *)

Record PublicUser := mkPublicUser {
  pu_id : Z;
  pu_username : string;
  pu_email : string;
  pu_walletAddress : option string;
  pu_isVerified : bool
}.

(** [{ id: user.id, username: user.username, email: user.email,
    walletAddress: user.walletAddress, isVerified: user.isVerified }]:
    [user.walletAddress] is [undefined]. *)
Definition publicFields (u : User) : PublicUser :=
  mkPublicUser (id u) (username u) (email u) None (isVerified u).

Record Tokens := mkTokens {
  accessToken : string;
  refreshToken : string;
  expiresIn : string
}.

(** [{ success: true, user, tokens }], with [verificationToken] present
    only in the result of [register]. *)
Record AuthResult := mkAuthResult {
  ar_success : bool;
  ar_user : PublicUser;
  ar_tokens : Tokens;
  ar_verificationToken : option string
}.

(** [{ success: true, user }] *)
Record ProfileResult := mkProfileResult {
  pr_success : bool;
  pr_user : PublicUser
}.

(** [{ success: true, message }], with [resetToken] present only when
    [requestPasswordReset] found the account. *)
Record MessageResult := mkMessageResult {
  mr_success : bool;
  mr_message : string;
  mr_resetToken : option string
}.

(** *** Constructor fields *)

Definition saltRounds : Z := 12.
Definition jwtExpiry : string := "24h".
Definition refreshTokenExpiry : string := "7d".

(** *** Private helpers *)

Definition generateTokens (u : User) : M Tokens :=
  access <- jwt_signM (AccessClaims (id u) (username u) (email u) None)
                      jwtSecret jwtExpiry ;;
  refresh <- jwt_signM (RefreshClaims (id u)) jwtSecret refreshTokenExpiry ;;
  ret (mkTokens access refresh jwtExpiry).

Definition generateVerificationToken : M string := randomBytesHex 32.

Definition generateResetToken : M string := randomBytesHex 32.

(** The object [{ failedLoginAttempts: n, lockUntil: l }]. *)
Definition lockoutPatch (n : Z) (l : option Z) : Patch :=
  {| p_username := None; p_email := None; p_password := None;
     p_walletAddress := None; p_isVerified := None;
     p_verificationToken := None;
     p_failedLoginAttempts := Some n;
     p_lockUntil := Some l;
     p_resetPasswordToken := None;
     p_resetPasswordExpires := None |}.

Definition maxAttempts : Z := 5.
Definition lockTime : Z := 15 * 60 * 1000.

Definition handleFailedLogin (u : User) : M unit :=
  let failedAttempts := orZero (failedLoginAttempts u) + 1 in
  lockUntil_ <- (if failedAttempts >=? maxAttempts
                 then (now <- Date_now ;; ret (Some (now + lockTime)))
                 else ret None) ;;
  user_update u (lockoutPatch failedAttempts lockUntil_) ;;;
  ret tt.

(** *** register *)

Definition register (uname mail plain wallet : string) : M AuthResult :=
  rethrow "Registration failed"
    (existingUser <- User_findOne
        (fun r => (email r =? mail)%string || (username r =? uname)%string) ;;
     match existingUser with
     | Some _ => throw "User with this email or username already exists"
     | None =>
         hashedPassword <- bcrypt_hashM plain saltRounds ;;
         vtoken <- generateVerificationToken ;;
         u <- User_create uname mail hashedPassword wallet vtoken ;;
         tokens <- generateTokens u ;;
         ret (mkAuthResult true (publicFields u) tokens (Some vtoken))
     end).

(** *** login *)

Definition lockTimeRemaining (t now : Z) : Z :=
  Math_ceil (inject_Z (t - now) / inject_Z 1000 / inject_Z 60)%Q.

Definition lockedMessage (minutes : Z) : string :=
  ("Account is locked. Try again in " ++ showNumber minutes ++ " minutes")%string.

(** In [user.lockUntil && user.lockUntil > new Date()] the clock is read
    only when [lockUntil] is not null; the remaining time is computed from
    a second read. *)
Definition login (mail plain : string) : M AuthResult :=
  rethrow "Authentication failed"
    (found <- User_findOne (fun r => (email r =? mail)%string) ;;
     match found with
     | None => throw "Invalid credentials"
     | Some u =>
         let verifyPassword : M AuthResult :=
           if negb (bcrypt_compare plain (password u)) then
             handleFailedLogin u ;;;
             throw "Invalid credentials"
           else
             u' <- user_update u (lockoutPatch 0 None) ;;
             tokens <- generateTokens u' ;;
             ret (mkAuthResult true (publicFields u') tokens None) in
         match lockUntil u with
         | Some t =>
             now <- Date_now ;;
             if now <? t then
               now' <- Date_now ;;
               throw (lockedMessage (lockTimeRemaining t now'))
             else verifyPassword
         | None => verifyPassword
         end
     end).

(** *** verifyEmail *)

(** The object [{ isVerified: true, verificationToken: null }]. *)
Definition markVerified : Patch :=
  {| p_username := None; p_email := None; p_password := None;
     p_walletAddress := None; p_isVerified := Some true;
     p_verificationToken := Some None;
     p_failedLoginAttempts := None; p_lockUntil := None;
     p_resetPasswordToken := None;
     p_resetPasswordExpires := None |}.

Definition verifyEmail (token : string) : M MessageResult :=
  rethrow "Email verification failed"
    (found <- User_findAny (fun r => optEqb (verificationToken r) token) ;;
     match found with
     | None => throw "Invalid verification token"
     | Some u =>
         if isVerified u then
           ret (mkMessageResult true "Email already verified" None)
         else
           user_update u markVerified ;;;
           ret (mkMessageResult true "Email verified successfully" None)
     end).

(** *** requestPasswordReset *)

Definition resetRequested : string :=
  "If an account with this email exists, a password reset link has been sent".

(** The object [{ resetPasswordToken: token, resetPasswordExpires: expires }]. *)
Definition resetIssued (token : string) (expires : Z) : Patch :=
  {| p_username := None; p_email := None; p_password := None;
     p_walletAddress := None; p_isVerified := None;
     p_verificationToken := None;
     p_failedLoginAttempts := None; p_lockUntil := None;
     p_resetPasswordToken := Some (Some token);
     p_resetPasswordExpires := Some (Some expires) |}.

Definition requestPasswordReset (mail : string) : M MessageResult :=
  rethrow "Password reset request failed"
    (found <- User_findOne (fun r => (email r =? mail)%string) ;;
     match found with
     | None => ret (mkMessageResult true resetRequested None)
     | Some u =>
         resetToken <- generateResetToken ;;
         now <- Date_now ;;
         let resetExpires := now + 3600000 in
         user_update u (resetIssued resetToken resetExpires) ;;;
         ret (mkMessageResult true resetRequested (Some resetToken))
     end).

(** *** resetPassword *)

(** [{ resetPasswordToken: token, resetPasswordExpires: { [Op.gt]: now } }];
    a null expiry compares as not greater. *)
Definition resetTokenLive (token : string) (now : Z) (r : User) : bool :=
  optEqb (resetPasswordToken r) token
  && match resetPasswordExpires r with
     | Some e => now <? e
     | None => false
     end.

(** The object [{ password: hashed, resetPasswordToken: null,
    resetPasswordExpires: null, failedLoginAttempts: 0, lockUntil: null }]. *)
Definition resetDone (hashed : string) : Patch :=
  {| p_username := None; p_email := None;
     p_password := Some hashed;
     p_walletAddress := None; p_isVerified := None;
     p_verificationToken := None;
     p_failedLoginAttempts := Some 0;
     p_lockUntil := Some None;
     p_resetPasswordToken := Some None;
     p_resetPasswordExpires := Some None |}.

Definition resetPassword (token newPassword : string) : M MessageResult :=
  rethrow "Password reset failed"
    (now <- Date_now ;;
     found <- User_findAny (resetTokenLive token now) ;;
     match found with
     | None => throw "Invalid or expired reset token"
     | Some u =>
         hashedPassword <- bcrypt_hashM newPassword saltRounds ;;
         user_update u (resetDone hashedPassword) ;;;
         ret (mkMessageResult true "Password reset successfully" None)
     end).

(** *** updateProfile *)

(** The members of the [Op.or] array before filtering: a condition on one
    column, or the empty object. *)
Inductive Condition :=
| OnUsername (v : string)
| OnEmail (v : string)
| NoCondition.

(** [Object.keys(condition).length > 0] *)
Definition hasKeys (c : Condition) : bool :=
  match c with NoCondition => false | _ => true end.

Definition holds (r : User) (c : Condition) : bool :=
  match c with
  | OnUsername v => (username r =? v)%string
  | OnEmail v => (email r =? v)%string
  | NoCondition => true
  end.

(** [{ [Op.or]: conditions, [Op.not]: { id: userId } }] *)
Definition collidesWith (userId : Z) (updateData : Patch) (r : User) : bool :=
  let conditions :=
    filter hasKeys
      [ if truthyKey (p_username updateData)
        then OnUsername (orElse (p_username updateData) "") else NoCondition ;
        if truthyKey (p_email updateData)
        then OnEmail (orElse (p_email updateData) "") else NoCondition ] in
  existsb (holds r) conditions && negb (id r =? userId).

Definition updateProfile (userId : Z) (updateData : Patch) : M ProfileResult :=
  rethrow "Failed to update profile"
    (found <- User_findByPk userId ;;
     match found with
     | None => throw "User not found"
     | Some u =>
         (if truthyKey (p_username updateData) || truthyKey (p_email updateData) then
            existingUser <- User_findOne (collidesWith userId updateData) ;;
            match existingUser with
            | Some _ => throw "Username or email already exists"
            | None => ret tt
            end
          else ret tt) ;;;
         updatedUser <- user_updateWith u updateData ;;
         ret (mkProfileResult true (publicFields updatedUser))
     end).

(** ** Vocabulary of the statements *)

(** The account a login with this email address is checked against. *)
Definition accountByEmail (mail : string) (w : World) : option User :=
  find (fun r => (email r =? mail)%string) (users w).

(** [LOCKED] at time [now]: [lockUntil] is set and strictly in the future. *)
Definition lockedAt (now : Z) (u : User) : bool :=
  match lockUntil u with
  | Some t => now <? t
  | None => false
  end.

(** The clock reads spent on the lock check of [login]. *)
Definition lockCheckReads (u : User) : nat :=
  match lockUntil u with Some _ => 1%nat | None => 0%nat end.

Definition advance (reads : nat) (w : World) : World :=
  mkWorld (users w) (nextId w) (reads + ticks w) (draws w).

Definition invalidCredentials : string :=
  "Authentication failed: Invalid credentials".

(** A run of consecutive logins against one email address. *)
Fixpoint attempts (mail : string) (plains : list string) (w : World)
    : list (Outcome AuthResult) * World :=
  match plains with
  | [] => ([], w)
  | plain :: rest =>
      let (o, w1) := login mail plain w in
      let (os, w2) := attempts mail rest w1 in
      (o :: os, w2)
  end.

(** The world a failed password check leaves behind. *)
Definition afterFailedLogin (u : User) (w : World) : World :=
  let w1 := advance (lockCheckReads u) w in
  let n := failedLoginAttempts u + 1 in
  if n >=? maxAttempts
  then setUsers (writeRow (id u) (lockoutPatch n (Some (clock (ticks w1) + lockTime)))
                          (users w)) (advance 1 w1)
  else setUsers (writeRow (id u) (lockoutPatch n None) (users w)) w1.

(** The tokens [generateTokens] issues when the clock has been read [k]
    times before. *)
Definition tokensIssuedAt (k : nat) (u : User) : Tokens :=
  mkTokens
    (jwt_sign (AccessClaims (id u) (username u) (email u) None)
              jwtSecret jwtExpiry (clock k))
    (jwt_sign (RefreshClaims (id u)) jwtSecret refreshTokenExpiry (clock (S k)))
    jwtExpiry.

(** The account [verifyEmail] finds for a token. *)
Definition accountByToken (token : string) (w : World) : option User :=
  chosen (users w) (filter (fun r => optEqb (verificationToken r) token) (users w)).

(** The account [resetPassword] finds for a token at time [now]. *)
Definition accountByResetToken (token : string) (now : Z) (w : World) : option User :=
  chosen (users w) (filter (resetTokenLive token now) (users w)).

(** Some account stores this reset token with an expiry strictly after [now]. *)
Definition liveResetToken (token : string) (now : Z) (w : World) : Prop :=
  exists r e, In r (users w)
              /\ resetPasswordToken r = Some token
              /\ resetPasswordExpires r = Some e
              /\ now < e.

Definition conflictError : string :=
  "Registration failed: User with this email or username already exists".

Definition accountById (userId : Z) (w : World) : option User :=
  find (fun r => id r =? userId) (users w).





End AuthService.

(** ** A concrete runtime and sample tables *)

(** A runtime to evaluate the service on: the clock starts at
    1700000000000 ms and moves one second per read; the "hash" keeps the
    plaintext behind a prefix, which is enough for [compare] to accept
    exactly the hashed password; of the rows that match, the database
    returns the first in table order. *)
Definition demoRuntime : Runtime :=
  {| clock := fun k => 1700000000000 + 1000 * Z.of_nat k;
     randomHex := fun _ k => ("hex" ++ showNumber (Z.of_nat k))%string;
     bcrypt_hash := fun plain _ _ => ("$2b$12$" ++ plain)%string;
     bcrypt_compare := fun plain hashed => (hashed =? "$2b$12$" ++ plain)%string;
     jwt_sign := fun c _ ttl now =>
       match c with
       | AccessClaims _ uname _ _ =>
           ("access." ++ uname ++ "." ++ ttl ++ "." ++ showNumber now)%string
       | RefreshClaims _ =>
           ("refresh." ++ ttl ++ "." ++ showNumber now)%string
       end;
     jwtSecret := "your_jwt_secret";
     rowChoice := fun _ _ => 0%nat |}.

(** The same runtime over a database that returns the last of the rows
    that match. *)
Definition lastRowRuntime : Runtime :=
  {| clock := @clock demoRuntime;
     randomHex := @randomHex demoRuntime;
     bcrypt_hash := @bcrypt_hash demoRuntime;
     bcrypt_compare := @bcrypt_compare demoRuntime;
     jwt_sign := @jwt_sign demoRuntime;
     jwtSecret := @jwtSecret demoRuntime;
     rowChoice := fun _ matching => Nat.pred (List.length matching) |}.

Definition alice : User :=
  {| id := 1; username := "alice"; email := "a@x.com";
     password := "$2b$12$Abcd1234";
     isVerified := false; verificationToken := Some "tok-alice";
     failedLoginAttempts := 0; lockUntil := None;
     resetPasswordToken := None; resetPasswordExpires := None |}.

Definition bob : User :=
  {| id := 2; username := "bob"; email := "b@x.com";
     password := "$2b$12$hunter22";
     isVerified := false; verificationToken := Some "tok-bob";
     failedLoginAttempts := 0; lockUntil := None;
     resetPasswordToken := None; resetPasswordExpires := None |}.

Definition tableOf (rows : list User) : World :=
  {| users := rows; nextId := 3; ticks := 0; draws := 0 |}.

(** Alice locked until ten minutes after the first clock read. *)
Definition aliceLocked : User :=
  applyPatch (lockoutPatch 5 (Some 1700000600000)) alice.



(** Alice verified while her token is still stored. *)
Definition aliceVerified : User :=
  applyPatch (mkPatch None None None None (Some true) None None None None None) alice.

(** Alice holding a reset token that expires one second after the first
    clock read. *)
Definition aliceResetting : User :=
  applyPatch (resetIssued "reset-1" 1700000001000) aliceLocked.

(** Bob storing the same verification token as Alice. *)
Definition bobSameToken : User :=
  applyPatch (mkPatch None None None None None (Some (Some "tok-alice"))
                      None None None None) bob.

(** The update [{ password: "plain", isVerified: true }]. *)
Definition promoteSelf : Patch :=
  mkPatch None None (Some "plain") None (Some true) None None None None None.





(** ** The rest of the service *)

(** What [jwt.verify(token, secret)] does at a given time: it returns the
    decoded claims or throws an error with a message. *)
Inductive Verification :=
| Decoded (c : Claims)
| Rejected (msg : string).

Class TokenVerifier := {
  jwt_verify : string -> string -> Z -> Verification
}.

(** [decoded.id] *)
Definition claimsId (c : Claims) : Z :=
  match c with
  | AccessClaims uid _ _ _ => uid
  | RefreshClaims uid => uid
  end.

(** [{ success: true, tokens }] *)
Record RefreshResult := mkRefreshResult {
  rr_success : bool;
  rr_tokens : Tokens
}.

(** The result of [getUserStats]. *)
Record UserStats := mkUserStats {
  totalUsers : Z;
  verifiedUsers : Z;
  lockedUsers : Z;
  unverifiedUsers : Z
}.

Section Session.

Context {R : Runtime} {V : TokenVerifier}.

(** [jwt.verify(token, secret)]: the expiry is checked against one read of
    the clock. *)
Definition jwt_verifyM (token secret : string) : M Claims :=
  now <- Date_now ;;
  match jwt_verify token secret now with
  | Decoded c => ret c
  | Rejected msg => throw msg
  end.

(** [User.count({ where })] *)
Definition User_count (where_ : User -> bool) : M Z :=
  rows <- getUsers ;; ret (Z.of_nat (List.length (filter where_ rows))).

(** *** refreshToken *)

Definition refreshToken_ (token : string) : M RefreshResult :=
  rethrow "Token refresh failed"
    (decoded <- jwt_verifyM token jwtSecret ;;
     found <- User_findByPk (claimsId decoded) ;;
     match found with
     | None => throw "User not found"
     | Some u =>
         tokens <- generateTokens u ;;
         ret (mkRefreshResult true tokens)
     end).

(** *** verifyToken *)

Definition verifyToken (token : string) : M ProfileResult :=
  rethrow "Token verification failed"
    (decoded <- jwt_verifyM token jwtSecret ;;
     found <- User_findByPk (claimsId decoded) ;;
     match found with
     | None => throw "User not found"
     | Some u => ret (mkProfileResult true (publicFields u))
     end).

(** *** changePassword *)

(** The object [{ password: hashed, failedLoginAttempts: 0, lockUntil: null }]. *)
Definition passwordChanged (hashed : string) : Patch :=
  {| p_username := None; p_email := None;
     p_password := Some hashed;
     p_walletAddress := None; p_isVerified := None;
     p_verificationToken := None;
     p_failedLoginAttempts := Some 0;
     p_lockUntil := Some None;
     p_resetPasswordToken := None;
     p_resetPasswordExpires := None |}.

Definition changePassword (userId : Z) (currentPassword newPassword : string)
    : M MessageResult :=
  rethrow "Failed to change password"
    (found <- User_findByPk userId ;;
     match found with
     | None => throw "User not found"
     | Some u =>
         if negb (bcrypt_compare currentPassword (password u)) then
           throw "Current password is incorrect"
         else
           hashedPassword <- bcrypt_hashM newPassword saltRounds ;;
           user_update u (passwordChanged hashedPassword) ;;;
           ret (mkMessageResult true "Password changed successfully" None)
     end).

(** *** getUserStats *)

(** [{ lockUntil: { [Op.gt]: now } }]; a null [lockUntil] compares as not
    greater. *)
Definition lockedAfter (now : Z) (r : User) : bool :=
  match lockUntil r with
  | Some t => now <? t
  | None => false
  end.

Definition getUserStats : M UserStats :=
  rethrow "Failed to get user statistics"
    (total <- User_count (fun _ => true) ;;
     verified <- User_count isVerified ;;
     now <- Date_now ;;
     locked <- User_count (lockedAfter now) ;;
     ret (mkUserStats total verified locked (total - verified))).

End Session.

(** ** The HTTP layer in front of the service *)

From Stdlib Require Import Ascii.

(** The JSON bodies the handlers send: a service result as it is,
    [{ message }] or [{ message, error }], and [{ success: false, message }]. *)
Inductive Body (A : Type) :=
| Json (result : A)
| Failure (message : string) (error : option string)
| Denied (message : string).
Arguments Json {A} result.
Arguments Failure {A} message error.
Arguments Denied {A} message.

(** [res.status(status).json(body)] *)
Record Response (A : Type) := mkResponse {
  status : Z;
  body : Body A
}.
Arguments mkResponse {A} status body.
Arguments status {A} r.
Arguments body {A} r.

(** A handler runs against the world and always answers. *)
Definition Handler (A : Type) : Type := World -> Response A * World.

(** [try { const result = await call; return res.status(ok).json(result) }
     catch (err) { return res.status(ko).json({ message, error: err.message }) }] *)
Definition answer {A : Type} (call : M A) (ok ko : Z) (message : string) : Handler A :=
  fun w => match call w with
           | (Returned result, w') => (mkResponse ok (Json result), w')
           | (Thrown msg, w') => (mkResponse ko (Failure message (Some msg)), w')
           end.

Definition reply {A : Type} (r : Response A) : Handler A := fun w => (r, w).

(** The text of a body field that may be missing. *)
Definition text (o : option string) : string := orElse o "".

(** Truthiness of [req.user?.id]. *)
Definition truthyId (o : option Z) : bool :=
  match o with Some n => negb (n =? 0) | None => false end.

(** [str.split(sep)] for a one-character separator. *)
Fixpoint split (sep : Ascii.ascii) (s : string) : list string :=
  match s with
  | EmptyString => [""]
  | String c rest =>
      if Ascii.eqb c sep then "" :: split sep rest
      else match split sep rest with
           | part :: parts => String c part :: parts
           | [] => [String c ""]
           end
  end.

(** What a middleware does with a request: hand it on, here with
    [req.user] set, or answer it. *)
Inductive Passage (A : Type) :=
| Next (reqUser : PublicUser)
| Respond (r : Response A).
Arguments Next {A} reqUser.
Arguments Respond {A} r.

Section Http.

Context {R : Runtime} {V : TokenVerifier}.

(** *** The authentication middleware *)

Definition authenticate (authorization : option string)
    : World -> Passage unit * World :=
  fun w =>
    if negb (truthyKey authorization)
       || negb (String.prefix "Bearer " (text authorization))
    then (Respond (mkResponse 401 (Denied "No token provided.")), w)
    else
      let token := nth_error (split " "%char (text authorization)) 1 in
      if negb (truthyKey token)
      then (Respond (mkResponse 401 (Denied "Invalid token format.")), w)
      else
        match verifyToken (text token) w with
        | (Returned result, w') =>
            if negb (pr_success result)
            then (Respond (mkResponse 401 (Denied "Token verification failed.")), w')
            else (Next (pr_user result), w')
        | (Thrown _, w') =>
            (Respond (mkResponse 401 (Denied "Invalid or expired token.")), w')
        end.

(** *** The authentication controller *)

Definition exports_register (username_ email_ password_ walletAddress_ : option string)
    : Handler AuthResult :=
  if negb (truthyKey username_) || negb (truthyKey email_)
     || negb (truthyKey password_) || negb (truthyKey walletAddress_)
  then reply (mkResponse 400 (Failure "All fields are required." None))
  else answer (register (text username_) (text email_) (text password_)
                        (text walletAddress_))
              201 400 "Registration failed.".

Definition exports_login (email_ password_ : option string) : Handler AuthResult :=
  if negb (truthyKey email_) || negb (truthyKey password_)
  then reply (mkResponse 400 (Failure "Email and password are required." None))
  else answer (login (text email_) (text password_)) 200 401 "Login failed.".

Definition exports_refreshToken (refreshToken_in : option string)
    : Handler RefreshResult :=
  if negb (truthyKey refreshToken_in)
  then reply (mkResponse 400 (Failure "Refresh token is required." None))
  else answer (refreshToken_ (text refreshToken_in)) 200 401 "Token refresh failed.".

Definition exports_verifyEmail (token : option string) : Handler MessageResult :=
  if negb (truthyKey token)
  then reply (mkResponse 400 (Failure "Verification token is required." None))
  else answer (verifyEmail (text token)) 200 400 "Email verification failed.".

(** The object [{ username, email, walletAddress }] built from the body. *)
Definition profileUpdate (username_ email_ walletAddress_ : option string) : Patch :=
  {| p_username := username_; p_email := email_; p_password := None;
     p_walletAddress := walletAddress_; p_isVerified := None;
     p_verificationToken := None;
     p_failedLoginAttempts := None; p_lockUntil := None;
     p_resetPasswordToken := None;
     p_resetPasswordExpires := None |}.

Definition exports_updateProfile (reqUser : option PublicUser)
    (username_ email_ walletAddress_ : option string) : Handler ProfileResult :=
  let userId := option_map pu_id reqUser in
  if negb (truthyId userId)
  then reply (mkResponse 401 (Failure "Unauthorized." None))
  else
    if negb (truthyKey username_) && negb (truthyKey email_)
       && negb (truthyKey walletAddress_)
    then reply (mkResponse 400 (Failure "Nothing to update." None))
    else answer (updateProfile (orElse userId 0)
                               (profileUpdate username_ email_ walletAddress_))
                200 500 "Failed to update profile.".

Definition exports_requestPasswordReset (email_ : option string)
    : Handler MessageResult :=
  if negb (truthyKey email_)
  then reply (mkResponse 400 (Failure "Email is required." None))
  else answer (requestPasswordReset (text email_)) 200 500
              "Password reset request failed.".

Definition exports_resetPassword (token newPassword : option string)
    : Handler MessageResult :=
  if negb (truthyKey token) || negb (truthyKey newPassword)
  then reply (mkResponse 400 (Failure "Token and new password are required." None))
  else answer (resetPassword (text token) (text newPassword)) 200 500
              "Password reset failed.".

Definition exports_changePassword (reqUser : option PublicUser)
    (currentPassword newPassword : option string) : Handler MessageResult :=
  let userId := option_map pu_id reqUser in
  if negb (truthyId userId)
  then reply (mkResponse 401 (Failure "Unauthorized." None))
  else
    if negb (truthyKey currentPassword) || negb (truthyKey newPassword)
    then reply (mkResponse 400 (Failure "Current password and new password are required." None))
    else answer (changePassword (orElse userId 0) (text currentPassword)
                                (text newPassword))
                200 500 "Failed to change password.".

End Http.

(** ** Vocabulary of the further statements *)

(** The table constraints of the model: [id] is a key below the
    auto-increment counter, [username] and [email] are unique. *)
Definition wellFormed (w : World) : Prop :=
  NoDup (map id (users w))
  /\ NoDup (map username (users w))
  /\ NoDup (map email (users w))
  /\ Forall (fun r => id r < nextId w) (users w).

(** A row with its two lockout columns blanked. *)
Definition withoutLockout (r : User) : User :=
  applyPatch (lockoutPatch 0 None) r.

(** The columns that say who a row is. *)
Definition identityOf (r : User) : Z * string * string :=
  (id r, username r, email r).

(** The columns a profile update has no business with. *)
Definition credentialsOf (r : User)
    : Z * string * bool * option string * Z * option Z * option string * option Z :=
  (id r, password r, isVerified r, verificationToken r,
   failedLoginAttempts r, lockUntil r, resetPasswordToken r, resetPasswordExpires r).

(** No space occurs in the string. *)
Fixpoint spaceFree (s : string) : bool :=
  match s with
  | EmptyString => true
  | String c rest => negb (Ascii.eqb c " "%char) && spaceFree rest
  end.

Section FurtherVocabulary.

Context {R : Runtime}.

(** The row [register] creates in a given world. *)
Definition newAccount (uname mail plain : string) (w : World) : User :=
  {| id := nextId w; username := uname; email := mail;
     password := bcrypt_hash plain 12 (draws w);
     isVerified := false;
     verificationToken := Some (randomHex 32 (S (draws w)));
     failedLoginAttempts := 0; lockUntil := None;
     resetPasswordToken := None; resetPasswordExpires := None |}.

End FurtherVocabulary.

(** ** The rate limiter

    [src/rateLimiter.middleware.js].  The module-level [Map] of request
    counts is threaded through explicitly, as the list of its entries in
    insertion order; the time [Date.now()] returns is an input of each
    request. *)

(** The value stored per client: [{ count, resetTime }]. *)
Record ClientData := mkClientData {
  count : Z;
  resetTime : Z
}.

(** [requestCounts.get(key)] *)
Fixpoint mapGet (key : string) (m : list (string * ClientData)) : option ClientData :=
  match m with
  | [] => None
  | (k, v) :: rest => if (k =? key)%string then Some v else mapGet key rest
  end.

(** [requestCounts.set(key, value)]: an existing key keeps its place, a new
    key goes last. *)
Fixpoint mapSet (key : string) (value : ClientData) (m : list (string * ClientData))
    : list (string * ClientData) :=
  match m with
  | [] => [(key, value)]
  | (k, v) :: rest =>
      if (k =? key)%string then (k, value) :: rest
      else (k, v) :: mapSet key value rest
  end.

(** The loop that deletes every entry whose [resetTime] is before [now]. *)
Definition cleanUp (now : Z) (m : list (string * ClientData))
    : list (string * ClientData) :=
  filter (fun entry => negb (resetTime (snd entry) <? now)) m.

(** [req.ip || req.connection.remoteAddress || 'unknown'] *)
Definition clientIdOf (ip remoteAddress : option string) : string :=
  if truthyKey ip then text ip
  else if truthyKey remoteAddress then text remoteAddress
  else "unknown".

(** What the limiter does with a request: [next()], or the 429 answer with
    its [retryAfter]. *)
Inductive Verdict :=
| Pass
| TooManyRequests (retryAfter : Z).

Definition rateLimiter (windowMs maxRequests : Z)
    (ip remoteAddress : option string) (now : Z) (m : list (string * ClientData))
    : Verdict * list (string * ClientData) :=
  let clientId := clientIdOf ip remoteAddress in
  let m1 := cleanUp now m in
  match mapGet clientId m1 with
  | None => (Pass, mapSet clientId (mkClientData 1 (now + windowMs)) m1)
  | Some clientData =>
      if resetTime clientData <? now
      then (Pass, mapSet clientId (mkClientData 1 (now + windowMs)) m1)
      else if count clientData >=? maxRequests
      then (TooManyRequests
              (Math_ceil (inject_Z (resetTime clientData - now) / inject_Z 1000)%Q),
            m1)
      else (Pass,
            mapSet clientId
                   (mkClientData (count clientData + 1) (resetTime clientData)) m1)
  end.

(** [rateLimiter(5 * 60 * 1000, 10)] *)
Definition strictRateLimiter := rateLimiter (5 * 60 * 1000) 10.

(** A request as the limiter sees it. *)
Record Hit := mkHit {
  hit_ip : option string;
  hit_remoteAddress : option string;
  hit_now : Z
}.

(** The limiter applied to a sequence of requests. *)
Fixpoint serve (windowMs maxRequests : Z) (hits : list Hit)
    (m : list (string * ClientData)) : list Verdict * list (string * ClientData) :=
  match hits with
  | [] => ([], m)
  | h :: rest =>
      let (v, m1) := rateLimiter windowMs maxRequests
                                 (hit_ip h) (hit_remoteAddress h) (hit_now h) m in
      let (vs, m2) := serve windowMs maxRequests rest m1 in
      (v :: vs, m2)
  end.

(** Whether a verdict lets the request through. *)
Definition isPass (v : Verdict) : bool :=
  match v with Pass => true | TooManyRequests _ => false end.

Definition hitClient (h : Hit) : string :=
  clientIdOf (hit_ip h) (hit_remoteAddress h).

(** The verdicts given to the requests of one client, in order. *)
Definition verdictsFor (clientId : string) (hits : list Hit) (verdicts : list Verdict)
    : list Verdict :=
  map snd (filter (fun hv => (hitClient (fst hv) =? clientId)%string)
                  (combine hits verdicts)).

(** Keys are unique, as in a [Map], and every count lies between 1 and the
    limit (or is 1 when the limit is below 1). *)
Definition limiterInvariant (maxRequests : Z) (m : list (string * ClientData)) : Prop :=
  NoDup (map fst m)
  /\ Forall (fun entry => 1 <= count (snd entry) <= Z.max 1 maxRequests) m.

(** ** The IPRManagement contract

    The Solidity contract of the registry.  Storage is a record threaded
    through every call; a call that reverts yields its reason and leaves
    storage as it was.  [uint] values are integers from 0 to [uintMax],
    addresses are integers, a [mapping] is a total function whose unset
    slots hold the zero value. *)

Definition uintMax : Z := 2 ^ 256 - 1.

(** [struct IP] *)
Record IP := mkIP {
  ip_id : Z;
  ip_title : string;
  ip_ipType : string;
  ip_owner : Z;
  ip_description : string;
  ip_ipfsHash : string;
  ip_timestamp : Z
}.

(** The zero value of an [IP] slot. *)
Definition noIP : IP := mkIP 0 "" "" 0 "" "" 0.

Inductive Event :=
| IPRegistered (id_ : Z) (title ipType : string) (owner : Z) (ipfsHash : string)
               (timestamp : Z)
| OwnershipTransferred (id_ : Z) (oldOwner newOwner : Z) (timestamp : Z)
| IPUpdated (id_ : Z) (newDescription newIpfsHash : string) (timestamp : Z).

Record Storage := mkStorage {
  ipCount : Z;
  ips : Z -> IP;
  ownershipHistory : Z -> list Z;
  emitted : list Event
}.

(** The contract as deployed. *)
Definition deployed : Storage :=
  mkStorage 0 (fun _ => noIP) (fun _ => []) [].

(** [msg.sender] and [block.timestamp] of a call. *)
Record Msg := mkMsg {
  sender : Z;
  blockTimestamp : Z
}.

Inductive Outcome_ (A : Type) :=
| Success (value : A) (after : Storage)
| Reverted (reason : string).
Arguments Success {A} value after.
Arguments Reverted {A} reason.

(** Assignment to one slot of a mapping. *)
Definition assign {A : Type} (f : Z -> A) (key : Z) (value : A) : Z -> A :=
  fun k => if k =? key then value else f k.

(** [bytes(s).length > 0] *)
Definition nonEmpty (s : string) : bool := (0 <? String.length s)%nat.

(** [_id > 0 && _id <= ipCount] *)
Definition validId (id_ : Z) (s : Storage) : bool :=
  (0 <? id_) && (id_ <=? ipCount s).

Definition registerIP (msg : Msg) (title ipType description ipfsHash : string)
    (s : Storage) : Outcome_ unit :=
  if negb (nonEmpty title) then Reverted "Title cannot be empty"
  else if negb (nonEmpty ipType) then Reverted "IP type cannot be empty"
  else if ipCount s >=? uintMax then Reverted "Panic(0x11)"
  else
    let newCount := ipCount s + 1 in
    Success tt
      {| ipCount := newCount;
         ips := assign (ips s) newCount
                  (mkIP newCount title ipType (sender msg) description ipfsHash
                        (blockTimestamp msg));
         ownershipHistory :=
           assign (ownershipHistory s) newCount
                  (ownershipHistory s newCount ++ [sender msg]);
         emitted := emitted s ++ [IPRegistered newCount title ipType (sender msg)
                                               ipfsHash (blockTimestamp msg)] |}.

(** [modifier onlyOwner(_id)]: the reason it reverts with, if it does. *)
Definition onlyOwner (msg : Msg) (id_ : Z) (s : Storage) : option string :=
  if negb (validId id_ s) then Some "Invalid IP ID"
  else if negb (sender msg =? ip_owner (ips s id_))
  then Some "Only owner can perform this action"
  else None.

Definition getIP (id_ : Z) (s : Storage) : Outcome_ IP :=
  if negb (validId id_ s) then Reverted "Invalid IP ID"
  else Success (ips s id_) s.

Definition withOwner (ip : IP) (newOwner : Z) : IP :=
  mkIP (ip_id ip) (ip_title ip) (ip_ipType ip) newOwner (ip_description ip)
       (ip_ipfsHash ip) (ip_timestamp ip).

Definition withDescription (ip : IP) (description ipfsHash : string) : IP :=
  mkIP (ip_id ip) (ip_title ip) (ip_ipType ip) (ip_owner ip) description ipfsHash
       (ip_timestamp ip).

Definition transferOwnership (msg : Msg) (id_ : Z) (newOwner : Z) (s : Storage)
    : Outcome_ unit :=
  match onlyOwner msg id_ s with
  | Some reason => Reverted reason
  | None =>
      if newOwner =? 0 then Reverted "New owner cannot be zero address"
      else
        let oldOwner := ip_owner (ips s id_) in
        Success tt
          {| ipCount := ipCount s;
             ips := assign (ips s) id_ (withOwner (ips s id_) newOwner);
             ownershipHistory :=
               assign (ownershipHistory s) id_ (ownershipHistory s id_ ++ [newOwner]);
             emitted := emitted s ++ [OwnershipTransferred id_ oldOwner newOwner
                                                           (blockTimestamp msg)] |}
  end.

Definition updateDescription (msg : Msg) (id_ : Z) (newDescription newIpfsHash : string)
    (s : Storage) : Outcome_ unit :=
  match onlyOwner msg id_ s with
  | Some reason => Reverted reason
  | None =>
      if negb (nonEmpty newDescription) then Reverted "Description cannot be empty"
      else
        Success tt
          {| ipCount := ipCount s;
             ips := assign (ips s) id_
                      (withDescription (ips s id_) newDescription newIpfsHash);
             ownershipHistory := ownershipHistory s;
             emitted := emitted s ++ [IPUpdated id_ newDescription newIpfsHash
                                                (blockTimestamp msg)] |}
  end.

Definition getOwnershipHistory (id_ : Z) (s : Storage) : Outcome_ (list Z) :=
  if negb (validId id_ s) then Reverted "Invalid IP ID"
  else Success (ownershipHistory s id_) s.

(** A transaction calling one of the state-changing functions. *)
Inductive Call :=
| CallRegisterIP (title ipType description ipfsHash : string)
| CallTransferOwnership (id_ : Z) (newOwner : Z)
| CallUpdateDescription (id_ : Z) (newDescription newIpfsHash : string).

Definition call (msg : Msg) (c : Call) (s : Storage) : Outcome_ unit :=
  match c with
  | CallRegisterIP title ipType description ipfsHash =>
      registerIP msg title ipType description ipfsHash s
  | CallTransferOwnership id_ newOwner => transferOwnership msg id_ newOwner s
  | CallUpdateDescription id_ newDescription newIpfsHash =>
      updateDescription msg id_ newDescription newIpfsHash s
  end.

(** Storage after a transaction: what the call left, or the storage before
    when it reverted. *)
Definition storageAfter (msg : Msg) (c : Call) (s : Storage) : Storage :=
  match call msg c s with
  | Success _ after => after
  | Reverted _ => s
  end.

Fixpoint storageAfterAll (txs : list (Msg * Call)) (s : Storage) : Storage :=
  match txs with
  | [] => s
  | (msg, c) :: rest => storageAfterAll rest (storageAfter msg c s)
  end.

(** What holds of the registry's storage at all times. *)
Definition registryInvariant (s : Storage) : Prop :=
  0 <= ipCount s <= uintMax
  /\ (forall k, 0 < k <= ipCount s ->
        ip_id (ips s k) = k
        /\ ip_title (ips s k) <> ""
        /\ ip_ipType (ips s k) <> ""
        /\ ownershipHistory s k <> []
        /\ last (ownershipHistory s k) 0 = ip_owner (ips s k))
  /\ (forall k, ~ 0 < k <= ipCount s ->
        ips s k = noIP /\ ownershipHistory s k = []).

(** [l1] is an initial segment of [l2]. *)
Definition isPrefix (l1 l2 : list Z) : Prop := exists more, l2 = l1 ++ more.

(** ** The CreativeWorksMarketplace contract

    [src/marketplace.sol], in the same style.  Ether balances are not part
    of the contract's storage and are left out.  The external call in
    [acquireWork] hands control to the old owner, who may call back into
    the contract before returning: what the callee does is an input of
    the transaction, given as the calls it makes back and the flag it
    returns. *)

(** [struct Work] *)
Record Work := mkWork {
  workId : Z;
  originalCreator : Z;
  currentOwner : Z;
  work_title : string;
  work_summary : string;
  licenseAgreement : string;
  askingPrice : Z;
  isUnavailable : bool
}.

(** The zero value of a [Work] slot. *)
Definition noWork : Work := mkWork 0 0 0 "" "" "" 0 false.

Inductive MarketEvent :=
| WorkListed (id_ : Z) (creator : Z) (title : string) (price : Z)
| WorkAcquired (id_ : Z) (newOwner : Z) (price : Z)
| WorkOwnershipTransferred (id_ : Z) (oldOwner newOwner : Z).

Record Market := mkMarket {
  totalWorksCount : Z;
  allWorks : Z -> Work;
  locked : bool;
  marketLog : list MarketEvent
}.

Definition marketDeployed : Market := mkMarket 0 (fun _ => noWork) false [].

(** A revert, or the storage the call leaves. *)
Inductive Settled :=
| Done (after : Market)
| Undone (reason : string).

Definition publishWork (msgSender : Z) (title summary license : string) (price : Z)
    (s : Market) : Settled :=
  if negb (0 <? price) then Undone "Price must be a positive value"
  else if negb (nonEmpty title) then Undone "Title cannot be empty"
  else if negb (nonEmpty summary) then Undone "Summary cannot be empty"
  else if negb (nonEmpty license) then Undone "License agreement cannot be empty"
  else if totalWorksCount s >=? uintMax then Undone "Panic(0x11)"
  else
    let newCount := totalWorksCount s + 1 in
    Done {| totalWorksCount := newCount;
            allWorks := assign (allWorks s) newCount
                          (mkWork newCount msgSender msgSender title summary license
                                  price false);
            locked := locked s;
            marketLog := marketLog s ++ [WorkListed newCount msgSender title price] |}.

(** A call made back into the contract while it waits for the external
    call to return. *)
Inductive Reentry :=
| BackToPublishWork (msgSender : Z) (title summary license : string) (price : Z)
| BackToAcquireWork (msgSender msgValue : Z) (id_ : Z).

(** What the callee of [oldOwner.call{value: msg.value}("")] does, given
    the storage it finds: the calls it makes back, in order, and whether
    the call reports success. *)
Definition Callee : Type := Market -> list Reentry * bool.

Definition sell (w : Work) (buyer : Z) : Work :=
  mkWork (workId w) (originalCreator w) buyer (work_title w) (work_summary w)
         (licenseAgreement w) (askingPrice w) true.

Definition setLocked (b : bool) (s : Market) : Market :=
  mkMarket (totalWorksCount s) (allWorks s) b (marketLog s).

(** [acquireWork], with the [noReentrancy] modifier around its body.  The
    depth bounds how far calls may nest, as the call stack does. *)
Fixpoint acquireWork (depth : nat) (callee : Callee) (msgSender msgValue : Z) (id_ : Z)
    (s : Market) : Settled :=
  if locked s then Undone "No reentrancy allowed"
  else
    match depth with
    | O => Undone "call depth exhausted"
    | S depth' =>
        let s0 := setLocked true s in
        let selectedWork := allWorks s0 id_ in
        if negb ((0 <? id_) && (id_ <=? totalWorksCount s0))
        then Undone "Work ID is invalid"
        else if isUnavailable selectedWork
        then Undone "This work has already been sold"
        else if negb (msgValue =? askingPrice selectedWork)
        then Undone "Payment amount is incorrect"
        else if msgSender =? originalCreator selectedWork
        then Undone "Creator cannot buy their own work"
        else
          let oldOwner := currentOwner selectedWork in
          let s1 :=
            {| totalWorksCount := totalWorksCount s0;
               allWorks := assign (allWorks s0) id_ (sell selectedWork msgSender);
               locked := true;
               marketLog := marketLog s0
                            ++ [WorkOwnershipTransferred id_ oldOwner msgSender] |} in
          let (reentries, sent) := callee s1 in
          let s2 :=
            fold_left
              (fun st r =>
                 match r with
                 | BackToPublishWork a title summary license price =>
                     match publishWork a title summary license price st with
                     | Done st' => st'
                     | Undone _ => st
                     end
                 | BackToAcquireWork a v k =>
                     match acquireWork depth' callee a v k st with
                     | Done st' => st'
                     | Undone _ => st
                     end
                 end)
              reentries s1 in
          if negb sent then Undone "Failed to send Ether"
          else
            Done {| totalWorksCount := totalWorksCount s2;
                    allWorks := allWorks s2;
                    locked := false;
                    marketLog := marketLog s2 ++ [WorkAcquired id_ msgSender msgValue] |}
    end.

(** [getWorkDetails] *)
Definition getWorkDetails (id_ : Z) (s : Market) : Work := allWorks s id_.

(** A transaction sent to the marketplace. *)
Inductive MarketCall :=
| SendPublishWork (msgSender : Z) (title summary license : string) (price : Z)
| SendAcquireWork (depth : nat) (callee : Callee) (msgSender msgValue : Z) (id_ : Z).

Definition marketAfter (c : MarketCall) (s : Market) : Market :=
  match c with
  | SendPublishWork a title summary license price =>
      match publishWork a title summary license price s with
      | Done s' => s'
      | Undone _ => s
      end
  | SendAcquireWork depth callee a v k =>
      match acquireWork depth callee a v k s with
      | Done s' => s'
      | Undone _ => s
      end
  end.

Fixpoint marketAfterAll (txs : list MarketCall) (s : Market) : Market :=
  match txs with
  | [] => s
  | c :: rest => marketAfterAll rest (marketAfter c s)
  end.

(** What holds of the listed works, whatever the lock. *)
Definition worksInvariant (s : Market) : Prop :=
  0 <= totalWorksCount s <= uintMax
  /\ (forall k, 0 < k <= totalWorksCount s ->
        let w := allWorks s k in
        workId w = k
        /\ 0 < askingPrice w
        /\ work_title w <> "" /\ work_summary w <> "" /\ licenseAgreement w <> ""
        /\ (isUnavailable w = false -> currentOwner w = originalCreator w)
        /\ (isUnavailable w = true -> currentOwner w <> originalCreator w))
  /\ (forall k, ~ 0 < k <= totalWorksCount s -> allWorks s k = noWork).

(** One work as it may become of another: the same listing, and if the
    first was sold, the same owner. *)
Definition sameListing (w w' : Work) : Prop :=
  workId w' = workId w
  /\ originalCreator w' = originalCreator w
  /\ work_title w' = work_title w
  /\ work_summary w' = work_summary w
  /\ licenseAgreement w' = licenseAgreement w
  /\ askingPrice w' = askingPrice w
  /\ (isUnavailable w = true -> w' = w).

(** How storage may differ after calls that leave listed works alone. *)
Definition grownFrom (s s' : Market) : Prop :=
  locked s' = locked s
  /\ totalWorksCount s <= totalWorksCount s'
  /\ (forall k, k <= totalWorksCount s -> allWorks s' k = allWorks s k)
  /\ (worksInvariant s -> worksInvariant s').

(** ** The global error handler and the error classes *)

(** A JavaScript error as the handler looks at it; [statusCode] is the
    field the [AppError] classes add. *)
Record JsError := mkJsError {
  err_name : string;
  err_message : string;
  err_statusCode : option Z
}.

(** [new AppError(message, statusCode)] and its subclasses, each with its
    default message. *)
Definition AppError (message : string) (statusCode : Z) : JsError :=
  mkJsError "Error" message (Some statusCode).
Definition ValidationError (message : string) : JsError :=
  mkJsError "ValidationError" message (Some 400).
Definition UnauthorizedError (message : option string) : JsError :=
  mkJsError "UnauthorizedError" (orElse message "Unauthorized") (Some 401).
Definition ForbiddenError (message : option string) : JsError :=
  mkJsError "ForbiddenError" (orElse message "Forbidden") (Some 403).
Definition NotFoundError (message : option string) : JsError :=
  mkJsError "NotFoundError" (orElse message "Resource not found") (Some 404).
Definition ConflictError (message : option string) : JsError :=
  mkJsError "ConflictError" (orElse message "Resource conflict") (Some 409).

(** [haystack.includes(needle)] *)
Fixpoint includes (needle haystack : string) : bool :=
  String.prefix needle haystack
  || match haystack with
     | EmptyString => false
     | String _ rest => includes needle rest
     end.

(** The body the handler sends; [details] and [complianceContact] are
    keys that may be absent. *)
Record ErrorResponse := mkErrorResponse {
  er_success : bool;
  er_message : string;
  er_timestamp : string;
  er_path : string;
  er_method : string;
  er_details : option string;
  er_complianceContact : option string
}.

(** The status, message and details chosen from [error.name]. *)
Definition classify (error : JsError) : Z * string * option string :=
  let name := err_name error in
  if (name =? "ValidationError")%string
  then (400, "Validation failed", Some (err_message error))
  else if (name =? "UnauthorizedError")%string then (401, "Unauthorized", None)
  else if (name =? "ForbiddenError")%string then (403, "Forbidden", None)
  else if (name =? "NotFoundError")%string then (404, "Resource not found", None)
  else if (name =? "ConflictError")%string then (409, "Resource conflict", None)
  else if (name =? "SequelizeValidationError")%string
  then (400, "Database validation failed", Some (err_message error))
  else if (name =? "SequelizeUniqueConstraintError")%string
  then (409, "Resource already exists",
        Some "A record with this information already exists")
  else if (name =? "SequelizeForeignKeyConstraintError")%string
  then (400, "Invalid reference", Some "Referenced resource does not exist")
  else if (name =? "JsonWebTokenError")%string then (401, "Invalid token", None)
  else if (name =? "TokenExpiredError")%string then (401, "Token expired", None)
  else if (name =? "MulterError")%string
  then (400, "File upload error", Some (err_message error))
  else (500, "Internal server error", None).

(** [errorHandler(error, req, res, next)], given [config.logLevel],
    [config.complianceContact], the request's path and method and the
    timestamp string of the moment: the status and body it sends. *)
Definition errorHandler (logLevel complianceContact : string) (error : JsError)
    (path method isoTime : string) : Z * ErrorResponse :=
  let '(statusCode, message, details) := classify error in
  (statusCode,
   {| er_success := false;
      er_message := message;
      er_timestamp := isoTime;
      er_path := path;
      er_method := method;
      er_details :=
        if (logLevel =? "debug")%string && truthyKey details then details else None;
      er_complianceContact :=
        if includes "/ip-assets" path || includes "/assets" path
        then Some complianceContact else None |}).

(** ** Request validation

    [validateRegistration] and [validateLogin] of
    [src/validation.middleware.js].  A character of a string stands for
    one UTF-16 code unit, so strings here are those whose code units are
    below 256; [length] is the length JavaScript reports for them. *)

(** A field of [req.body]: absent (or null), a value that is not a
    string, or a string. *)
Inductive Field :=
| Missing
| NotAString
| Text (s : string).

(** [!field || typeof field !== 'string'] *)
Definition notAText (f : Field) : bool :=
  match f with
  | Text s => negb (truthy s)
  | _ => true
  end.

Definition textOf (f : Field) : string :=
  match f with Text s => s | _ => "" end.

Definition codeUnit (c : ascii) : N := N_of_ascii c.

Definition between (lo hi : N) (c : ascii) : bool :=
  ((lo <=? codeUnit c) && (codeUnit c <=? hi))%N.

(** [[a-z]], [[A-Z]], [\d], [[a-zA-Z0-9_]], [[a-fA-F0-9]] *)
Definition isLower : ascii -> bool := between 97 122.
Definition isUpper : ascii -> bool := between 65 90.
Definition isDigit : ascii -> bool := between 48 57.
Definition isWordChar (c : ascii) : bool :=
  isLower c || isUpper c || isDigit c || (codeUnit c =? 95)%N.
Definition isHexDigit (c : ascii) : bool :=
  between 97 102 c || between 65 70 c || isDigit c.

(** [\s] among the code units below 256, and the line terminators [.]
    does not match. *)
Definition isSpace (c : ascii) : bool :=
  between 9 13 c || (codeUnit c =? 32)%N || (codeUnit c =? 160)%N.
Definition isLineTerminator (c : ascii) : bool :=
  (codeUnit c =? 10)%N || (codeUnit c =? 13)%N.

(** [[^\s@]] *)
Definition isEmailChar (c : ascii) : bool :=
  negb (isSpace c) && negb (codeUnit c =? 64)%N.

Fixpoint allChars (cls : ascii -> bool) (s : string) : bool :=
  match s with
  | EmptyString => true
  | String c rest => cls c && allChars cls rest
  end.

Fixpoint someChar (cls : ascii -> bool) (s : string) : bool :=
  match s with
  | EmptyString => false
  | String c rest => cls c || someChar cls rest
  end.

(** A regular expression [cls+ rest] matched at the start of [s]: one or
    more characters of the class, then whatever [rest] accepts, trying
    every place to stop. *)
Fixpoint plusThen (cls : ascii -> bool) (rest : string -> bool) (s : string) : bool :=
  match s with
  | EmptyString => false
  | String c s' => cls c && (rest s' || plusThen cls rest s')
  end.

(** One given character, then [rest]. *)
Definition charThen (code : N) (rest : string -> bool) (s : string) : bool :=
  match s with
  | EmptyString => false
  | String c s' => (codeUnit c =? code)%N && rest s'
  end.

(** [$] *)
Definition atEnd (s : string) : bool :=
  match s with EmptyString => true | _ => false end.

(** [/^[^\s@]+@[^\s@]+\.[^\s@]+$/] *)
Definition emailRegex : string -> bool :=
  plusThen isEmailChar
    (charThen 64 (plusThen isEmailChar (charThen 46 (plusThen isEmailChar atEnd)))).

(** [/^[a-zA-Z0-9_]+$/] *)
Definition usernameRegex (s : string) : bool :=
  negb (atEnd s) && allChars isWordChar s.

(** [/^0x[a-fA-F0-9]{40}$/] *)
Definition walletRegex (s : string) : bool :=
  charThen 48 (charThen 120
    (fun rest => (String.length rest =? 40)%nat && allChars isHexDigit rest)) s.

(** The lookahead [(?=.*cls)] at the start of [s]: some character of the
    class with no line terminator before it. *)
Fixpoint ahead (cls : ascii -> bool) (s : string) : bool :=
  match s with
  | EmptyString => false
  | String c rest => cls c || (negb (isLineTerminator c) && ahead cls rest)
  end.

(** An unanchored [test]: the pattern is tried at every position. *)
Fixpoint anywhere (pattern : string -> bool) (s : string) : bool :=
  pattern s
  || match s with
     | EmptyString => false
     | String _ rest => anywhere pattern rest
     end.

(** [/(?=.*[a-z])(?=.*[A-Z])(?=.*\d)/] *)
Definition passwordRegex : string -> bool :=
  anywhere (fun s => ahead isLower s && ahead isUpper s && ahead isDigit s).

(** The error, if any, each field contributes. *)
Definition usernameError (f : Field) : list string :=
  if notAText f then ["Username is required and must be a string"]
  else if ((String.length (textOf f) <? 3) || (30 <? String.length (textOf f)))%nat
  then ["Username must be between 3 and 30 characters"]
  else if negb (usernameRegex (textOf f))
  then ["Username can only contain letters, numbers, and underscores"]
  else [].

Definition emailError (f : Field) : list string :=
  if notAText f then ["Email is required and must be a string"]
  else if negb (emailRegex (textOf f)) then ["Invalid email format"]
  else [].

Definition passwordError (f : Field) : list string :=
  if notAText f then ["Password is required and must be a string"]
  else if (String.length (textOf f) <? 8)%nat
  then ["Password must be at least 8 characters long"]
  else if negb (passwordRegex (textOf f))
  then ["Password must contain at least one uppercase letter, one lowercase letter, and one number"]
  else [].

Definition walletError (f : Field) : list string :=
  if notAText f then ["Wallet address is required and must be a string"]
  else if negb (walletRegex (textOf f)) then ["Invalid wallet address format"]
  else [].

(** [validateRegistration]: the [errors] it collects; it calls [next()]
    when there are none and answers 400 with them otherwise. *)
Definition validateRegistration (username_ email_ password_ walletAddress_ : Field)
    : list string :=
  usernameError username_ ++ emailError email_ ++ passwordError password_
  ++ walletError walletAddress_.

(** [validateLogin] *)
Definition validateLogin (email_ password_ : Field) : list string :=
  (if notAText email_ then ["Email is required and must be a string"] else [])
  ++ (if notAText password_ then ["Password is required and must be a string"] else []).

(** ** Further sample data *)

(** A verifier that knows the two tokens the sample runtime signs for
    Alice on the first two clock reads. *)
Definition demoVerifier : TokenVerifier :=
  {| jwt_verify := fun token _ _ =>
       if (token =? "access.alice.24h.1700000000000")%string
       then Decoded (AccessClaims 1 "alice" "a@x.com" None)
       else if (token =? "refresh.7d.1700000001000")%string
       then Decoded (RefreshClaims 1)
       else Rejected "jwt malformed" |}.

(** The sample runtime with a clock that moves one hour per read. *)
Definition hourlyRuntime : Runtime :=
  {| clock := fun k => 1700000000000 + 3600000 * Z.of_nat k;
     randomHex := @randomHex demoRuntime;
     bcrypt_hash := @bcrypt_hash demoRuntime;
     bcrypt_compare := @bcrypt_compare demoRuntime;
     jwt_sign := @jwt_sign demoRuntime;
     jwtSecret := @jwtSecret demoRuntime;
     rowChoice := @rowChoice demoRuntime |}.

(** What the first successful login of Alice returns and leaves behind. *)
Definition aliceLoggedIn : AuthResult :=
  mkAuthResult true (publicFields alice) (@tokensIssuedAt demoRuntime 0 alice) None.

Definition afterAliceLogin : World :=
  setUsers (writeRow 1 (lockoutPatch 0 None) [alice; bob]) (advance 2 (tableOf [alice; bob])).

(** A limiter map with one client at its limit of one request, in a
    window that ends at time 5000. *)
Definition oneClientAtLimit : list (string * ClientData) :=
  [("10.0.0.1", mkClientData 1 5000)].

(** Three requests of one client and one of another within a second. *)
Definition burst : list Hit :=
  [mkHit (Some "10.0.0.1") None 1100;
   mkHit (Some "10.0.0.2") None 1200;
   mkHit (Some "10.0.0.1") None 1900].

(** The registry after address 7 registered one patent at time 100. *)
Definition oneRegistered : Storage :=
  storageAfter (mkMsg 7 100) (CallRegisterIP "Engine" "Patent" "A new engine" "QmHash")
               deployed.

(** The marketplace after address 7 listed one work for 100. *)
Definition oneListed : Market :=
  marketAfter (SendPublishWork 7 "Song" "A song" "CC-BY" 100) marketDeployed.

(** A seller that tries to buy the work again while being paid. *)
Definition greedySeller : Callee :=
  fun _ => ([BackToAcquireWork 8 100 1; BackToPublishWork 7 "Again" "More" "CC0" 5], true).

(** ** Properties *)

Section Properties.

Context {R : Runtime}.

Lemma orZero_id (n : Z) : orZero n = n.
Proof. unfold orZero. destruct (Z.eqb_spec n 0); congruence. Qed.

Lemma lockTimeRemaining_ceiling (t now : Z) :
  lockTimeRemaining t now = - ((now - t) / 60000).
Proof.
  unfold lockTimeRemaining, Math_ceil, Qceiling, Qfloor.
  cbn [Qdiv Qmult Qinv Qopp inject_Z Qnum Qden Z.sgn].
  change (Z.pos (1 * 1000 * 60)) with 60000.
  rewrite !Z.mul_1_r. f_equal. f_equal. lia.
Qed.

Lemma lockTimeRemaining_spec (t now : Z) :
  60000 * (lockTimeRemaining t now - 1) < t - now <= 60000 * lockTimeRemaining t now.
Proof.
  rewrite lockTimeRemaining_ceiling.
  pose proof (Z.div_mod (now - t) 60000 ltac:(lia)) as E.
  pose proof (Z.mod_pos_bound (now - t) 60000 ltac:(lia)) as B.
  lia.
Qed.

Lemma In_firstn {A : Type} (k : nat) (l : list A) (x : A) :
  In x (firstn k l) -> In x l.
Proof.
  intros H. rewrite <- (firstn_skipn k l). apply in_or_app. left. exact H.
Qed.

Lemma writeRow_find (P : User -> bool) (p : Patch) (rows : list User) (u : User) :
  (forall r, P (applyPatch p r) = P r) ->
  find P rows = Some u ->
  find P (writeRow (id u) p rows) = Some (applyPatch p u).
Proof.
  intros HP. induction rows as [|r rows IH]; simpl; [discriminate|].
  destruct (P r) eqn:Hr.
  - intros [= ->]. rewrite Z.eqb_refl. simpl. rewrite HP, Hr. reflexivity.
  - intros H. destruct (id r =? id u); simpl; rewrite ?HP, Hr; auto.
Qed.

Lemma writeRow_noop (key : Z) (p : Patch) (rows : list User) :
  (forall r, In r rows -> id r = key -> applyPatch p r = r) ->
  writeRow key p rows = rows.
Proof.
  induction rows as [|r rows IH]; simpl; intros H; [reflexivity|].
  rewrite IH by auto. destruct (Z.eqb_spec (id r) key); [rewrite H|]; auto.
Qed.

(** *** The four transitions of [login] *)

Ltac unfold_service :=
  cbv beta iota zeta delta
    [rethrow bind ret throw User_findByPk User_findOne User_findAny getUsers
     handleFailedLogin generateTokens generateResetToken
     generateVerificationToken jwt_signM bcrypt_hashM randomBytesHex
     user_update Date_now violatesUnique takenByOther accountByEmail
     advance setUsers lockoutPatch] in *;
  cbn [p_username p_email users nextId ticks draws] in *.

Lemma login_unknown_email (mail plain : string) (w : World) :
  accountByEmail mail w = None ->
  login mail plain w = (Thrown invalidCredentials, w).
Proof.
  intros H. unfold login. unfold_service. rewrite H. reflexivity.
Qed.

Lemma login_locked (mail plain : string) (w : World) (u : User) (t : Z) :
  accountByEmail mail w = Some u ->
  lockUntil u = Some t ->
  clock (ticks w) < t ->
  login mail plain w =
  (Thrown ("Authentication failed: "
           ++ lockedMessage (lockTimeRemaining t (clock (S (ticks w)))))%string,
   advance 2 w).
Proof.
  intros H Ht Hlt. unfold login. unfold_service. rewrite H, Ht. cbn.
  apply Z.ltb_lt in Hlt. rewrite Hlt. reflexivity.
Qed.

Lemma login_wrong_password (mail plain : string) (w : World) (u : User) :
  accountByEmail mail w = Some u ->
  lockedAt (clock (ticks w)) u = false ->
  bcrypt_compare plain (password u) = false ->
  login mail plain w = (Thrown invalidCredentials, afterFailedLogin u w).
Proof.
  intros H Hl Hpw. unfold login, afterFailedLogin, lockedAt, lockCheckReads in *.
  unfold_service. rewrite H. cbn. rewrite Hpw, orZero_id.
  destruct (lockUntil u) as [t|]; cbn; rewrite ?Hl;
    destruct (failedLoginAttempts u + 1 >=? maxAttempts); reflexivity.
Qed.

Lemma login_correct_password (mail plain : string) (w : World) (u : User) :
  accountByEmail mail w = Some u ->
  lockedAt (clock (ticks w)) u = false ->
  bcrypt_compare plain (password u) = true ->
  login mail plain w =
  (Returned (mkAuthResult true (publicFields u)
               (tokensIssuedAt (lockCheckReads u + ticks w) u) None),
   setUsers (writeRow (id u) (lockoutPatch 0 None) (users w))
            (advance (2 + lockCheckReads u) w)).
Proof.
  intros H Hl Hpw. unfold login, lockedAt, lockCheckReads, tokensIssuedAt in *.
  unfold_service. rewrite H. cbn. rewrite Hpw.
  destruct (lockUntil u) as [t|]; cbn; rewrite ?Hl; reflexivity.
Qed.

(** *** Runs of failed logins *)

Lemma accountByEmail_writeRow (mail : string) (w w0 : World) (u : User) (p : Patch) :
  p_email p = None ->
  accountByEmail mail w = Some u ->
  accountByEmail mail (setUsers (writeRow (id u) p (users w)) w0)
  = Some (applyPatch p u).
Proof.
  intros Hp H. unfold accountByEmail, setUsers. cbn [users].
  apply writeRow_find; [|exact H].
  intros r. unfold applyPatch. cbn [email]. rewrite Hp. reflexivity.
Qed.

Lemma afterFailedLogin_account (mail : string) (w : World) (u : User) :
  accountByEmail mail w = Some u ->
  exists l,
    accountByEmail mail (afterFailedLogin u w)
    = Some (applyPatch (lockoutPatch (failedLoginAttempts u + 1) l) u)
    /\ l = (if failedLoginAttempts u + 1 >=? maxAttempts
            then Some (clock (lockCheckReads u + ticks w) + lockTime)
            else None).
Proof.
  intros H. unfold afterFailedLogin.
  destruct (failedLoginAttempts u + 1 >=? maxAttempts); eexists; split;
    try reflexivity; apply accountByEmail_writeRow; auto.
Qed.

Lemma attempts_below_threshold (mail : string) (plains : list string) :
  forall (w : World) (u : User),
    accountByEmail mail w = Some u ->
    lockedAt (clock (ticks w)) u = false ->
    failedLoginAttempts u + Z.of_nat (List.length plains) < maxAttempts ->
    (forall p, In p plains -> bcrypt_compare p (password u) = false) ->
    exists w' u',
      attempts mail plains w
      = (repeat (Thrown invalidCredentials) (List.length plains), w')
      /\ accountByEmail mail w' = Some u'
      /\ failedLoginAttempts u' = failedLoginAttempts u + Z.of_nat (List.length plains)
      /\ lockedAt (clock (ticks w')) u' = false
      /\ (plains <> [] -> lockUntil u' = None)
      /\ password u' = password u.
Proof.
  induction plains as [|plain rest IH]; intros w u Hacc Hlock Hn Hwrong.
  - exists w, u. cbn. repeat split; auto with zarith. congruence.
  - cbn [attempts List.length] in *.
    rewrite (login_wrong_password mail plain w u) by auto with datatypes.
    destruct (afterFailedLogin_account mail w u Hacc) as (l & Hacc1 & Hl).
    assert (Hlt : (failedLoginAttempts u + 1 >=? maxAttempts) = false)
      by (rewrite Z.geb_leb; apply Z.leb_gt; lia).
    rewrite Hlt in Hl. subst l.
    destruct (IH (afterFailedLogin u w) _ Hacc1) as (w' & u' & Hrun & Hacc' & Hc & Hl' & _ & Hpw).
    + reflexivity.
    + cbn. lia.
    + intros p Hp. cbn. auto with datatypes.
    + exists w', u'. rewrite Hrun. cbn in Hc, Hpw. repeat split; auto; try lia.
      intros _. destruct rest as [|p rest].
      * cbn in Hrun. injection Hrun as <-. rewrite Hacc1 in Hacc'.
        injection Hacc' as <-. reflexivity.
      * destruct (IH (afterFailedLogin u w) _ Hacc1) as (w2 & u2 & Hrun2 & Hacc2 & _ & _ & Hnone & _);
          [reflexivity | cbn in *; lia | intros q Hq; cbn; auto with datatypes |].
        rewrite Hrun in Hrun2. injection Hrun2 as <-.
        rewrite Hacc' in Hacc2. injection Hacc2 as <-. apply Hnone. discriminate.
Qed.

(** ** Lockout *)

(** C1. Starting from an account with no failed attempts and no active
    lock, every run of up to four wrong-password logins fails each time
    with the invalid-credentials error and leaves the account unlocked
    with one more failed attempt per login; a fifth wrong-password login
    fails the same way, records the fifth attempt and sets [lockUntil] to
    the time it read plus fifteen minutes, so that the account is locked
    at every instant before that. *)
Theorem five_failed_logins_lock (mail : string) (plains : list string)
    (fifth : string) (w : World) (u : User) :
  accountByEmail mail w = Some u ->
  failedLoginAttempts u = 0 ->
  lockedAt (clock (ticks w)) u = false ->
  List.length plains = 4%nat ->
  (forall p, In p (plains ++ [fifth]) -> bcrypt_compare p (password u) = false) ->
  (forall k, (k <= 4)%nat ->
     exists wk uk,
       attempts mail (firstn k plains) w
       = (repeat (Thrown invalidCredentials) k, wk)
       /\ accountByEmail mail wk = Some uk
       /\ failedLoginAttempts uk = Z.of_nat k
       /\ lockedAt (clock (ticks wk)) uk = false)
  /\ exists w4 u4 w5 u5,
       attempts mail plains w = (repeat (Thrown invalidCredentials) 4, w4)
       /\ accountByEmail mail w4 = Some u4
       /\ failedLoginAttempts u4 = 4
       /\ lockUntil u4 = None
       /\ login mail fifth w4 = (Thrown invalidCredentials, w5)
       /\ accountByEmail mail w5 = Some u5
       /\ failedLoginAttempts u5 = 5
       /\ lockUntil u5 = Some (clock (ticks w4) + 15 * 60 * 1000)
       /\ (forall now, now < clock (ticks w4) + 15 * 60 * 1000 ->
             lockedAt now u5 = true).
Proof.
  intros Hacc H0 Hlock Hlen Hwrong. split.
  - intros k Hk.
    destruct (attempts_below_threshold mail (firstn k plains) w u Hacc Hlock)
      as (wk & uk & Hrun & Hacck & Hc & Hl & _).
    + rewrite length_firstn, Hlen, H0. unfold maxAttempts. lia.
    + intros p Hp. apply Hwrong, in_or_app. left. eapply In_firstn, Hp.
    + rewrite length_firstn, Hlen, Nat.min_l in * by lia.
      exists wk, uk. repeat split; auto. lia.
  - destruct (attempts_below_threshold mail plains w u Hacc Hlock)
      as (w4 & u4 & Hrun & Hacc4 & Hc & Hl & Hnone & Hpw).
    + rewrite Hlen, H0. unfold maxAttempts. lia.
    + intros p Hp. apply Hwrong, in_or_app. auto.
    + rewrite Hlen, H0 in *. cbn in Hc.
      assert (Hn4 : lockUntil u4 = None)
        by (apply Hnone; destruct plains; [discriminate Hlen | discriminate]).
      destruct (afterFailedLogin_account mail w4 u4 Hacc4) as (l & Hacc5 & Hl5).
      rewrite Hc in *. cbn in Hl5. unfold lockCheckReads in Hl5.
      rewrite Hn4 in Hl5. cbn in Hl5.
      exists w4, u4, (afterFailedLogin u4 w4), (applyPatch (lockoutPatch 5 l) u4).
      subst l.
      split; [exact Hrun|]. split; [exact Hacc4|].
      split; [exact Hc|]. split; [exact Hn4|].
      split.
      { apply login_wrong_password; auto.
        rewrite Hpw. apply Hwrong, in_or_app. right. left. reflexivity. }
      split; [exact Hacc5|]. split; [reflexivity|]. split; [reflexivity|].
      intros now Hnow. unfold lockedAt. cbn [applyPatch lockoutPatch lockUntil p_lockUntil orElse].
      apply Z.ltb_lt. lia.
Qed.

(** C2. A login against a locked account fails with the account-locked
    error whatever password is supplied; the error text carries, in
    decimal digits, the ceiling of the milliseconds remaining (at the
    second clock read) divided by 60000, and no row of the table is
    changed. *)
Theorem locked_login_rejected (mail plain : string) (w : World) (u : User) (t : Z) :
  accountByEmail mail w = Some u ->
  lockUntil u = Some t ->
  clock (ticks w) < t ->
  exists minutes w',
    login mail plain w
    = (Thrown ("Authentication failed: Account is locked. Try again in "
               ++ NilZero.string_of_int (Z.to_int minutes) ++ " minutes")%string, w')
    /\ 60000 * (minutes - 1) < t - clock (S (ticks w)) <= 60000 * minutes
    /\ users w' = users w
    /\ accountByEmail mail w' = Some u.
Proof.
  intros Hacc Ht Hlt.
  exists (lockTimeRemaining t (clock (S (ticks w)))), (advance 2 w).
  split; [|split; [|split]].
  - rewrite (login_locked mail plain w u t) by assumption. reflexivity.
  - apply lockTimeRemaining_spec.
  - reflexivity.
  - exact Hacc.
Qed.




(** ** Email verification *)

Lemma optEqb_true (o : option string) (s : string) :
  optEqb o s = true <-> o = Some s.
Proof.
  destruct o as [t|]; cbn; [|split; discriminate].
  rewrite String.eqb_eq. split; congruence.
Qed.

Lemma find_none_iff {A : Type} (P : A -> bool) (l : list A) :
  find P l = None <-> (forall x, In x l -> P x = false).
Proof.
  split; [apply find_none|].
  induction l as [|a l IH]; cbn; intros H; [reflexivity|].
  rewrite (H a) by auto. apply IH. auto.
Qed.

Lemma find_some_iff {A : Type} (P : A -> bool) (l : list A) :
  find P l <> None <-> (exists x, In x l /\ P x = true).
Proof.
  split.
  - destruct (find P l) as [x|] eqn:E; [|congruence].
    intros _. exists x. apply (find_some _ _ E).
  - intros (x & Hx & HP) E. rewrite find_none_iff in E.
    rewrite (E x Hx) in HP. discriminate.
Qed.

Lemma In_writeRow (key : Z) (p : Patch) (rows : list User) (r' : User) :
  In r' (writeRow key p rows) ->
  exists r, In r rows
            /\ ((id r = key /\ r' = applyPatch p r) \/ (id r <> key /\ r' = r)).
Proof.
  unfold writeRow. rewrite in_map_iff. intros (r & E & Hr). exists r.
  split; [exact Hr|]. destruct (Z.eqb_spec (id r) key); auto.
Qed.

Lemma chosen_In (table rows : list User) (u : User) :
  chosen table rows = Some u -> In u rows.
Proof. unfold chosen. apply nth_error_In. Qed.

Lemma chosen_none (table rows : list User) :
  chosen table rows = None <-> rows = [].
Proof.
  unfold chosen. rewrite nth_error_None.
  destruct rows as [|r rows]; [split; [reflexivity | intros _; cbn; lia]|].
  split; [|discriminate]. intros H.
  pose proof (Nat.mod_upper_bound (rowChoice table (r :: rows))
                (List.length (r :: rows)) ltac:(discriminate)).
  lia.
Qed.

Lemma filter_nil_iff {A : Type} (P : A -> bool) (l : list A) :
  filter P l = [] <-> (forall x, In x l -> P x = false).
Proof.
  split.
  - intros H x Hx. destruct (P x) eqn:E; [|reflexivity].
    assert (Hin : In x (filter P l)) by (apply filter_In; auto).
    rewrite H in Hin. destruct Hin.
  - induction l as [|a l IH]; cbn; intros H; [reflexivity|].
    rewrite (H a) by auto. apply IH. auto.
Qed.

Lemma accountByToken_some (token : string) (w : World) (u : User) :
  accountByToken token w = Some u ->
  In u (users w) /\ verificationToken u = Some token.
Proof.
  intros H. apply chosen_In, filter_In in H. destruct H as [Hin Htok].
  apply optEqb_true in Htok. auto.
Qed.

Lemma accountByToken_none (token : string) (w : World) :
  accountByToken token w = None
  <-> (forall r, In r (users w) -> verificationToken r <> Some token).
Proof.
  unfold accountByToken. rewrite chosen_none, filter_nil_iff.
  split; intros H r Hr; specialize (H r Hr).
  - intros E. apply optEqb_true in E. congruence.
  - destruct (optEqb (verificationToken r) token) eqn:E; [|reflexivity].
    apply optEqb_true in E. contradiction.
Qed.

Lemma verifyEmail_unknown (token : string) (w : World) :
  accountByToken token w = None ->
  verifyEmail token w
  = (Thrown "Email verification failed: Invalid verification token", w).
Proof.
  intros H. unfold verifyEmail, accountByToken in *. unfold_service.
  rewrite H. reflexivity.
Qed.

Lemma verifyEmail_found (token : string) (w : World) (u : User) :
  accountByToken token w = Some u ->
  verifyEmail token w
  = if isVerified u
    then (Returned (mkMessageResult true "Email already verified" None), w)
    else (Returned (mkMessageResult true "Email verified successfully" None),
          setUsers (writeRow (id u) markVerified (users w)) w).
Proof.
  intros H. unfold verifyEmail, accountByToken in *. unfold_service.
  rewrite H. destruct (isVerified u); reflexivity.
Qed.

Lemma In_writeRow_hit (key : Z) (p : Patch) (rows : list User) (r : User) :
  In r rows -> id r = key -> In (applyPatch p r) (writeRow key p rows).
Proof.
  intros Hr Hid. unfold writeRow. apply in_map_iff. exists r.
  split; [|exact Hr]. apply Z.eqb_eq in Hid. rewrite Hid. reflexivity.
Qed.

Lemma In_writeRow_miss (key : Z) (p : Patch) (rows : list User) (r : User) :
  In r rows -> id r <> key -> In r (writeRow key p rows).
Proof.
  intros Hr Hid. unfold writeRow. apply in_map_iff. exists r.
  split; [|exact Hr]. apply Z.eqb_neq in Hid. rewrite Hid. reflexivity.
Qed.

Lemma length_writeRow (key : Z) (p : Patch) (rows : list User) :
  List.length (writeRow key p rows) = List.length rows.
Proof. unfold writeRow. apply length_map. Qed.

(** C5 (amended). A [verifyEmail] that finds an unverified account
    succeeds, and afterwards that account is in the table with
    [isVerified] set and no verification token, its other columns and all
    other accounts being as they were; provided no row with another [id]
    stored the same token, a second call with the token fails with the
    invalid-token error.  A [verifyEmail] that finds an account that is
    already verified succeeds and changes nothing.  The account found is
    whichever matching row the database returns. *)
Theorem verifyEmail_single_use (token : string) (w : World) (u : User) :
  accountByToken token w = Some u ->
  In u (users w)
  /\ verificationToken u = Some token
  /\ (isVerified u = false ->
      exists w1 u1,
        verifyEmail token w
        = (Returned (mkMessageResult true "Email verified successfully" None), w1)
        /\ users w1 = writeRow (id u) markVerified (users w)
        /\ In u1 (users w1)
        /\ isVerified u1 = true
        /\ verificationToken u1 = None
        /\ (id u1, username u1, email u1, password u1)
           = (id u, username u, email u, password u)
        /\ (failedLoginAttempts u1, lockUntil u1, resetPasswordToken u1,
            resetPasswordExpires u1)
           = (failedLoginAttempts u, lockUntil u, resetPasswordToken u,
              resetPasswordExpires u)
        /\ (forall r, In r (users w1) -> id r = id u ->
              isVerified r = true /\ verificationToken r = None)
        /\ (forall r, In r (users w) -> id r <> id u -> In r (users w1))
        /\ List.length (users w1) = List.length (users w)
        /\ (nextId w1, ticks w1, draws w1) = (nextId w, ticks w, draws w)
        /\ ((forall r, In r (users w) -> verificationToken r = Some token ->
               id r = id u) ->
            verifyEmail token w1
            = (Thrown "Email verification failed: Invalid verification token", w1)))
  /\ (isVerified u = true ->
      verifyEmail token w
      = (Returned (mkMessageResult true "Email already verified" None), w)).
Proof.
  intros Hacc. destruct (accountByToken_some _ _ _ Hacc) as [Hin Htok].
  pose proof (verifyEmail_found token w u Hacc) as Hrun.
  split; [exact Hin|]. split; [exact Htok|]. split.
  - intros Hv. rewrite Hv in Hrun.
    exists (setUsers (writeRow (id u) markVerified (users w)) w),
           (applyPatch markVerified u).
    split; [exact Hrun|]. split; [reflexivity|].
    split; [apply In_writeRow_hit; [exact Hin | reflexivity]|].
    split; [reflexivity|]. split; [reflexivity|].
    split; [reflexivity|]. split; [reflexivity|].
    split.
    { intros r Hr Hid. apply In_writeRow in Hr.
      destruct Hr as (r0 & _ & [[_ ->] | [Hne ->]]); [split; reflexivity|].
      congruence. }
    split; [intros r Hr Hne; apply In_writeRow_miss; assumption|].
    split; [apply length_writeRow|]. split; [reflexivity|].
    intros Huniq. apply verifyEmail_unknown. apply accountByToken_none.
    intros r Hr. apply In_writeRow in Hr.
    destruct Hr as (r0 & Hr0 & [[_ ->] | [Hne ->]]); [discriminate|].
    intros E. apply Hne. auto.
  - intros Hv. rewrite Hv in Hrun. exact Hrun.
Qed.

(** ** Password reset *)

Lemma resetTokenLive_true (token : string) (now : Z) (r : User) :
  resetTokenLive token now r = true
  <-> resetPasswordToken r = Some token
      /\ exists e, resetPasswordExpires r = Some e /\ now < e.
Proof.
  unfold resetTokenLive. rewrite andb_true_iff, optEqb_true.
  destruct (resetPasswordExpires r) as [e|].
  - rewrite Z.ltb_lt. split.
    + intros [H1 H2]. eauto.
    + intros [H1 (e' & [= <-] & H2)]. auto.
  - split; [intros [_ H]; discriminate | intros [_ (e & H & _)]; discriminate].
Qed.

Lemma accountByResetToken_some (token : string) (now : Z) (w : World) (u : User) :
  accountByResetToken token now w = Some u ->
  In u (users w)
  /\ resetPasswordToken u = Some token
  /\ exists e, resetPasswordExpires u = Some e /\ now < e.
Proof.
  intros H. apply chosen_In, filter_In in H. destruct H as [Hin Hlive].
  apply resetTokenLive_true in Hlive. tauto.
Qed.

Lemma accountByResetToken_none (token : string) (now : Z) (w : World) :
  accountByResetToken token now w = None <-> ~ liveResetToken token now w.
Proof.
  unfold accountByResetToken, liveResetToken. rewrite chosen_none, filter_nil_iff.
  split.
  - intros H (r & e & Hr & Ht & He & Hlt).
    assert (E : resetTokenLive token now r = true)
      by (apply resetTokenLive_true; eauto).
    rewrite (H r Hr) in E. discriminate E.
  - intros H r Hr. destruct (resetTokenLive token now r) eqn:E; [|reflexivity].
    apply resetTokenLive_true in E. destruct E as (Ht & e & He & Hlt).
    elim H. exists r, e. auto.
Qed.

Lemma resetPassword_found (token new : string) (w : World) (u : User) :
  accountByResetToken token (clock (ticks w)) w = Some u ->
  resetPassword token new w
  = (Returned (mkMessageResult true "Password reset successfully" None),
     setUsers (writeRow (id u) (resetDone (bcrypt_hash new 12 (draws w))) (users w))
              (mkWorld (users w) (nextId w) (S (ticks w)) (S (draws w)))).
Proof.
  intros H. unfold resetPassword, accountByResetToken in *. unfold_service.
  rewrite H. reflexivity.
Qed.

Lemma resetPassword_dead (token new : string) (w : World) :
  accountByResetToken token (clock (ticks w)) w = None ->
  resetPassword token new w
  = (Thrown "Password reset failed: Invalid or expired reset token", advance 1 w).
Proof.
  intros H. unfold resetPassword, accountByResetToken in *. unfold_service.
  rewrite H. reflexivity.
Qed.

(** C4. [resetPassword] succeeds exactly when some account stores the
    token with an expiry strictly after the time read; otherwise it fails
    with the one invalid-or-expired error and changes no row.  On success
    the account found, whichever of the matching rows the database
    returns, is in the table afterwards with the hash of the new password,
    null reset fields, no failed attempts and no lock, its other columns
    and all other accounts being as they were. *)
Theorem resetPassword_spec (token newPassword : string) (w : World) :
  let now := clock (ticks w) in
  let hashed := bcrypt_hash newPassword 12 (draws w) in
  (liveResetToken token now w ->
   exists u w' u',
     accountByResetToken token now w = Some u
     /\ In u (users w)
     /\ resetPasswordToken u = Some token
     /\ (exists e, resetPasswordExpires u = Some e /\ now < e)
     /\ resetPassword token newPassword w
        = (Returned (mkMessageResult true "Password reset successfully" None), w')
     /\ users w' = writeRow (id u) (resetDone hashed) (users w)
     /\ In u' (users w')
     /\ (id u', username u', email u', isVerified u', verificationToken u')
        = (id u, username u, email u, isVerified u, verificationToken u)
     /\ password u' = hashed
     /\ resetPasswordToken u' = None
     /\ resetPasswordExpires u' = None
     /\ failedLoginAttempts u' = 0
     /\ lockUntil u' = None
     /\ (forall r, In r (users w') -> id r = id u ->
           password r = hashed
           /\ resetPasswordToken r = None
           /\ resetPasswordExpires r = None
           /\ failedLoginAttempts r = 0
           /\ lockUntil r = None
           /\ forall at_, lockedAt at_ r = false)
     /\ (forall r, In r (users w) -> id r <> id u -> In r (users w'))
     /\ List.length (users w') = List.length (users w))
  /\ (~ liveResetToken token now w ->
      resetPassword token newPassword w
      = (Thrown "Password reset failed: Invalid or expired reset token", advance 1 w))
  /\ (forall m w', resetPassword token newPassword w = (Returned m, w') ->
        liveResetToken token now w).
Proof.
  cbv zeta. split; [|split].
  - intros Hlive.
    destruct (accountByResetToken token (clock (ticks w)) w) as [u|] eqn:E.
    2:{ apply accountByResetToken_none in E. contradiction. }
    destruct (accountByResetToken_some _ _ _ _ E) as (Hin & Htok & Hexp).
    exists u. eexists.
    exists (applyPatch (resetDone (bcrypt_hash newPassword 12 (draws w))) u).
    split; [reflexivity|]. split; [exact Hin|]. split; [exact Htok|].
    split; [exact Hexp|].
    split; [apply resetPassword_found; exact E|].
    cbn [setUsers users]. split; [reflexivity|].
    split; [apply In_writeRow_hit; [exact Hin | reflexivity]|].
    split; [reflexivity|]. split; [reflexivity|]. split; [reflexivity|].
    split; [reflexivity|]. split; [reflexivity|]. split; [reflexivity|].
    split.
    { intros r Hr Hid. apply In_writeRow in Hr.
      destruct Hr as (r0 & _ & [[_ ->] | [Hne ->]]); [|congruence].
      repeat split. }
    split; [intros r Hr Hne; apply In_writeRow_miss; assumption|].
    apply length_writeRow.
  - intros Hdead. apply resetPassword_dead, accountByResetToken_none, Hdead.
  - intros m w' Hrun.
    destruct (accountByResetToken token (clock (ticks w)) w) as [u|] eqn:E.
    + destruct (accountByResetToken_some _ _ _ _ E) as (Hin & Htok & e & He & Hlt).
      exists u, e. auto.
    + rewrite (resetPassword_dead _ _ _ E) in Hrun. discriminate Hrun.
Qed.

(** C8. [requestPasswordReset] returns success with the same message
    whether or not the email address has an account.  When it has one,
    the account afterwards stores the token just drawn, expiring one hour
    after the time read, in place of whatever reset token it stored
    before: the stored token matches a candidate exactly when the
    candidate is the new token. *)
Theorem requestPasswordReset_generic (mail : string) (w : World) :
  exists r w',
    requestPasswordReset mail w = (Returned r, w')
    /\ mr_success r = true
    /\ mr_message r
       = "If an account with this email exists, a password reset link has been sent"
    /\ match accountByEmail mail w with
       | None => users w' = users w /\ mr_resetToken r = None
       | Some u =>
           let fresh := randomHex 32 (draws w) in
           exists u',
             accountByEmail mail w' = Some u'
             /\ u' = applyPatch (resetIssued fresh (clock (ticks w) + 3600000)) u
             /\ resetPasswordToken u' = Some fresh
             /\ resetPasswordExpires u' = Some (clock (ticks w) + 60 * 60 * 1000)
             /\ mr_resetToken r = Some fresh
             /\ (forall candidate,
                   optEqb (resetPasswordToken u') candidate = true
                   <-> candidate = fresh)
       end.
Proof.
  destruct (accountByEmail mail w) as [u|] eqn:Hacc.
  - eexists _, (setUsers (writeRow (id u)
                   (resetIssued (randomHex 32 (draws w)) (clock (ticks w) + 3600000))
                   (users w))
                 (mkWorld (users w) (nextId w) (S (ticks w)) (S (draws w)))).
    split; [|split; [|split]].
    + unfold requestPasswordReset. unfold_service. rewrite Hacc. reflexivity.
    + reflexivity.
    + reflexivity.
    + cbv zeta. eexists. split; [apply accountByEmail_writeRow; auto|].
      repeat split.
      * intros H. apply optEqb_true in H. cbn in H. congruence.
      * intros ->. apply optEqb_true. reflexivity.
  - exists (mkMessageResult true resetRequested None), w.
    split; [|repeat split].
    unfold requestPasswordReset. unfold_service. rewrite Hacc. reflexivity.
Qed.

(** ** Registration *)

Lemma register_conflict (uname mail plain wallet : string) (w : World) :
  (exists r, In r (users w) /\ (email r = mail \/ username r = uname)) ->
  register uname mail plain wallet w = (Thrown conflictError, w).
Proof.
  intros (r & Hr & Hsame).
  assert (E : find (fun r => (email r =? mail)%string || (username r =? uname)%string)
                   (users w) <> None).
  { apply find_some_iff. exists r. split; [exact Hr|].
    apply orb_true_iff. rewrite !String.eqb_eq. exact Hsame. }
  unfold register. unfold_service.
  destruct (find _ (users w)); [reflexivity | congruence].
Qed.



(** ** Profile update *)

Lemma truthy_true (s : string) : truthy s = true <-> s <> "".
Proof.
  unfold truthy. rewrite negb_true_iff. split.
  - intros H ->. discriminate.
  - intros H. destruct (String.eqb_spec s ""); congruence.
Qed.















End Properties.

(** ** The properties on the sample tables *)

Lemma five_failed_logins_lock_witness :
  let w := tableOf [alice; bob] in
  let wrong := ["a"; "b"; "c"; "d"] in
  accountByEmail "a@x.com" w = Some alice
  /\ failedLoginAttempts alice = 0
  /\ lockedAt (@clock demoRuntime (ticks w)) alice = false
  /\ List.length wrong = 4%nat
  /\ (forall p, In p (wrong ++ ["e"]) ->
        @bcrypt_compare demoRuntime p (password alice) = false)
  /\ exists w4 u4 w5 u5,
       @attempts demoRuntime "a@x.com" wrong w
       = (repeat (Thrown invalidCredentials) 4, w4)
       /\ accountByEmail "a@x.com" w4 = Some u4
       /\ failedLoginAttempts u4 = 4
       /\ lockUntil u4 = None
       /\ @login demoRuntime "a@x.com" "e" w4 = (Thrown invalidCredentials, w5)
       /\ accountByEmail "a@x.com" w5 = Some u5
       /\ failedLoginAttempts u5 = 5
       /\ lockUntil u5 = Some (@clock demoRuntime (ticks w4) + 15 * 60 * 1000).
Proof.
  cbv zeta.
  assert (Hwrong : forall p, In p (["a"; "b"; "c"; "d"] ++ ["e"]) ->
                     @bcrypt_compare demoRuntime p (password alice) = false).
  { intros p Hp. cbn in Hp.
    repeat (destruct Hp as [<- | Hp]; [reflexivity|]). contradiction. }
  split; [reflexivity|]. split; [reflexivity|]. split; [reflexivity|].
  split; [reflexivity|]. split; [exact Hwrong|].
  destruct (@five_failed_logins_lock demoRuntime "a@x.com" ["a"; "b"; "c"; "d"] "e"
              (tableOf [alice; bob]) alice
              eq_refl eq_refl eq_refl eq_refl Hwrong)
    as (_ & w4 & u4 & w5 & u5 & H1 & H2 & H3 & H4 & H5 & H6 & H7 & H8 & _).
  exists w4, u4, w5, u5. repeat split; assumption.
Defined.

Lemma locked_login_rejected_witness :
  let w := tableOf [aliceLocked; bob] in
  accountByEmail "a@x.com" w = Some aliceLocked
  /\ lockUntil aliceLocked = Some 1700000600000
  /\ @clock demoRuntime (ticks w) < 1700000600000
  /\ @bcrypt_compare demoRuntime "Abcd1234" (password aliceLocked) = true
  /\ exists w',
       @login demoRuntime "a@x.com" "Abcd1234" w
       = (Thrown "Authentication failed: Account is locked. Try again in 10 minutes", w')
       /\ users w' = users w
       /\ accountByEmail "a@x.com" w' = Some aliceLocked.
Proof.
  cbv zeta.
  split; [reflexivity|]. split; [reflexivity|]. split; [reflexivity|].
  split; [reflexivity|].
  destruct (@locked_login_rejected demoRuntime "a@x.com" "Abcd1234"
              (tableOf [aliceLocked; bob]) aliceLocked 1700000600000
              eq_refl eq_refl eq_refl)
    as (minutes & w' & Hrun & Hceil & Husers & Hacc).
  change (@clock demoRuntime (S (ticks (tableOf [aliceLocked; bob]))))
    with 1700000001000 in Hceil.
  assert (E : minutes = 10) by lia. subst minutes.
  exists w'. split; [exact Hrun|]. split; assumption.
Defined.





Lemma verifyEmail_single_use_witness :
  let w := tableOf [alice; bob] in
  let w2 := tableOf [aliceVerified; bob] in
  @accountByToken demoRuntime "tok-alice" w = Some alice
  /\ isVerified alice = false
  /\ (forall r, In r (users w) -> verificationToken r = Some "tok-alice" ->
        id r = id alice)
  /\ (exists w1 u1,
        @verifyEmail demoRuntime "tok-alice" w
        = (Returned (mkMessageResult true "Email verified successfully" None), w1)
        /\ In u1 (users w1)
        /\ id u1 = 1 /\ isVerified u1 = true /\ verificationToken u1 = None
        /\ In bob (users w1)
        /\ @verifyEmail demoRuntime "tok-alice" w1
           = (Thrown "Email verification failed: Invalid verification token", w1))
  /\ @accountByToken demoRuntime "tok-alice" w2 = Some aliceVerified
  /\ isVerified aliceVerified = true
  /\ @verifyEmail demoRuntime "tok-alice" w2
     = (Returned (mkMessageResult true "Email already verified" None), w2).
Proof.
  cbv zeta.
  assert (Hone : forall r, In r (users (tableOf [alice; bob])) ->
                   verificationToken r = Some "tok-alice" -> id r = id alice).
  { intros r [<- | [<- | []]] H; [reflexivity | discriminate H]. }
  split; [reflexivity|]. split; [reflexivity|]. split; [exact Hone|].
  split.
  - destruct (@verifyEmail_single_use demoRuntime "tok-alice" (tableOf [alice; bob])
                alice eq_refl) as (_ & _ & Hfirst & _).
    destruct (Hfirst eq_refl)
      as (w1 & u1 & H1 & _ & H2 & H3 & H4 & H5 & _ & _ & H6 & _ & _ & H7).
    exists w1, u1. split; [exact H1|]. split; [exact H2|].
    split; [injection H5 as E _ _ _; exact E|].
    split; [exact H3|]. split; [exact H4|].
    split; [apply H6; [right; left; reflexivity | discriminate]|].
    exact (H7 Hone).
  - split; [reflexivity|]. split; [reflexivity|].
    apply (@verifyEmail_single_use demoRuntime "tok-alice"
             (tableOf [aliceVerified; bob]) aliceVerified eq_refl).
    reflexivity.
Defined.

(** C5, as stated, fails when a second account stores the same token: the
    first call verifies one of the two accounts, and the second call with
    the same token succeeds again, this time verifying the other; so it is
    whether the database returns the first or the last matching row. *)
Lemma shared_token_verifies_twice :
  let w := tableOf [alice; bobSameToken] in
  let w1 := snd (@verifyEmail demoRuntime "tok-alice" w) in
  let w1' := snd (@verifyEmail lastRowRuntime "tok-alice" w) in
  @accountByToken demoRuntime "tok-alice" w = Some alice
  /\ isVerified alice = false
  /\ fst (@verifyEmail demoRuntime "tok-alice" w)
     = Returned (mkMessageResult true "Email verified successfully" None)
  /\ (forall r, In r (users w1) -> id r = id alice ->
        isVerified r = true /\ verificationToken r = None)
  /\ fst (@verifyEmail demoRuntime "tok-alice" w1)
     = Returned (mkMessageResult true "Email verified successfully" None)
  /\ fst (@verifyEmail demoRuntime "tok-alice" w1)
     <> Thrown "Email verification failed: Invalid verification token"
  /\ @accountByToken lastRowRuntime "tok-alice" w = Some bobSameToken
  /\ fst (@verifyEmail lastRowRuntime "tok-alice" w)
     = Returned (mkMessageResult true "Email verified successfully" None)
  /\ fst (@verifyEmail lastRowRuntime "tok-alice" w1')
     = Returned (mkMessageResult true "Email verified successfully" None).
Proof.
  cbv zeta. split; [reflexivity|]. split; [reflexivity|]. split; [reflexivity|].
  split.
  - intros r [<- | [<- | []]] H; [split; reflexivity | discriminate H].
  - split; [reflexivity|]. split; [vm_compute; discriminate|].
    split; [reflexivity|]. split; reflexivity.
Qed.

Lemma resetPassword_spec_witness :
  let w := tableOf [aliceResetting; bob] in
  let now := @clock demoRuntime (ticks w) in
  liveResetToken "reset-1" now w
  /\ ~ liveResetToken "reset-0" now w
  /\ (exists w' u',
        @resetPassword demoRuntime "reset-1" "NewPass99" w
        = (Returned (mkMessageResult true "Password reset successfully" None), w')
        /\ In u' (users w')
        /\ id u' = 1
        /\ password u' = "$2b$12$NewPass99"
        /\ resetPasswordToken u' = None
        /\ resetPasswordExpires u' = None
        /\ failedLoginAttempts u' = 0
        /\ lockUntil u' = None
        /\ In bob (users w'))
  /\ @resetPassword demoRuntime "reset-0" "NewPass99" w
     = (Thrown "Password reset failed: Invalid or expired reset token", advance 1 w).
Proof.
  cbv zeta.
  assert (Hlive : liveResetToken "reset-1" (@clock demoRuntime 0)
                    (tableOf [aliceResetting; bob])).
  { exists aliceResetting, 1700000001000.
    split; [left; reflexivity|]. repeat split. }
  assert (Hdead : ~ liveResetToken "reset-0" (@clock demoRuntime 0)
                      (tableOf [aliceResetting; bob])).
  { intros (r & e & [<- | [<- | []]] & Ht & _); discriminate Ht. }
  split; [exact Hlive|]. split; [exact Hdead|].
  destruct (@resetPassword_spec demoRuntime "reset-1" "NewPass99"
              (tableOf [aliceResetting; bob])) as (Hyes & _ & _).
  destruct (@resetPassword_spec demoRuntime "reset-0" "NewPass99"
              (tableOf [aliceResetting; bob])) as (_ & Hno & _).
  split; [|exact (Hno Hdead)].
  destruct (Hyes Hlive)
    as (u & w' & u' & Hu & _ & _ & _ & Hrun & _ & Hin & Hsame & H1 & H2 & H3 & H4 & H5
        & _ & Hrest & _).
  injection Hu as <-.
  exists w', u'. split; [exact Hrun|]. split; [exact Hin|].
  split; [injection Hsame as E _ _ _ _; exact E|].
  split; [exact H1|]. split; [exact H2|]. split; [exact H3|].
  split; [exact H4|]. split; [exact H5|].
  apply Hrest; [right; left; reflexivity | discriminate].
Defined.

Lemma requestPasswordReset_generic_witness :
  let w := tableOf [aliceResetting; bob] in
  (exists r w',
     @requestPasswordReset demoRuntime "nobody@x.com" w = (Returned r, w')
     /\ mr_message r = resetRequested
     /\ users w' = users w)
  /\ (exists r w' u',
        @requestPasswordReset demoRuntime "a@x.com" w = (Returned r, w')
        /\ mr_message r = resetRequested
        /\ accountByEmail "a@x.com" w' = Some u'
        /\ resetPasswordToken u' = Some "hex0"
        /\ resetPasswordExpires u' = Some (1700000000000 + 60 * 60 * 1000)
        /\ optEqb (resetPasswordToken u') "reset-1" = false).
Proof.
  cbv zeta. split.
  - destruct (@requestPasswordReset_generic demoRuntime "nobody@x.com"
                (tableOf [aliceResetting; bob]))
      as (r & w' & Hrun & _ & Hmsg & Hrest).
    change (accountByEmail "nobody@x.com" (tableOf [aliceResetting; bob]))
      with (@None User) in Hrest.
    exists r, w'. repeat split; [exact Hrun | exact Hmsg | apply Hrest].
  - destruct (@requestPasswordReset_generic demoRuntime "a@x.com"
                (tableOf [aliceResetting; bob]))
      as (r & w' & Hrun & _ & Hmsg & Hrest).
    change (accountByEmail "a@x.com" (tableOf [aliceResetting; bob]))
      with (Some aliceResetting) in Hrest.
    destruct Hrest as (u' & Hacc & _ & Htok & Hexp & _ & Honly).
    exists r, w', u'. repeat split; try assumption.
    destruct (optEqb (resetPasswordToken u') "reset-1") eqn:E; [|reflexivity].
    apply Honly in E. discriminate E.
Defined.


(** Addresses that differ only in case are different addresses to
    [register]. *)
Lemma register_is_case_sensitive :
  exists res w1,
    @register demoRuntime "Alice" "A@x.com" "Abcd1234" "0x3" (tableOf [alice; bob])
    = (Returned res, w1)
    /\ List.length (users w1) = 3%nat.
Proof.
  eexists _, _. split; [vm_compute; reflexivity | reflexivity].
Qed.



(** ** Further properties of the service *)

Section FurtherProperties.

Context {R : Runtime} {V : TokenVerifier}.

Ltac run_service :=
  cbv beta iota zeta delta
    [rethrow bind ret throw User_findByPk User_findOne User_findAny User_count getUsers
     handleFailedLogin generateTokens generateResetToken
     generateVerificationToken jwt_signM jwt_verifyM bcrypt_hashM randomBytesHex
     user_update Date_now violatesUnique takenByOther accountByEmail accountById
     advance setUsers lockoutPatch passwordChanged answer reply] in *;
  cbn [p_username p_email users nextId ticks draws] in *.

(** *** Password change *)

Lemma changePassword_unknown (userId : Z) (current new : string) (w : World) :
  accountById userId w = None ->
  changePassword userId current new w
  = (Thrown "Failed to change password: User not found", w).
Proof.
  intros H. unfold changePassword. run_service. rewrite H. reflexivity.
Qed.

Lemma changePassword_wrong (userId : Z) (current new : string) (w : World) (u : User) :
  accountById userId w = Some u ->
  bcrypt_compare current (password u) = false ->
  changePassword userId current new w
  = (Thrown "Failed to change password: Current password is incorrect", w).
Proof.
  intros H Hpw. unfold changePassword. run_service. rewrite H, Hpw. reflexivity.
Qed.

Lemma changePassword_right (userId : Z) (current new : string) (w : World) (u : User) :
  accountById userId w = Some u ->
  bcrypt_compare current (password u) = true ->
  changePassword userId current new w
  = (Returned (mkMessageResult true "Password changed successfully" None),
     setUsers (writeRow (id u) (passwordChanged (bcrypt_hash new 12 (draws w)))
                        (users w))
              (mkWorld (users w) (nextId w) (ticks w) (S (draws w)))).
Proof.
  intros H Hpw. unfold changePassword. run_service. rewrite H, Hpw. reflexivity.
Qed.

(** X1. [changePassword] for an unknown id or with a wrong current
    password fails and leaves the whole state as it was: unlike a failed
    login, a wrong current password is not counted against the account,
    whether or not the account is locked. *)
Theorem changePassword_failure_leaves_no_trace
    (userId : Z) (current new : string) (w : World) :
  (accountById userId w = None ->
   changePassword userId current new w
   = (Thrown "Failed to change password: User not found", w))
  /\ (forall u,
        accountById userId w = Some u ->
        bcrypt_compare current (password u) = false ->
        changePassword userId current new w
        = (Thrown "Failed to change password: Current password is incorrect", w)
        /\ accountById userId (snd (changePassword userId current new w)) = Some u).
Proof.
  split.
  - apply changePassword_unknown.
  - intros u H Hpw. rewrite (changePassword_wrong _ _ _ _ _ H Hpw). auto.
Qed.

(** X2. A successful [changePassword] lets the account log in with the
    new password at once, even if it was locked before, provided [bcrypt]
    accepts the new password against the hash it just made of it; and the
    old password is refused from then on when [bcrypt] does not accept it
    against the new hash. *)
Theorem changePassword_then_login
    (userId : Z) (mail current new : string) (w : World) (u : User) :
  accountById userId w = Some u ->
  accountByEmail mail w = Some u ->
  bcrypt_compare current (password u) = true ->
  bcrypt_compare new (bcrypt_hash new 12 (draws w)) = true ->
  exists w1,
    changePassword userId current new w
    = (Returned (mkMessageResult true "Password changed successfully" None), w1)
    /\ (exists issued w2,
          login mail new w1
          = (Returned (mkAuthResult true (publicFields u) (tokensIssuedAt issued u) None),
             w2))
    /\ (bcrypt_compare current (bcrypt_hash new 12 (draws w)) = false ->
        fst (login mail current w1) = Thrown invalidCredentials).
Proof.
  intros Hid Hmail Hcur Hnew.
  eexists. split; [apply (changePassword_right _ _ _ _ _ Hid Hcur)|].
  set (p := passwordChanged (bcrypt_hash new 12 (draws w))).
  set (w1 := setUsers _ _).
  assert (Hacc : accountByEmail mail w1 = Some (applyPatch p u))
    by (apply accountByEmail_writeRow; auto).
  split.
  - eexists _, _.
    rewrite (login_correct_password mail new w1 _ Hacc); [reflexivity | reflexivity | exact Hnew].
  - intros Hold.
    rewrite (login_wrong_password mail current w1 _ Hacc); [reflexivity | reflexivity | exact Hold].
Qed.

(** *** The outcomes of [login], and what it touches *)

Lemma login_cases (mail plain : string) (w : World) :
  (accountByEmail mail w = None
   /\ login mail plain w = (Thrown invalidCredentials, w))
  \/ (exists u t,
        accountByEmail mail w = Some u /\ lockUntil u = Some t
        /\ clock (ticks w) < t
        /\ login mail plain w
           = (Thrown ("Authentication failed: "
                      ++ lockedMessage (lockTimeRemaining t (clock (S (ticks w)))))%string,
              advance 2 w))
  \/ (exists u,
        accountByEmail mail w = Some u
        /\ lockedAt (clock (ticks w)) u = false
        /\ bcrypt_compare plain (password u) = false
        /\ login mail plain w = (Thrown invalidCredentials, afterFailedLogin u w))
  \/ (exists u,
        accountByEmail mail w = Some u
        /\ lockedAt (clock (ticks w)) u = false
        /\ bcrypt_compare plain (password u) = true
        /\ login mail plain w
           = (Returned (mkAuthResult true (publicFields u)
                          (tokensIssuedAt (lockCheckReads u + ticks w) u) None),
              setUsers (writeRow (id u) (lockoutPatch 0 None) (users w))
                       (advance (2 + lockCheckReads u) w))).
Proof.
  destruct (accountByEmail mail w) as [u|] eqn:Hacc.
  - right. destruct (lockedAt (clock (ticks w)) u) eqn:Hl.
    + left. unfold lockedAt in Hl. destruct (lockUntil u) as [t|] eqn:Ht; [|discriminate].
      apply Z.ltb_lt in Hl. exists u, t. repeat split; auto.
      apply (login_locked mail plain w u t); assumption.
    + right. destruct (bcrypt_compare plain (password u)) eqn:Hpw.
      * right. exists u. repeat split; auto. apply login_correct_password; assumption.
      * left. exists u. repeat split; auto. apply login_wrong_password; assumption.
  - left. split; [reflexivity|]. apply login_unknown_email; assumption.
Qed.

Lemma find_map_preserved {A : Type} (P : A -> bool) (f : A -> A) (l : list A) :
  (forall x, P (f x) = P x) ->
  find P (map f l) = option_map f (find P l).
Proof.
  intros H. induction l as [|a l IH]; cbn; [reflexivity|].
  rewrite H. destruct (P a); [reflexivity | exact IH].
Qed.

Lemma accountById_writeRow (k key : Z) (p : Patch) (w w0 : World) :
  accountById k (setUsers (writeRow key p (users w)) w0)
  = option_map (fun r => if id r =? key then applyPatch p r else r) (accountById k w).
Proof.
  unfold accountById, setUsers, writeRow. cbn [users].
  apply find_map_preserved. intros r. destruct (id r =? key); reflexivity.
Qed.

Lemma map_writeRow_invariant {B : Type} (f : User -> B) (key : Z) (p : Patch)
    (rows : list User) :
  (forall r, f (applyPatch p r) = f r) ->
  map f (writeRow key p rows) = map f rows.
Proof.
  intros H. unfold writeRow. rewrite map_map. apply map_ext.
  intros r. destruct (id r =? key); auto.
Qed.

(** X3. Whatever the outcome of a [login], the table afterwards differs
    from the table before in the two lockout columns at most: no row is
    added or removed, and no password, verification or reset column and
    no identity column is written. *)
Theorem login_touches_lockout_columns_only (mail plain : string) (w : World) :
  map withoutLockout (users (snd (login mail plain w)))
  = map withoutLockout (users w).
Proof.
  destruct (login_cases mail plain w)
    as [[_ E] | [(u & t & _ & _ & _ & E) | [(u & _ & _ & _ & E) | (u & _ & _ & _ & E)]]];
    rewrite E; cbn [snd]; try reflexivity.
  - unfold afterFailedLogin.
    destruct (failedLoginAttempts u + 1 >=? maxAttempts); cbn [setUsers users];
      apply map_writeRow_invariant; reflexivity.
  - cbn [setUsers users]. apply map_writeRow_invariant. reflexivity.
Qed.

(** *** Token refresh *)

Lemma refreshToken_decoded (token : string) (w : World) (c : Claims) (u : User) :
  jwt_verify token jwtSecret (clock (ticks w)) = Decoded c ->
  accountById (claimsId c) w = Some u ->
  refreshToken_ token w
  = (Returned (mkRefreshResult true (tokensIssuedAt (S (ticks w)) u)), advance 3 w).
Proof.
  intros Hv Hacc. unfold refreshToken_. run_service. rewrite Hv. cbn.
  rewrite Hacc. reflexivity.
Qed.

Lemma accountById_some (k : Z) (w : World) :
  (exists r, In r (users w) /\ id r = k) ->
  exists u, accountById k w = Some u /\ id u = k.
Proof.
  intros (r & Hr & Hk). unfold accountById.
  destruct (find (fun r => id r =? k) (users w)) as [u|] eqn:E.
  - exists u. split; [reflexivity|]. apply find_some in E. apply Z.eqb_eq, E.
  - rewrite find_none_iff in E. specialize (E r Hr). apply Z.eqb_neq in E. contradiction.
Qed.

Lemma accountByEmail_in (mail : string) (w : World) (u : User) :
  accountByEmail mail w = Some u -> In u (users w).
Proof. intros H. apply find_some in H. apply H. Qed.

(** X4. After a successful [login], [refreshToken] succeeds for every
    token that [jwt.verify] decodes to claims carrying the account's id,
    access-token claims as much as refresh-token claims: the kind of the
    token is not checked.  It signs a new pair for a row with that id and
    leaves the table as it is. *)
Theorem refreshToken_after_login (mail plain token : string) (w w1 : World)
    (res : AuthResult) (c : Claims) :
  login mail plain w = (Returned res, w1) ->
  jwt_verify token jwtSecret (clock (ticks w1)) = Decoded c ->
  claimsId c = pu_id (ar_user res) ->
  exists u,
    id u = pu_id (ar_user res)
    /\ refreshToken_ token w1
       = (Returned (mkRefreshResult true (tokensIssuedAt (S (ticks w1)) u)),
          advance 3 w1).
Proof.
  intros Hlogin Hv Hc.
  destruct (login_cases mail plain w)
    as [[_ E] | [(u & t & _ & _ & _ & E) | [(u & _ & _ & _ & E) | (u & Hacc & _ & _ & E)]]];
    rewrite E in Hlogin; try discriminate Hlogin.
  injection Hlogin as <- <-. cbn [ar_user publicFields pu_id] in *.
  destruct (accountById_some (id u)
              (setUsers (writeRow (id u) (lockoutPatch 0 None) (users w))
                        (advance (2 + lockCheckReads u) w)))
    as (u2 & Hu2 & Hid).
  { exists (applyPatch (lockoutPatch 0 None) u). split; [|reflexivity].
    cbn [setUsers users]. unfold writeRow. apply in_map_iff. exists u.
    rewrite Z.eqb_refl. split; [reflexivity|].
    exact (accountByEmail_in mail w u Hacc). }
  exists u2. split; [exact Hid|].
  apply (refreshToken_decoded token _ c u2); [exact Hv|]. rewrite Hc. exact Hu2.
Qed.

Lemma refreshToken_after_write (token : string) (w w1 : World) (key : Z) (p : Patch)
    (c : Claims) (u : User) :
  users w1 = writeRow key p (users w) ->
  accountById (claimsId c) w = Some u ->
  jwt_verify token jwtSecret (clock (ticks w1)) = Decoded c ->
  exists u1,
    id u1 = id u
    /\ refreshToken_ token w1
       = (Returned (mkRefreshResult true (tokensIssuedAt (S (ticks w1)) u1)),
          advance 3 w1).
Proof.
  intros Hw Hacc Hv.
  pose proof (accountById_writeRow (claimsId c) key p w w) as E.
  rewrite Hacc in E. cbn [option_map] in E.
  eexists. split; [|apply (refreshToken_decoded token w1 c); [exact Hv|]].
  2:{ unfold accountById in *. rewrite Hw. exact E. }
  destruct (id u =? key); reflexivity.
Qed.

Lemma changePassword_returned (userId : Z) (current new : string) (w w1 : World)
    (m : MessageResult) :
  changePassword userId current new w = (Returned m, w1) ->
  exists u,
    accountById userId w = Some u
    /\ bcrypt_compare current (password u) = true
    /\ users w1 = writeRow (id u) (passwordChanged (bcrypt_hash new 12 (draws w)))
                           (users w).
Proof.
  intros H. destruct (accountById userId w) as [u|] eqn:Hacc.
  - destruct (bcrypt_compare current (password u)) eqn:Hpw.
    + rewrite (changePassword_right _ _ _ _ _ Hacc Hpw) in H.
      injection H as _ <-. exists u. auto.
    + rewrite (changePassword_wrong _ _ _ _ _ Hacc Hpw) in H. discriminate H.
  - rewrite (changePassword_unknown _ _ _ _ Hacc) in H. discriminate H.
Qed.

Lemma resetPassword_returned (token new : string) (w w1 : World) (m : MessageResult) :
  resetPassword token new w = (Returned m, w1) ->
  exists u,
    accountByResetToken token (clock (ticks w)) w = Some u
    /\ w1 = setUsers (writeRow (id u) (resetDone (bcrypt_hash new 12 (draws w)))
                               (users w))
                     (mkWorld (users w) (nextId w) (S (ticks w)) (S (draws w))).
Proof.
  intros H.
  destruct (accountByResetToken token (clock (ticks w)) w) as [u|] eqn:E.
  - rewrite (resetPassword_found _ _ _ _ E) in H. injection H as _ <-.
    exists u. auto.
  - rewrite (resetPassword_dead _ _ _ E) in H. discriminate H.
Qed.

(** X5. Changing or resetting the password revokes nothing: a token that
    [jwt.verify] still decodes to claims with the id of an account keeps
    refreshing after that account's, or any other account's, password has
    been changed with [changePassword] or reset with [resetPassword]. *)
Theorem refreshToken_survives_password_change (token : string) (c : Claims)
    (u : User) (w w1 : World) (m : MessageResult) :
  accountById (claimsId c) w = Some u ->
  jwt_verify token jwtSecret (clock (ticks w1)) = Decoded c ->
  ((exists userId current new, changePassword userId current new w = (Returned m, w1))
   \/ (exists resetToken new, resetPassword resetToken new w = (Returned m, w1))) ->
  exists u1,
    id u1 = id u
    /\ refreshToken_ token w1
       = (Returned (mkRefreshResult true (tokensIssuedAt (S (ticks w1)) u1)),
          advance 3 w1).
Proof.
  intros Hacc Hv [(userId & current & new & H) | (resetToken & new & H)].
  - destruct (changePassword_returned _ _ _ _ _ _ H) as (u0 & _ & _ & Hw).
    exact (refreshToken_after_write token w w1 _ _ c u Hw Hacc Hv).
  - destruct (resetPassword_returned _ _ _ _ _ H) as (u0 & _ & ->).
    refine (refreshToken_after_write token w _ _ _ c u _ Hacc Hv). reflexivity.
Qed.

(** *** Statistics *)

Lemma filter_length_split {A : Type} (P : A -> bool) (l : list A) :
  (List.length (filter P l) + List.length (filter (fun x => negb (P x)) l))%nat
  = List.length l.
Proof.
  induction l as [|a l IH]; cbn; [reflexivity|].
  destruct (P a); cbn; lia.
Qed.

Lemma filter_all_true {A : Type} (l : list A) : filter (fun _ => true) l = l.
Proof. induction l as [|a l IH]; cbn; [reflexivity | rewrite IH; reflexivity]. Qed.

(** X6. [getUserStats] reads the clock once and writes nothing.  Its
    counts fit together: verified and unverified users add up to the
    total, [unverifiedUsers] is the number of rows that are not verified,
    and [lockedUsers], the rows whose [lockUntil] is strictly after the
    time read, lies between 0 and the total. *)
Theorem getUserStats_consistent (w : World) :
  exists s,
    getUserStats w = (Returned s, advance 1 w)
    /\ totalUsers s = Z.of_nat (List.length (users w))
    /\ verifiedUsers s + unverifiedUsers s = totalUsers s
    /\ unverifiedUsers s
       = Z.of_nat (List.length (filter (fun r => negb (isVerified r)) (users w)))
    /\ lockedUsers s
       = Z.of_nat (List.length (filter (lockedAt (clock (ticks w))) (users w)))
    /\ 0 <= lockedUsers s <= totalUsers s.
Proof.
  eexists. split; [unfold getUserStats; run_service; reflexivity|].
  cbn [totalUsers verifiedUsers unverifiedUsers lockedUsers].
  pose proof (filter_length_split isVerified (users w)) as Hv.
  pose proof (filter_length (lockedAfter (clock (ticks w))) (users w)) as Hl.
  rewrite (filter_all_true (users w)). repeat split; try lia.
Qed.

(** *** Registration, and the table constraints *)

Lemma existsb_false_iff {A : Type} (P : A -> bool) (l : list A) :
  existsb P l = false <-> (forall x, In x l -> P x = false).
Proof.
  split.
  - intros H x Hx. destruct (P x) eqn:E; [|reflexivity].
    rewrite <- H. symmetry. apply existsb_exists. eauto.
  - intros H. destruct (existsb P l) eqn:E; [|reflexivity].
    apply existsb_exists in E. destruct E as (x & Hx & HP).
    rewrite (H x Hx) in HP. discriminate.
Qed.

Lemma register_fresh (uname mail plain wallet : string) (w : World) :
  (forall r, In r (users w) -> email r <> mail /\ username r <> uname) ->
  fitsVarchar uname && fitsVarchar mail = true ->
  register uname mail plain wallet w
  = (Returned (mkAuthResult true
                 (publicFields (newAccount uname mail plain w))
                 (tokensIssuedAt (ticks w) (newAccount uname mail plain w))
                 (verificationToken (newAccount uname mail plain w))),
     mkWorld (users w ++ [newAccount uname mail plain w])
             (nextId w + 1) (S (S (ticks w))) (S (S (draws w)))).
Proof.
  intros Hfree Hfit.
  assert (E1 : find (fun r => (email r =? mail)%string || (username r =? uname)%string)
                    (users w) = None).
  { apply find_none_iff. intros r Hr. destruct (Hfree r Hr) as [H1 H2].
    apply orb_false_iff. split; apply String.eqb_neq; assumption. }
  assert (E2 : existsb (fun r => (username r =? uname)%string || (email r =? mail)%string)
                       (users w) = false).
  { apply existsb_false_iff. intros r Hr. destruct (Hfree r Hr) as [H1 H2].
    apply orb_false_iff. split; apply String.eqb_neq; assumption. }
  unfold register, User_create. run_service. rewrite E1. cbn.
  rewrite Hfit. cbn [negb]. rewrite E2. reflexivity.
Qed.

Lemma register_too_long (uname mail plain wallet : string) (w : World) :
  (forall r, In r (users w) -> email r <> mail /\ username r <> uname) ->
  fitsVarchar uname && fitsVarchar mail = false ->
  register uname mail plain wallet w
  = (Thrown "Registration failed: value too long for type character varying(255)",
     mkWorld (users w) (nextId w) (ticks w) (S (S (draws w)))).
Proof.
  intros Hfree Hfit.
  assert (E1 : find (fun r => (email r =? mail)%string || (username r =? uname)%string)
                    (users w) = None).
  { apply find_none_iff. intros r Hr. destruct (Hfree r Hr) as [H1 H2].
    apply orb_false_iff. split; apply String.eqb_neq; assumption. }
  unfold register, User_create. run_service. rewrite E1. cbn.
  rewrite Hfit. reflexivity.
Qed.

Lemma register_cases (uname mail plain wallet : string) (w : World) :
  ((exists r, In r (users w) /\ (email r = mail \/ username r = uname))
   /\ register uname mail plain wallet w = (Thrown conflictError, w))
  \/ ((forall r, In r (users w) -> email r <> mail /\ username r <> uname)
      /\ fitsVarchar uname && fitsVarchar mail = false
      /\ register uname mail plain wallet w
         = (Thrown "Registration failed: value too long for type character varying(255)",
            mkWorld (users w) (nextId w) (ticks w) (S (S (draws w)))))
  \/ ((forall r, In r (users w) -> email r <> mail /\ username r <> uname)
      /\ fitsVarchar uname && fitsVarchar mail = true
      /\ register uname mail plain wallet w
         = (Returned (mkAuthResult true
                        (publicFields (newAccount uname mail plain w))
                        (tokensIssuedAt (ticks w) (newAccount uname mail plain w))
                        (verificationToken (newAccount uname mail plain w))),
            mkWorld (users w ++ [newAccount uname mail plain w])
                    (nextId w + 1) (S (S (ticks w))) (S (S (draws w))))).
Proof.
  destruct (existsb (fun r => (email r =? mail)%string || (username r =? uname)%string)
                    (users w)) eqn:E.
  - left. apply existsb_exists in E. destruct E as (r & Hr & HP).
    apply orb_true_iff in HP. rewrite !String.eqb_eq in HP.
    split; [eauto|]. apply register_conflict. eauto.
  - right. rewrite existsb_false_iff in E.
    assert (Hfree : forall r, In r (users w) -> email r <> mail /\ username r <> uname).
    { intros r Hr. specialize (E r Hr). apply orb_false_iff in E.
      rewrite !String.eqb_neq in E. exact E. }
    destruct (fitsVarchar uname && fitsVarchar mail) eqn:Hfit.
    + right. split; [exact Hfree|]. split; [reflexivity|].
      apply register_fresh; assumption.
    + left. split; [exact Hfree|]. split; [reflexivity|].
      apply register_too_long; assumption.
Qed.

(** X7. [register] keeps the table constraints: if ids are unique and
    below the auto-increment counter and usernames and email addresses
    are unique before the call, they are so after it, whether it succeeds
    or fails. *)
Theorem register_keeps_table_well_formed (uname mail plain wallet : string) (w : World) :
  wellFormed w ->
  wellFormed (snd (register uname mail plain wallet w)).
Proof.
  intros (Hid & Hname & Hmail & Hlt).
  destruct (register_cases uname mail plain wallet w)
    as [[_ E] | [(_ & _ & E) | (Hfree & _ & E)]];
    rewrite E; cbn [snd]; [repeat split; assumption | repeat split; assumption |].
  unfold wellFormed. cbn [users nextId]. rewrite !map_app. cbn [map].
  rewrite Forall_forall in Hlt.
  repeat split.
  - apply NoDup_app; [assumption | repeat constructor; intros [] |].
    intros a Ha [<- | []]. apply in_map_iff in Ha. destruct Ha as (r & Hr & Hin).
    specialize (Hlt r Hin). cbn in Hr. lia.
  - apply NoDup_app; [assumption | repeat constructor; intros [] |].
    intros a Ha [<- | []]. apply in_map_iff in Ha. destruct Ha as (r & Hr & Hin).
    apply (proj2 (Hfree r Hin)). exact Hr.
  - apply NoDup_app; [assumption | repeat constructor; intros [] |].
    intros a Ha [<- | []]. apply in_map_iff in Ha. destruct Ha as (r & Hr & Hin).
    apply (proj1 (Hfree r Hin)). exact Hr.
  - apply Forall_app. split.
    + apply Forall_forall. intros r Hr. specialize (Hlt r Hr). lia.
    + repeat constructor. cbn. lia.
Qed.


(** *** Profile updates and the table constraints *)

Lemma writeRow_absent (key : Z) (p : Patch) (rows : list User) :
  ~ In key (map id rows) -> writeRow key p rows = rows.
Proof.
  intros H. apply writeRow_noop. intros r Hr Hid. elim H.
  apply in_map_iff. eauto.
Qed.

Lemma In_map_writeRow (f : User -> string) (key : Z) (p : Patch) (rows : list User)
    (x : string) :
  In x (map f (writeRow key p rows)) ->
  exists r, In r rows
            /\ ((id r = key /\ x = f (applyPatch p r)) \/ (id r <> key /\ x = f r)).
Proof.
  intros H. apply in_map_iff in H. destruct H as (r' & <- & Hr').
  apply In_writeRow in Hr'. destruct Hr' as (r & Hr & [[Hk ->] | [Hk ->]]); eauto.
Qed.

Lemma NoDup_map_writeRow (f : User -> string) (new : option string) (key : Z)
    (p : Patch) (rows : list User) :
  (forall r, f (applyPatch p r) = orElse new (f r)) ->
  takenByOther key new f rows = false ->
  NoDup (map id rows) ->
  NoDup (map f rows) ->
  NoDup (map f (writeRow key p rows)).
Proof.
  intros Hf. induction rows as [|a rows IH]; cbn [map writeRow]; intros Htaken Hid Hnd;
    [constructor|].
  inversion Hid as [|? ? Hnotin Hid']; subst. inversion Hnd as [|? ? Hfresh Hnd']; subst.
  assert (Htaken' : takenByOther key new f rows = false).
  { destruct new as [v|]; [|reflexivity]. cbn in *.
    apply orb_false_iff in Htaken. apply Htaken. }
  fold (writeRow key p rows).
  destruct (Z.eqb_spec (id a) key) as [Hk | Hk].
  - subst key. rewrite (writeRow_absent _ _ _ Hnotin). constructor; [|exact Hnd'].
    rewrite Hf. destruct new as [v|]; cbn [orElse]; [|exact Hfresh].
    intros Hin. apply in_map_iff in Hin. destruct Hin as (r & Hr & Hin).
    cbn in Htaken'. rewrite existsb_false_iff in Htaken'. specialize (Htaken' r Hin).
    apply andb_false_iff in Htaken'. destruct Htaken' as [H | H].
    + apply negb_false_iff, Z.eqb_eq in H. apply Hnotin. rewrite <- H.
      apply in_map. exact Hin.
    + apply String.eqb_neq in H. contradiction.
  - constructor; [|apply IH; assumption].
    intros Hin. apply In_map_writeRow in Hin.
    destruct Hin as (r & Hr & [[Hrk E] | [Hrk E]]).
    + rewrite Hf in E. destruct new as [v|]; cbn [orElse] in E.
      * cbn in Htaken. apply orb_false_iff in Htaken. destruct Htaken as [Ha _].
        apply andb_false_iff in Ha. destruct Ha as [Ha | Ha].
        -- apply negb_false_iff, Z.eqb_eq in Ha. contradiction.
        -- apply String.eqb_neq in Ha. congruence.
      * apply Hfresh. rewrite E. apply in_map. exact Hr.
    + apply Hfresh. rewrite E. apply in_map. exact Hr.
Qed.

Lemma updateProfile_writes (userId : Z) (d : Patch) (w : World) :
  snd (updateProfile userId d w) = w
  \/ (violatesUnique userId d (users w) = false
      /\ snd (updateProfile userId d w) = setUsers (writeRow userId d (users w)) w).
Proof.
  unfold updateProfile, user_updateWith.
  destruct (columnError d) as [msg|]; run_service;
    (destruct (find (fun r => id r =? userId) (users w)) as [u|] eqn:Hacc;
     [|left; reflexivity]).
  { destruct (truthyKey (p_username d) || truthyKey (p_email d));
      [destruct (find (collidesWith userId d) (users w))|]; left; reflexivity. }
  apply find_some in Hacc. destruct Hacc as [_ Hid]. apply Z.eqb_eq in Hid. subst userId.
  destruct (truthyKey (p_username d) || truthyKey (p_email d));
    [destruct (find (collidesWith (id u) d) (users w)); [left; reflexivity|]|];
    (destruct (takenByOther (id u) (p_username d) username (users w)
               || takenByOther (id u) (p_email d) email (users w)) eqn:E;
     [left | right; split]; try reflexivity;
     cbv beta iota zeta delta [takenByOther] in E |- *; rewrite E; reflexivity).
Qed.

(** X9. [updateProfile] keeps the table constraints: unique ids below the
    counter, unique usernames and unique email addresses before the call
    are so after it, whatever the update contains and whether it succeeds
    or fails. *)
Theorem updateProfile_keeps_table_well_formed (userId : Z) (updateData : Patch)
    (w : World) :
  wellFormed w ->
  wellFormed (snd (updateProfile userId updateData w)).
Proof.
  intros (Hid & Hname & Hmail & Hlt).
  destruct (updateProfile_writes userId updateData w) as [-> | [Hok ->]];
    [repeat split; assumption|].
  unfold violatesUnique in Hok. apply orb_false_iff in Hok. destruct Hok as [Hn He].
  unfold wellFormed. cbn [setUsers users nextId]. repeat split.
  - rewrite map_writeRow_invariant by reflexivity. exact Hid.
  - apply (NoDup_map_writeRow username (p_username updateData)); auto.
  - apply (NoDup_map_writeRow email (p_email updateData)); auto.
  - apply Forall_forall. intros r Hr. apply In_writeRow in Hr.
    rewrite Forall_forall in Hlt.
    destruct Hr as (r0 & Hr0 & [[_ ->] | [_ ->]]); apply (Hlt r0 Hr0).
Qed.

(** X10. No method but [register] adds or removes a row, and none but
    [updateProfile] writes an identity column: after [login],
    [verifyEmail], [requestPasswordReset], [resetPassword] and
    [changePassword], whatever their outcome, every row has the id,
    username and email address it had, in the same order, and the
    auto-increment counter is where it was. *)
Theorem identity_columns_are_stable (w : World) :
  (forall mail plain,
     map identityOf (users (snd (login mail plain w))) = map identityOf (users w)
     /\ nextId (snd (login mail plain w)) = nextId w)
  /\ (forall token,
        map identityOf (users (snd (verifyEmail token w))) = map identityOf (users w)
        /\ nextId (snd (verifyEmail token w)) = nextId w)
  /\ (forall mail,
        map identityOf (users (snd (requestPasswordReset mail w)))
        = map identityOf (users w)
        /\ nextId (snd (requestPasswordReset mail w)) = nextId w)
  /\ (forall token new,
        map identityOf (users (snd (resetPassword token new w)))
        = map identityOf (users w)
        /\ nextId (snd (resetPassword token new w)) = nextId w)
  /\ (forall userId current new,
        map identityOf (users (snd (changePassword userId current new w)))
        = map identityOf (users w)
        /\ nextId (snd (changePassword userId current new w)) = nextId w).
Proof.
  split; [|split; [|split; [|split]]].
  - intros mail plain.
    destruct (login_cases mail plain w)
      as [[_ E] | [(u & t & _ & _ & _ & E) | [(u & _ & _ & _ & E) | (u & _ & _ & _ & E)]]];
      rewrite E; cbn [snd]; try (split; reflexivity).
    + unfold afterFailedLogin.
      destruct (failedLoginAttempts u + 1 >=? maxAttempts); cbn [setUsers users nextId advance];
        (split; [apply map_writeRow_invariant; reflexivity | reflexivity]).
    + cbn [setUsers users nextId advance].
      split; [apply map_writeRow_invariant; reflexivity | reflexivity].
  - intros token. destruct (accountByToken token w) as [u|] eqn:E.
    + rewrite (verifyEmail_found token w u E).
      destruct (isVerified u); cbn [snd setUsers users nextId]; [split; reflexivity|].
      split; [apply map_writeRow_invariant; reflexivity | reflexivity].
    + rewrite (verifyEmail_unknown token w E). split; reflexivity.
  - intros mail. unfold requestPasswordReset. run_service.
    destruct (find _ (users w)) as [u|]; cbn [snd users nextId]; [|split; reflexivity].
    split; [apply map_writeRow_invariant; reflexivity | reflexivity].
  - intros token new.
    destruct (accountByResetToken token (clock (ticks w)) w) as [u|] eqn:E.
    + rewrite (resetPassword_found token new w u E). cbn [snd setUsers users nextId].
      split; [apply map_writeRow_invariant; reflexivity | reflexivity].
    + rewrite (resetPassword_dead token new w E). split; reflexivity.
  - intros userId current new. unfold changePassword. run_service.
    destruct (find _ (users w)) as [u|]; cbn [snd users nextId]; [|split; reflexivity].
    destruct (bcrypt_compare current (password u)); cbn [negb snd users nextId];
      [|split; reflexivity].
    split; [apply map_writeRow_invariant; reflexivity | reflexivity].
Qed.

(** *** The password reset flow *)

Lemma requestPasswordReset_found (mail : string) (w : World) (u : User) :
  accountByEmail mail w = Some u ->
  requestPasswordReset mail w
  = (Returned (mkMessageResult true resetRequested (Some (randomHex 32 (draws w)))),
     setUsers (writeRow (id u)
                 (resetIssued (randomHex 32 (draws w)) (clock (ticks w) + 3600000))
                 (users w))
              (mkWorld (users w) (nextId w) (S (ticks w)) (S (draws w)))).
Proof.
  intros H. unfold requestPasswordReset. run_service. rewrite H. reflexivity.
Qed.

Lemma issued_token_holders (tok : string) (expires : Z) (u : User) (rows : list User)
    (r : User) :
  (forall r0, In r0 rows -> id r0 <> id u -> resetPasswordToken r0 <> Some tok) ->
  In r (writeRow (id u) (resetIssued tok expires) rows) ->
  resetPasswordToken r = Some tok ->
  id r = id u /\ resetPasswordExpires r = Some expires.
Proof.
  intros Hother Hr Htok. apply In_writeRow in Hr.
  destruct Hr as (r0 & Hr0 & [[Hk ->] | [Hk ->]]).
  - split; [exact Hk | reflexivity].
  - elim (Hother r0 Hr0 Hk Htok).
Qed.

(** X11. The reset flow end to end.  When the token drawn by
    [requestPasswordReset] is not already stored by another account, a
    [resetPassword] with that token whose clock read is before the expiry
    (one hour after the request's read) succeeds; a second
    [resetPassword] with the same token then fails; and the account can
    log in with the new password, locked before or not, provided [bcrypt]
    accepts it against the hash made of it. *)
Theorem reset_flow_in_time (mail new again : string) (w : World) (u : User) :
  accountByEmail mail w = Some u ->
  (forall r, In r (users w) -> id r <> id u ->
     resetPasswordToken r <> Some (randomHex 32 (draws w))) ->
  clock (S (ticks w)) < clock (ticks w) + 60 * 60 * 1000 ->
  exists w1 w2,
    requestPasswordReset mail w
    = (Returned (mkMessageResult true resetRequested (Some (randomHex 32 (draws w)))),
       w1)
    /\ resetPassword (randomHex 32 (draws w)) new w1
       = (Returned (mkMessageResult true "Password reset successfully" None), w2)
    /\ resetPassword (randomHex 32 (draws w)) again w2
       = (Thrown "Password reset failed: Invalid or expired reset token", advance 1 w2)
    /\ (bcrypt_compare new (bcrypt_hash new 12 (S (draws w))) = true ->
        exists issued w3,
          login mail new w2
          = (Returned (mkAuthResult true (publicFields u) (tokensIssuedAt issued u) None),
             w3)).
Proof.
  intros Hacc Hother Hlt.
  set (tok := randomHex 32 (draws w)) in *.
  set (expires := clock (ticks w) + 3600000).
  set (w1 := setUsers (writeRow (id u) (resetIssued tok expires) (users w))
                      (mkWorld (users w) (nextId w) (S (ticks w)) (S (draws w)))).
  assert (Hacc1 : accountByEmail mail w1 = Some (applyPatch (resetIssued tok expires) u))
    by (apply accountByEmail_writeRow; auto).
  destruct (accountByResetToken tok (clock (ticks w1)) w1) as [u1|] eqn:Hfind.
  2:{ exfalso. apply accountByResetToken_none in Hfind. apply Hfind.
      exists (applyPatch (resetIssued tok expires) u), expires.
      split; [exact (accountByEmail_in _ _ _ Hacc1)|].
      split; [reflexivity|]. split; [reflexivity|].
      unfold expires. cbn [w1 setUsers ticks]. lia. }
  assert (Hid1 : id u1 = id u).
  { destruct (accountByResetToken_some _ _ _ _ Hfind) as (Hin & Htok & _).
    apply (issued_token_holders tok expires u (users w) u1 Hother Hin Htok). }
  set (hashed := bcrypt_hash new 12 (draws w1)).
  set (w2 := setUsers (writeRow (id u) (resetDone hashed) (users w1))
                      (mkWorld (users w1) (nextId w1) (S (ticks w1)) (S (draws w1)))).
  exists w1, w2. split; [apply requestPasswordReset_found; exact Hacc|].
  split; [rewrite (resetPassword_found tok new w1 u1 Hfind), Hid1; reflexivity|].
  split.
  - apply resetPassword_dead, accountByResetToken_none.
    intros (r & e & Hr & Htok & _).
    cbn [w2 setUsers users] in Hr. apply In_writeRow in Hr.
    destruct Hr as (r0 & Hr0 & [[Hk ->] | [Hk ->]]); [discriminate Htok|].
    elim Hk. apply (issued_token_holders tok expires u (users w) r0 Hother Hr0 Htok).
  - intros Hlaw.
    assert (Hacc2 : accountByEmail mail w2
                    = Some (applyPatch (resetDone hashed)
                              (applyPatch (resetIssued tok expires) u)))
      by (apply (accountByEmail_writeRow mail w1 _ _ (resetDone hashed) eq_refl Hacc1)).
    eexists _, _.
    rewrite (login_correct_password mail new w2 _ Hacc2);
      [reflexivity | reflexivity | exact Hlaw].
Qed.

(** X12. The same flow too late.  When the token drawn by
    [requestPasswordReset] is not stored by another account, a
    [resetPassword] with it whose clock read is at or after the expiry
    fails with the invalid-or-expired error and leaves the table as the
    request left it. *)
Theorem reset_flow_too_late (mail new : string) (w : World) (u : User) :
  accountByEmail mail w = Some u ->
  (forall r, In r (users w) -> id r <> id u ->
     resetPasswordToken r <> Some (randomHex 32 (draws w))) ->
  clock (ticks w) + 60 * 60 * 1000 <= clock (S (ticks w)) ->
  exists w1,
    requestPasswordReset mail w
    = (Returned (mkMessageResult true resetRequested (Some (randomHex 32 (draws w)))),
       w1)
    /\ resetPassword (randomHex 32 (draws w)) new w1
       = (Thrown "Password reset failed: Invalid or expired reset token", advance 1 w1).
Proof.
  intros Hacc Hother Hlate.
  eexists. split; [apply requestPasswordReset_found; exact Hacc|].
  apply resetPassword_dead, accountByResetToken_none.
  intros (r & e & Hr & Htok & He & Hlt).
  cbn [setUsers users ticks] in *.
  destruct (issued_token_holders _ _ u (users w) r Hother Hr Htok) as [_ He'].
  rewrite He' in He. injection He as <-. lia.
Qed.

(** *** The authentication middleware *)

Lemma split_spaceFree (s : string) :
  spaceFree s = true -> split " "%char s = [s].
Proof.
  induction s as [|c s IH]; cbn; [reflexivity|].
  destruct (Ascii.eqb c " "%char); cbn; [discriminate|].
  intros H. rewrite (IH H). reflexivity.
Qed.

Lemma split_word (a b : string) :
  spaceFree a = true ->
  split " "%char (a ++ String " "%char b) = a :: split " "%char b.
Proof.
  induction a as [|c a IH]; cbn; [reflexivity|].
  destruct (Ascii.eqb c " "%char); cbn; [discriminate|].
  intros H. rewrite (IH H). reflexivity.
Qed.

Lemma append_empty_r_local (s : string) : (s ++ "")%string = s.
Proof. induction s as [|c s IH]; cbn; [reflexivity | rewrite IH; reflexivity]. Qed.

Lemma bearer_token (token rest : string) :
  spaceFree token = true ->
  rest = "" \/ (exists junk, rest = String " "%char junk) ->
  nth_error (split " "%char ("Bearer " ++ token ++ rest)) 1 = Some token.
Proof.
  intros Hfree Hrest.
  change ("Bearer " ++ token ++ rest)%string
    with ("Bearer" ++ String " "%char (token ++ rest))%string.
  rewrite split_word by reflexivity. cbn [nth_error].
  destruct Hrest as [-> | (junk & ->)].
  - rewrite append_empty_r_local. rewrite split_spaceFree by assumption. reflexivity.
  - rewrite split_word by assumption. reflexivity.
Qed.

Lemma bearer_prefix (s : string) : String.prefix "Bearer " ("Bearer " ++ s) = true.
Proof. cbn. destruct s; reflexivity. Qed.

(** X13. [authenticate] takes as token the text between the first and
    the second space of the header: for a token without spaces, whatever
    follows it after a space is ignored, and a header that is just
    ["Bearer "], or has a second space right after it, is answered 401
    "Invalid token format." without the service being called. *)
Theorem authenticate_uses_second_word (token junk : string) (w : World) :
  spaceFree token = true ->
  authenticate (Some ("Bearer " ++ token ++ String " "%char junk)%string) w
  = authenticate (Some ("Bearer " ++ token)%string) w
  /\ (token = "" ->
      authenticate (Some ("Bearer " ++ token)%string) w
      = (Respond (mkResponse 401 (Denied "Invalid token format.")), w)).
Proof.
  intros Hfree.
  pose proof (bearer_token token (String " "%char junk) Hfree (or_intror (ex_intro _ junk eq_refl)))
    as H1.
  pose proof (bearer_token token "" Hfree (or_introl eq_refl)) as H2.
  rewrite append_empty_r_local in H2.
  split.
  - unfold authenticate. cbn [truthyKey text orElse].
    rewrite H1, H2, !bearer_prefix. reflexivity.
  - intros ->. reflexivity.
Qed.

Lemma verifyToken_cases (token : string) (w : World) :
  (exists msg, verifyToken token w = (Thrown msg, advance 1 w))
  \/ (exists u, In u (users w)
                /\ verifyToken token w
                   = (Returned (mkProfileResult true (publicFields u)), advance 1 w)).
Proof.
  unfold verifyToken. run_service.
  destruct (jwt_verify token jwtSecret (clock (ticks w))) as [c | msg];
    [|left; eexists; reflexivity].
  cbn. destruct (find (fun r => id r =? claimsId c) (users w)) as [u|] eqn:E.
  - right. exists u. split; [apply (find_some _ _ E) | reflexivity].
  - left. eexists. reflexivity.
Qed.

(** X14. [authenticate] never writes to the table and, when it does not
    hand the request on, always answers 401.  When it hands the request
    on, [req.user] holds the public fields of a row of the table.  Its
    answer "Token verification failed." is never sent. *)
Theorem authenticate_passes_or_401 (authorization : option string) (w : World) :
  users (snd (authenticate authorization w)) = users w
  /\ match fst (authenticate authorization w) with
     | Next reqUser => exists u, In u (users w) /\ reqUser = publicFields u
     | Respond r =>
         status r = 401 /\ body r <> Denied "Token verification failed."
     end.
Proof.
  unfold authenticate.
  destruct (negb (truthyKey authorization)
            || negb (String.prefix "Bearer " (text authorization)));
    [cbn; repeat split; discriminate|].
  destruct (negb (truthyKey (nth_error (split " "%char (text authorization)) 1)));
    [cbn; repeat split; discriminate|].
  destruct (verifyToken_cases (text (nth_error (split " "%char (text authorization)) 1)) w)
    as [(msg & E) | (u & Hu & E)]; rewrite E; cbn.
  - repeat split. discriminate.
  - split; [reflexivity|]. exists u. auto.
Qed.

(** *** The controller *)

(** X15. Through the controller, a profile update writes the username
    and the email address at most (the wallet address it hands on names
    no column): whatever the request, the password hash, the verification
    state, the lockout columns and the reset columns of every row are
    what they were. *)
Theorem exports_updateProfile_spares_credentials (reqUser : option PublicUser)
    (username_ email_ walletAddress_ : option string) (w : World) :
  map credentialsOf
      (users (snd (exports_updateProfile reqUser username_ email_ walletAddress_ w)))
  = map credentialsOf (users w).
Proof.
  unfold exports_updateProfile. cbv zeta.
  destruct (negb (truthyId (option_map pu_id reqUser))); [reflexivity|].
  destruct (negb (truthyKey username_) && negb (truthyKey email_)
            && negb (truthyKey walletAddress_)); [reflexivity|].
  set (userId := orElse (option_map pu_id reqUser) 0).
  set (d := profileUpdate username_ email_ walletAddress_).
  assert (E : snd (answer (updateProfile userId d) 200 500 "Failed to update profile." w)
              = snd (updateProfile userId d w)).
  { unfold answer. destruct (updateProfile userId d w) as [[r | msg] w']; reflexivity. }
  rewrite E.
  destruct (updateProfile_writes userId d w) as [-> | [_ ->]]; [reflexivity|].
  cbn [setUsers users]. apply map_writeRow_invariant. reflexivity.
Qed.

(** X16. The login endpoint answers 400, without calling the service,
    exactly when the email address or the password is missing or empty;
    otherwise it answers 200 exactly when the address has an account that
    is not locked and whose password matches, and 401 with the service's
    message in every other case. *)
Theorem exports_login_statuses (email_ password_ : option string) (w : World) :
  let r := fst (exports_login email_ password_ w) in
  (truthyKey email_ && truthyKey password_ = false ->
   exports_login email_ password_ w
   = (mkResponse 400 (Failure "Email and password are required." None), w))
  /\ (truthyKey email_ && truthyKey password_ = true ->
      (status r = 200 \/ status r = 401)
      /\ (status r = 200 <->
          exists u, accountByEmail (text email_) w = Some u
                    /\ lockedAt (clock (ticks w)) u = false
                    /\ bcrypt_compare (text password_) (password u) = true)
      /\ (status r = 401 -> exists msg, body r = Failure "Login failed." (Some msg))).
Proof.
  cbv zeta. unfold exports_login.
  destruct (truthyKey email_); destruct (truthyKey password_); cbn [negb orb andb];
    split; try discriminate; try (intros _; reflexivity).
  intros _. unfold answer.
  destruct (login_cases (text email_) (text password_) w)
    as [[Hacc E] | [(u & t & Hacc & Ht & Hlt & E)
                   | [(u & Hacc & Hl & Hpw & E) | (u & Hacc & Hl & Hpw & E)]]];
    rewrite E; cbn [fst status body].
  - split; [auto|]. split; [|eauto].
    split; [discriminate|]. intros (u & H & _). congruence.
  - split; [auto|]. split; [|eauto].
    split; [discriminate|]. intros (u' & H & Hl & _).
    rewrite Hacc in H. injection H as <-. unfold lockedAt in Hl. rewrite Ht in Hl.
    apply Z.ltb_ge in Hl. lia.
  - split; [auto|]. split; [|eauto].
    split; [discriminate|]. intros (u' & H & _ & Hpw').
    rewrite Hacc in H. injection H as <-. congruence.
  - split; [auto|]. split; [|discriminate].
    split; [eauto|reflexivity].
Qed.


End FurtherProperties.

(** ** Properties of the rate limiter *)

Lemma mapGet_mapSet_same (k : string) (v : ClientData) (m : list (string * ClientData)) :
  mapGet k (mapSet k v m) = Some v.
Proof.
  induction m as [|[k0 v0] m IH]; cbn.
  - rewrite String.eqb_refl. reflexivity.
  - destruct (k0 =? k)%string eqn:E; cbn; rewrite E; [reflexivity | exact IH].
Qed.

Lemma mapGet_mapSet_other (k k' : string) (v : ClientData)
    (m : list (string * ClientData)) :
  k <> k' -> mapGet k' (mapSet k v m) = mapGet k' m.
Proof.
  intros Hne. induction m as [|[k0 v0] m IH]; cbn.
  - apply String.eqb_neq in Hne. rewrite Hne. reflexivity.
  - destruct (k0 =? k)%string eqn:E; cbn.
    + apply String.eqb_eq in E. subst k0.
      apply String.eqb_neq in Hne. rewrite Hne. reflexivity.
    + destruct (k0 =? k')%string; [reflexivity | exact IH].
Qed.

Lemma mapGet_none_keys (k : string) (m : list (string * ClientData)) :
  mapGet k m = None <-> ~ In k (map fst m).
Proof.
  induction m as [|[k0 v0] m IH]; cbn; [tauto|].
  destruct (String.eqb_spec k0 k).
  - split; [discriminate | intros H; elim H; auto].
  - rewrite IH. tauto.
Qed.

Lemma mapGet_in (k : string) (m : list (string * ClientData)) (v : ClientData) :
  mapGet k m = Some v -> In (k, v) m.
Proof.
  induction m as [|[k0 v0] m IH]; cbn; [discriminate|].
  destruct (String.eqb_spec k0 k); [intros [= ->]; subst; auto | auto].
Qed.

Lemma mapSet_keys (k : string) (v : ClientData) (m : list (string * ClientData)) :
  map fst (mapSet k v m)
  = match mapGet k m with
    | Some _ => map fst m
    | None => map fst m ++ [k]
    end.
Proof.
  induction m as [|[k0 v0] m IH]; cbn; [reflexivity|].
  destruct (k0 =? k)%string; cbn; [reflexivity|].
  rewrite IH. destruct (mapGet k m); reflexivity.
Qed.

Lemma mapSet_entries (k : string) (v : ClientData) (m : list (string * ClientData))
    (e : string * ClientData) :
  In e (mapSet k v m) -> e = (k, v) \/ In e m.
Proof.
  induction m as [|[k0 v0] m IH]; cbn.
  - intros [<- | []]. auto.
  - destruct (String.eqb_spec k0 k); cbn.
    + subst k0. intros [<- | H]; auto.
    + intros [<- | H]; auto. destruct (IH H); auto.
Qed.

Lemma NoDup_mapSet (k : string) (v : ClientData) (m : list (string * ClientData)) :
  NoDup (map fst m) -> NoDup (map fst (mapSet k v m)).
Proof.
  intros H. rewrite mapSet_keys. destruct (mapGet k m) eqn:E; [exact H|].
  apply mapGet_none_keys in E.
  apply NoDup_app; [exact H | repeat constructor; intros [] |].
  intros a Ha [<- | []]. contradiction.
Qed.

Lemma NoDup_cleanUp (now : Z) (m : list (string * ClientData)) :
  NoDup (map fst m) -> NoDup (map fst (cleanUp now m)).
Proof.
  unfold cleanUp. induction m as [|[k0 v0] m IH]; cbn; [auto|].
  intros H. inversion H as [|? ? Hnotin Hnd]; subst.
  destruct (negb (resetTime v0 <? now)); cbn; [|auto].
  constructor; [|auto]. intros Hin. apply Hnotin.
  apply in_map_iff in Hin. destruct Hin as (e & <- & He).
  apply filter_In in He. apply in_map. apply He.
Qed.

Lemma cleanUp_live (now : Z) (m : list (string * ClientData)) (e : string * ClientData) :
  In e (cleanUp now m) <-> In e m /\ now <= resetTime (snd e).
Proof.
  unfold cleanUp. rewrite filter_In, negb_true_iff, Z.ltb_ge. tauto.
Qed.

Lemma mapGet_cleanUp_live (now : Z) (k : string) (m : list (string * ClientData))
    (v : ClientData) :
  mapGet k m = Some v -> now <= resetTime v -> mapGet k (cleanUp now m) = Some v.
Proof.
  unfold cleanUp. induction m as [|[k0 v0] m IH]; cbn; [discriminate|].
  destruct (String.eqb_spec k0 k).
  - intros [= ->] Hl. apply Z.ltb_ge in Hl. rewrite Hl. cbn.
    subst k0. rewrite String.eqb_refl. reflexivity.
  - intros H Hl. destruct (negb (resetTime v0 <? now)); cbn; [|auto].
    destruct (String.eqb_spec k0 k); [contradiction | auto].
Qed.

Lemma mapGet_cleanUp_none (now : Z) (k : string) (m : list (string * ClientData)) :
  (forall v, In (k, v) m -> resetTime v < now) -> mapGet k (cleanUp now m) = None.
Proof.
  intros H. destruct (mapGet k (cleanUp now m)) as [v|] eqn:E; [|reflexivity].
  apply mapGet_in, cleanUp_live in E. destruct E as [Hin Hl]. cbn in Hl.
  specialize (H v Hin). lia.
Qed.

Lemma ceil_thousand (x : Z) :
  let r := Math_ceil (inject_Z x / inject_Z 1000)%Q in
  1000 * (r - 1) < x <= 1000 * r.
Proof.
  cbv zeta. unfold Math_ceil, Qceiling, Qfloor.
  cbn [Qdiv Qmult Qinv Qopp inject_Z Qnum Qden Z.sgn].
  change (Z.pos (1 * 1000)) with 1000. rewrite Z.mul_1_r.
  pose proof (Z.div_mod (- x) 1000 ltac:(lia)) as E.
  pose proof (Z.mod_pos_bound (- x) 1000 ltac:(lia)) as B.
  lia.
Qed.

Lemma mapGet_of_in (k : string) (m : list (string * ClientData)) (v : ClientData) :
  NoDup (map fst m) -> In (k, v) m -> mapGet k m = Some v.
Proof.
  induction m as [|[k0 v0] m IH]; cbn; [contradiction|].
  intros Hnd Hin. inversion Hnd as [|? ? Hnotin Hnd']; subst.
  destruct Hin as [[= -> ->] | Hin].
  - rewrite String.eqb_refl. reflexivity.
  - destruct (String.eqb_spec k0 k); [|auto].
    subst k0. elim Hnotin. apply in_map_iff. exists (k, v). auto.
Qed.

Lemma rateLimiter_cases (windowMs maxRequests : Z) (ip remote : option string)
    (now : Z) (m : list (string * ClientData)) :
  let c := clientIdOf ip remote in
  let m1 := cleanUp now m in
  (mapGet c m1 = None
   /\ rateLimiter windowMs maxRequests ip remote now m
      = (Pass, mapSet c (mkClientData 1 (now + windowMs)) m1))
  \/ (exists e,
        mapGet c m1 = Some e /\ now <= resetTime e /\ maxRequests <= count e
        /\ rateLimiter windowMs maxRequests ip remote now m
           = (TooManyRequests
                (Math_ceil (inject_Z (resetTime e - now) / inject_Z 1000)%Q), m1))
  \/ (exists e,
        mapGet c m1 = Some e /\ now <= resetTime e /\ count e < maxRequests
        /\ rateLimiter windowMs maxRequests ip remote now m
           = (Pass, mapSet c (mkClientData (count e + 1) (resetTime e)) m1)).
Proof.
  cbv zeta. unfold rateLimiter. cbv zeta.
  destruct (mapGet (clientIdOf ip remote) (cleanUp now m)) as [e|] eqn:E;
    [right | left; auto].
  assert (Hlive : now <= resetTime e).
  { apply mapGet_in, cleanUp_live in E. apply E. }
  pose proof Hlive as Hl. apply Z.ltb_ge in Hl. rewrite Hl.
  rewrite Z.geb_leb. destruct (Z.leb_spec maxRequests (count e)).
  - left. exists e. auto.
  - right. exists e. auto.
Qed.

(** X18. The limiter keeps its map in order: keys stay unique and counts
    stay between 1 and the limit (1 when the limit is below 1); and after
    any request handled at time [now], with a window that is not
    negative, no entry is left whose [resetTime] is before [now]. *)
Theorem rateLimiter_keeps_map_in_order (windowMs maxRequests : Z)
    (ip remote : option string) (now : Z) (m : list (string * ClientData)) :
  0 <= windowMs ->
  limiterInvariant maxRequests m ->
  let m' := snd (rateLimiter windowMs maxRequests ip remote now m) in
  limiterInvariant maxRequests m'
  /\ Forall (fun entry => now <= resetTime (snd entry)) m'.
Proof.
  intros Hw [Hnd Hcount]. cbv zeta.
  assert (Hnd1 : NoDup (map fst (cleanUp now m))) by (apply NoDup_cleanUp; exact Hnd).
  assert (Hc1 : Forall (fun entry => 1 <= count (snd entry) <= Z.max 1 maxRequests)
                       (cleanUp now m)).
  { apply Forall_forall. intros e He. apply cleanUp_live in He.
    rewrite Forall_forall in Hcount. apply Hcount, He. }
  assert (Hl1 : Forall (fun entry => now <= resetTime (snd entry)) (cleanUp now m)).
  { apply Forall_forall. intros e He. apply cleanUp_live in He. apply He. }
  rewrite Forall_forall in Hc1, Hl1.
  destruct (rateLimiter_cases windowMs maxRequests ip remote now m)
    as [[_ E] | [(e & _ & _ & _ & E) | (e & Hget & Hlive & Hlt & E)]];
    rewrite E; cbn [snd]; unfold limiterInvariant.
  - split; [split|]; [apply NoDup_mapSet; exact Hnd1 | |];
      apply Forall_forall; intros x Hx; apply mapSet_entries in Hx;
      destruct Hx as [-> | Hx]; cbn; auto; lia.
  - split; [split|]; [exact Hnd1 | |]; apply Forall_forall; auto.
  - split; [split|]; [apply NoDup_mapSet; exact Hnd1 | |];
      apply Forall_forall; intros x Hx; apply mapSet_entries in Hx;
      destruct Hx as [-> | Hx]; cbn; auto.
    apply mapGet_in in Hget. specialize (Hc1 _ Hget). cbn in Hc1. lia.
Qed.

(** X19. Clients do not disturb each other: a request leaves the entry
    of every other client as it is when that entry's [resetTime] is not
    before [now], and removes it when it is. *)
Theorem rateLimiter_isolates_clients (windowMs maxRequests : Z)
    (ip remote : option string) (now : Z) (m : list (string * ClientData))
    (other : string) :
  NoDup (map fst m) ->
  other <> clientIdOf ip remote ->
  mapGet other (snd (rateLimiter windowMs maxRequests ip remote now m))
  = match mapGet other m with
    | Some e => if resetTime e <? now then None else Some e
    | None => None
    end.
Proof.
  intros Hnd Hne.
  assert (E1 : mapGet other (cleanUp now m)
               = match mapGet other m with
                 | Some e => if resetTime e <? now then None else Some e
                 | None => None
                 end).
  { destruct (mapGet other m) as [e|] eqn:E.
    - destruct (Z.ltb_spec (resetTime e) now).
      + apply mapGet_cleanUp_none. intros v Hv.
        rewrite (mapGet_of_in other m v Hnd Hv) in E. injection E as ->. assumption.
      + apply mapGet_cleanUp_live; assumption.
    - apply mapGet_none_keys. apply mapGet_none_keys in E. intros Hin. apply E.
      apply in_map_iff in Hin. destruct Hin as (e & <- & He).
      apply cleanUp_live in He. apply in_map, He. }
  destruct (rateLimiter_cases windowMs maxRequests ip remote now m)
    as [[_ E] | [(e & _ & _ & _ & E) | (e & _ & _ & _ & E)]];
    rewrite E; cbn [snd]; rewrite ?mapGet_mapSet_other by auto; exact E1.
Qed.

(** X20. A refused request does not count.  The limiter answers 429 only
    for a client whose entry has reached the limit and has not expired;
    it then leaves that entry as it is, and [retryAfter] is the time left
    until [resetTime] in seconds, rounded up, and never negative. *)
Theorem rateLimiter_refusal (windowMs maxRequests : Z) (ip remote : option string)
    (now retryAfter : Z) (m m' : list (string * ClientData)) :
  NoDup (map fst m) ->
  rateLimiter windowMs maxRequests ip remote now m = (TooManyRequests retryAfter, m') ->
  exists e,
    mapGet (clientIdOf ip remote) m = Some e
    /\ mapGet (clientIdOf ip remote) m' = Some e
    /\ maxRequests <= count e
    /\ now <= resetTime e
    /\ 1000 * (retryAfter - 1) < resetTime e - now <= 1000 * retryAfter
    /\ 0 <= retryAfter.
Proof.
  intros Hnd H.
  destruct (rateLimiter_cases windowMs maxRequests ip remote now m)
    as [[_ E] | [(e & Hget & Hlive & Hmax & E) | (e & _ & _ & _ & E)]];
    rewrite E in H; try discriminate H.
  injection H as <- <-. exists e.
  pose proof (ceil_thousand (resetTime e - now)) as Hc. cbv zeta in Hc.
  assert (Hm : mapGet (clientIdOf ip remote) m = Some e).
  { apply mapGet_of_in; [exact Hnd|]. apply mapGet_in, cleanUp_live in Hget. apply Hget. }
  repeat split; auto; lia.
Qed.

Lemma verdictsFor_cons (c : string) (h : Hit) (hits : list Hit) (v : Verdict)
    (vs : list Verdict) :
  verdictsFor c (h :: hits) (v :: vs)
  = if (hitClient h =? c)%string then v :: verdictsFor c hits vs
    else verdictsFor c hits vs.
Proof.
  unfold verdictsFor. cbn. destruct (hitClient h =? c)%string; reflexivity.
Qed.

Lemma map_seq_succ {B : Type} (f : nat -> B) (n : nat) :
  map f (seq 0 (S n)) = f 0%nat :: map (fun j => f (S j)) (seq 0 n).
Proof.
  cbn [seq map]. f_equal. rewrite <- seq_shift, map_map. reflexivity.
Qed.

Lemma serve_in_window (windowMs maxRequests : Z) (c : string) (hits : list Hit) :
  forall (m : list (string * ClientData)) (k T : Z),
    mapGet c m = Some (mkClientData k T) ->
    Forall (fun h => hit_now h <= T) hits ->
    map isPass (verdictsFor c hits (fst (serve windowMs maxRequests hits m)))
    = map (fun j => k + Z.of_nat j <? maxRequests)
          (seq 0 (List.length (filter (fun h => (hitClient h =? c)%string) hits))).
Proof.
  induction hits as [|h hits IH]; intros m k T Hget Hall; [reflexivity|].
  inversion Hall as [|? ? Hnow Hall']; subst.
  cbn [serve].
  pose proof (mapGet_cleanUp_live (hit_now h) c m _ Hget Hnow) as Hget1.
  cbn [resetTime] in Hget1.
  destruct (rateLimiter windowMs maxRequests (hit_ip h) (hit_remoteAddress h)
                        (hit_now h) m) as [v m1] eqn:Hstep.
  destruct (serve windowMs maxRequests hits m1) as [vs m2] eqn:Hrest.
  cbn [fst]. rewrite verdictsFor_cons. cbn [filter].
  pose proof (rateLimiter_cases windowMs maxRequests (hit_ip h) (hit_remoteAddress h)
                (hit_now h) m) as Hcases.
  cbv zeta in Hcases. fold (hitClient h) in Hcases. rewrite Hstep in Hcases.
  destruct (String.eqb_spec (hitClient h) c) as [Hc | Hc].
  - rewrite Hc, Hget1 in Hcases.
    destruct Hcases as [[Hnone _] | [(e & He & _ & Hmax & E) | (e & He & _ & Hlt & E)]];
      [discriminate Hnone | |]; injection He as <-; injection E as -> ->;
      cbn [count resetTime] in *.
    + specialize (IH _ k T Hget1 Hall'). rewrite Hrest in IH. cbn [fst] in IH.
      cbn [List.length]. rewrite map_seq_succ. cbn [map isPass]. rewrite IH.
      f_equal; [symmetry; apply Z.ltb_ge; lia|].
      apply map_ext. intros j. destruct (Z.ltb_spec (k + Z.of_nat j) maxRequests);
        destruct (Z.ltb_spec (k + Z.of_nat (S j)) maxRequests); auto; lia.
    + specialize (IH (mapSet c (mkClientData (k + 1) T) (cleanUp (hit_now h) m))
                     (k + 1) T (mapGet_mapSet_same _ _ _) Hall').
      rewrite Hrest in IH. cbn [fst] in IH.
      cbn [List.length]. rewrite map_seq_succ. cbn [map isPass]. rewrite IH.
      f_equal; [symmetry; apply Z.ltb_lt; lia|].
      apply map_ext. intros j. f_equal. lia.
  - assert (Hget' : mapGet c m1 = Some (mkClientData k T)).
    { destruct Hcases as [[_ E] | [(e & _ & _ & _ & E) | (e & _ & _ & _ & E)]];
        injection E as _ ->; rewrite ?mapGet_mapSet_other by auto; exact Hget1. }
    specialize (IH _ k T Hget' Hall'). rewrite Hrest in IH. exact IH.
Qed.

(** X21. The window is fixed and the limit holds per client.  From the
    first request of a client that has no unexpired entry, and as long as
    every request, of whatever client, comes no later than [windowMs]
    after it, that client's requests pass exactly up to the limit: its
    [j]-th request (counting from 0) passes if and only if [j] is below
    [maxRequests], except that the first one always passes. *)
Theorem rateLimiter_admits_up_to_limit (windowMs maxRequests : Z) (first : Hit)
    (rest : list Hit) (m : list (string * ClientData)) :
  let c := hitClient first in
  (forall e, In (c, e) m -> resetTime e < hit_now first) ->
  Forall (fun h => hit_now h <= hit_now first + windowMs) rest ->
  map isPass (verdictsFor c (first :: rest)
                          (fst (serve windowMs maxRequests (first :: rest) m)))
  = map (fun j => Z.of_nat j <? Z.max 1 maxRequests)
        (seq 0 (List.length (filter (fun h => (hitClient h =? c)%string)
                                    (first :: rest)))).
Proof.
  cbv zeta. intros Hfresh Hall. cbn [serve].
  pose proof (mapGet_cleanUp_none (hit_now first) (hitClient first) m Hfresh) as Hnone.
  destruct (rateLimiter windowMs maxRequests (hit_ip first) (hit_remoteAddress first)
                        (hit_now first) m) as [v m1] eqn:Hstep.
  pose proof (rateLimiter_cases windowMs maxRequests (hit_ip first)
                (hit_remoteAddress first) (hit_now first) m) as Hcases.
  cbv zeta in Hcases. fold (hitClient first) in Hcases. rewrite Hstep, Hnone in Hcases.
  destruct Hcases as [[_ E] | [(e & He & _) | (e & He & _)]]; try discriminate He.
  injection E as -> ->.
  pose proof (serve_in_window windowMs maxRequests (hitClient first) rest
                (mapSet (hitClient first) (mkClientData 1 (hit_now first + windowMs))
                        (cleanUp (hit_now first) m))
                1 (hit_now first + windowMs) (mapGet_mapSet_same _ _ _) Hall) as IH.
  destruct (serve windowMs maxRequests rest
              (mapSet (hitClient first) (mkClientData 1 (hit_now first + windowMs))
                      (cleanUp (hit_now first) m))) as [vs m2].
  cbn [fst] in *. rewrite verdictsFor_cons. cbn [filter].
  rewrite String.eqb_refl. cbn [List.length]. rewrite map_seq_succ.
  cbn [map isPass]. rewrite IH. f_equal; [symmetry; apply Z.ltb_lt; lia|].
  apply map_ext. intros j.
  destruct (Z.ltb_spec (1 + Z.of_nat j) maxRequests);
    destruct (Z.ltb_spec (Z.of_nat (S j)) (Z.max 1 maxRequests)); auto; lia.
Qed.

(** ** Properties of the IPRManagement contract *)

Lemma nonEmpty_true (s : string) : nonEmpty s = true <-> s <> "".
Proof.
  unfold nonEmpty. destruct s; cbn; split; try discriminate; try congruence; auto.
Qed.

Lemma validId_true (k : Z) (s : Storage) : validId k s = true <-> 0 < k <= ipCount s.
Proof. unfold validId. rewrite andb_true_iff, Z.ltb_lt, Z.leb_le. tauto. Qed.

Lemma last_snoc (l : list Z) (x d : Z) : last (l ++ [x]) d = x.
Proof. apply last_last. Qed.

Lemma call_cases (msg : Msg) (c : Call) (s : Storage) :
  storageAfter msg c s = s
  \/ (exists title ipType description ipfsHash,
        c = CallRegisterIP title ipType description ipfsHash
        /\ title <> "" /\ ipType <> "" /\ ipCount s < uintMax
        /\ storageAfter msg c s
           = {| ipCount := ipCount s + 1;
                ips := assign (ips s) (ipCount s + 1)
                         (mkIP (ipCount s + 1) title ipType (sender msg) description
                               ipfsHash (blockTimestamp msg));
                ownershipHistory :=
                  assign (ownershipHistory s) (ipCount s + 1)
                         (ownershipHistory s (ipCount s + 1) ++ [sender msg]);
                emitted := emitted s ++ [IPRegistered (ipCount s + 1) title ipType
                                           (sender msg) ipfsHash (blockTimestamp msg)] |})
  \/ (exists k newOwner,
        c = CallTransferOwnership k newOwner
        /\ 0 < k <= ipCount s /\ sender msg = ip_owner (ips s k) /\ newOwner <> 0
        /\ storageAfter msg c s
           = {| ipCount := ipCount s;
                ips := assign (ips s) k (withOwner (ips s k) newOwner);
                ownershipHistory :=
                  assign (ownershipHistory s) k (ownershipHistory s k ++ [newOwner]);
                emitted := emitted s ++ [OwnershipTransferred k (ip_owner (ips s k))
                                           newOwner (blockTimestamp msg)] |})
  \/ (exists k newDescription newIpfsHash,
        c = CallUpdateDescription k newDescription newIpfsHash
        /\ 0 < k <= ipCount s /\ sender msg = ip_owner (ips s k)
        /\ newDescription <> ""
        /\ storageAfter msg c s
           = {| ipCount := ipCount s;
                ips := assign (ips s) k
                         (withDescription (ips s k) newDescription newIpfsHash);
                ownershipHistory := ownershipHistory s;
                emitted := emitted s ++ [IPUpdated k newDescription newIpfsHash
                                                   (blockTimestamp msg)] |}).
Proof.
  unfold storageAfter, call.
  destruct c as [title ipType description ipfsHash | k newOwner | k newDescription newIpfsHash].
  - unfold registerIP.
    destruct (nonEmpty title) eqn:Ht; cbn [negb]; [|auto].
    destruct (nonEmpty ipType) eqn:Hy; cbn [negb]; [|auto].
    rewrite Z.geb_leb. destruct (Z.leb_spec uintMax (ipCount s)); [auto|].
    right. left. exists title, ipType, description, ipfsHash.
    apply nonEmpty_true in Ht, Hy. auto.
  - unfold transferOwnership, onlyOwner.
    destruct (validId k s) eqn:Hv; cbn [negb]; [|auto].
    destruct (Z.eqb_spec (sender msg) (ip_owner (ips s k))); cbn [negb]; [|auto].
    destruct (Z.eqb_spec newOwner 0); [auto|].
    right. right. left. exists k, newOwner. apply validId_true in Hv. auto.
  - unfold updateDescription, onlyOwner.
    destruct (validId k s) eqn:Hv; cbn [negb]; [|auto].
    destruct (Z.eqb_spec (sender msg) (ip_owner (ips s k))); cbn [negb]; [|auto].
    destruct (nonEmpty newDescription) eqn:Hd; cbn [negb]; [|auto].
    right. right. right. exists k, newDescription, newIpfsHash.
    apply validId_true in Hv. apply nonEmpty_true in Hd. auto.
Qed.

Lemma registryInvariant_step (msg : Msg) (c : Call) (s : Storage) :
  registryInvariant s -> registryInvariant (storageAfter msg c s).
Proof.
  intros (Hrange & Hin & Hout).
  destruct (call_cases msg c s)
    as [-> | [(title & ipType & description & ipfsHash & _ & Ht & Hy & Hlt & ->)
             | [(k & newOwner & _ & Hk & _ & _ & ->)
               | (k & newDescription & newIpfsHash & _ & Hk & _ & _ & ->)]]];
    [exact (conj Hrange (conj Hin Hout)) | | |];
    unfold registryInvariant; cbn [ipCount ips ownershipHistory]; unfold assign;
    (split; [lia|]); split; intros j Hj.
  - destruct (Z.eqb_spec j (ipCount s + 1)) as [-> | Hne].
    + cbn. destruct (Hout (ipCount s + 1)) as [_ ->]; [lia|]. cbn.
      repeat split; auto. discriminate.
    + apply Hin. lia.
  - destruct (Z.eqb_spec j (ipCount s + 1)); [lia|]. apply Hout. lia.
  - destruct (Z.eqb_spec j k) as [-> | Hne]; [|apply Hin; exact Hj].
    destruct (Hin k Hj) as (H1 & H2 & H3 & _ & _). cbn. rewrite last_snoc.
    repeat split; auto. intros E. apply app_eq_nil in E. destruct E as [_ E]. discriminate E.
  - destruct (Z.eqb_spec j k); [lia|]. apply Hout. exact Hj.
  - destruct (Z.eqb_spec j k) as [-> | Hne]; [|apply Hin; exact Hj].
    destruct (Hin k Hj) as (H1 & H2 & H3 & H4 & H5). cbn. repeat split; auto.
  - destruct (Z.eqb_spec j k); [lia|]. apply Hout. exact Hj.
Qed.

(** X22. After any sequence of transactions on the deployed contract,
    [ipCount] is a valid [uint]; every id from 1 to [ipCount] holds an
    entry that carries that id, a non-empty title and a non-empty type,
    and whose owner is the last address of its non-empty ownership
    history; and every other slot is empty. *)
Theorem registry_invariant_always (txs : list (Msg * Call)) :
  registryInvariant (storageAfterAll txs deployed).
Proof.
  assert (H0 : registryInvariant deployed).
  { unfold registryInvariant, deployed, uintMax. cbn. repeat split; auto; lia. }
  revert H0. generalize deployed as s.
  induction txs as [|[msg c] txs IH]; intros s Hs; cbn; [exact Hs|].
  apply IH, registryInvariant_step, Hs.
Qed.

(** X23. Only its owner changes a registered entry: when a transaction
    leaves the entry of a registered id different from what it was, the
    sender was the entry's owner and the call was [transferOwnership] or
    [updateDescription] on that id; and the owner changes only through a
    [transferOwnership] by the owner, to the non-zero address given. *)
Theorem only_owner_changes_entry (msg : Msg) (c : Call) (s : Storage) (k : Z) :
  0 < k <= ipCount s ->
  ips (storageAfter msg c s) k <> ips s k ->
  sender msg = ip_owner (ips s k)
  /\ ((exists newOwner,
         c = CallTransferOwnership k newOwner /\ newOwner <> 0
         /\ ip_owner (ips (storageAfter msg c s) k) = newOwner)
      \/ (exists newDescription newIpfsHash,
            c = CallUpdateDescription k newDescription newIpfsHash
            /\ ip_owner (ips (storageAfter msg c s) k) = ip_owner (ips s k))).
Proof.
  intros Hk Hne.
  destruct (call_cases msg c s)
    as [E | [(title & ipType & description & ipfsHash & _ & _ & _ & _ & E)
            | [(j & newOwner & -> & _ & Hs & Hn & E)
              | (j & newDescription & newIpfsHash & -> & _ & Hs & _ & E)]]];
    rewrite E in *; cbn [ips] in *; unfold assign in *.
  - contradiction.
  - destruct (Z.eqb_spec k (ipCount s + 1)); [lia | contradiction].
  - destruct (Z.eqb_spec k j) as [-> | ?]; [|contradiction].
    split; [exact Hs|]. left. exists newOwner. auto.
  - destruct (Z.eqb_spec k j) as [-> | ?]; [|contradiction].
    split; [exact Hs|]. right. exists newDescription, newIpfsHash. auto.
Qed.

Lemma registered_step (msg : Msg) (c : Call) (s : Storage) (k : Z) :
  0 < k <= ipCount s ->
  let s' := storageAfter msg c s in
  ipCount s <= ipCount s'
  /\ ip_id (ips s' k) = ip_id (ips s k)
  /\ ip_title (ips s' k) = ip_title (ips s k)
  /\ ip_ipType (ips s' k) = ip_ipType (ips s k)
  /\ ip_timestamp (ips s' k) = ip_timestamp (ips s k)
  /\ isPrefix (ownershipHistory s k) (ownershipHistory s' k).
Proof.
  intros Hk. cbv zeta.
  assert (Hrefl : forall l, isPrefix l l) by (intros l; exists []; symmetry; apply app_nil_r).
  destruct (call_cases msg c s)
    as [-> | [(title & ipType & description & ipfsHash & _ & _ & _ & _ & ->)
             | [(j & newOwner & _ & _ & _ & _ & ->)
               | (j & newDescription & newIpfsHash & _ & _ & _ & _ & ->)]]];
    cbn [ipCount ips ownershipHistory]; unfold assign.
  - repeat split; auto; lia.
  - destruct (Z.eqb_spec k (ipCount s + 1)); [lia|]. repeat split; auto; lia.
  - destruct (Z.eqb_spec k j) as [-> | ?]; repeat split; auto; try lia.
    exists [newOwner]. reflexivity.
  - destruct (Z.eqb_spec k j) as [-> | ?]; repeat split; auto; lia.
Qed.

(** X24. What is registered stays: over any sequence of transactions,
    [ipCount] never decreases, the id, title, type and registration time
    of a registered entry never change, and its ownership history only
    grows at the end. *)
Theorem registered_entries_are_permanent (txs : list (Msg * Call)) (s : Storage)
    (k : Z) :
  0 < k <= ipCount s ->
  let s' := storageAfterAll txs s in
  ipCount s <= ipCount s'
  /\ ip_id (ips s' k) = ip_id (ips s k)
  /\ ip_title (ips s' k) = ip_title (ips s k)
  /\ ip_ipType (ips s' k) = ip_ipType (ips s k)
  /\ ip_timestamp (ips s' k) = ip_timestamp (ips s k)
  /\ isPrefix (ownershipHistory s k) (ownershipHistory s' k).
Proof.
  revert s. induction txs as [|[msg c] txs IH]; intros s Hk; cbn [storageAfterAll].
  - cbv zeta. repeat split; try lia. exists []. symmetry. apply app_nil_r.
  - destruct (registered_step msg c s k Hk) as (H1 & H2 & H3 & H4 & H5 & more1 & H6).
    destruct (IH (storageAfter msg c s)) as (G1 & G2 & G3 & G4 & G5 & more2 & G6); [lia|].
    cbv zeta. repeat split; try congruence; try lia.
    exists (more1 ++ more2). rewrite G6, H6, app_assoc. reflexivity.
Qed.

(** X25. Registration round trip: on storage that satisfies the
    invariant, a [registerIP] that succeeds takes the next id, and
    [getIP] of that id returns exactly what was registered, owned by the
    sender and stamped with the block time, while [getOwnershipHistory]
    returns the sender alone. *)
Theorem registerIP_then_getIP (msg : Msg) (title ipType description ipfsHash : string)
    (s s' : Storage) :
  registryInvariant s ->
  registerIP msg title ipType description ipfsHash s = Success tt s' ->
  ipCount s' = ipCount s + 1
  /\ getIP (ipCount s + 1) s'
     = Success (mkIP (ipCount s + 1) title ipType (sender msg) description ipfsHash
                     (blockTimestamp msg)) s'
  /\ getOwnershipHistory (ipCount s + 1) s' = Success [sender msg] s'.
Proof.
  intros (Hrange & _ & Hout) H. unfold registerIP in H.
  destruct (nonEmpty title); cbn [negb] in H; [|discriminate H].
  destruct (nonEmpty ipType); cbn [negb] in H; [|discriminate H].
  destruct (ipCount s >=? uintMax); [discriminate H|].
  injection H as <-. split; [reflexivity|].
  assert (Hv : forall st, ipCount st = ipCount s + 1 -> validId (ipCount s + 1) st = true)
    by (intros st E; apply validId_true; lia).
  unfold getIP, getOwnershipHistory. rewrite Hv by reflexivity. cbn [negb ips ownershipHistory].
  unfold assign. rewrite Z.eqb_refl.
  destruct (Hout (ipCount s + 1)) as [_ ->]; [lia|]. split; reflexivity.
Qed.

(** X26. A transfer hands over control: after a [transferOwnership]
    that succeeded with a new owner other than the sender, the entry is
    owned by the new owner, and the former owner's [transferOwnership]
    and [updateDescription] on it revert with "Only owner can perform
    this action". *)
Theorem transferOwnership_hands_over (msg msg' : Msg) (k newOwner : Z) (s s' : Storage)
    (again : Z) (newDescription newIpfsHash : string) :
  transferOwnership msg k newOwner s = Success tt s' ->
  newOwner <> sender msg ->
  sender msg' = sender msg ->
  ip_owner (ips s' k) = newOwner
  /\ transferOwnership msg' k again s' = Reverted "Only owner can perform this action"
  /\ updateDescription msg' k newDescription newIpfsHash s'
     = Reverted "Only owner can perform this action".
Proof.
  intros H Hne Hsame. unfold transferOwnership, onlyOwner in H.
  destruct (validId k s) eqn:Hv; cbn [negb] in H; [|discriminate H].
  destruct (Z.eqb_spec (sender msg) (ip_owner (ips s k))); cbn [negb] in H;
    [|discriminate H].
  destruct (newOwner =? 0); [discriminate H|]. injection H as <-.
  unfold transferOwnership, updateDescription, onlyOwner, validId in *.
  cbn [ipCount ips]. rewrite Hv. cbn [negb]. unfold assign. rewrite Z.eqb_refl.
  cbn [withOwner ip_owner]. rewrite Hsame.
  destruct (Z.eqb_spec (sender msg) newOwner); [congruence|]. cbn. auto.
Qed.

(** ** Properties of the CreativeWorksMarketplace contract *)

Lemma publishWork_cases (a : Z) (title summary license : string) (price : Z) (s : Market) :
  (exists reason, publishWork a title summary license price s = Undone reason)
  \/ (0 < price /\ title <> "" /\ summary <> "" /\ license <> ""
      /\ totalWorksCount s < uintMax
      /\ publishWork a title summary license price s
         = Done {| totalWorksCount := totalWorksCount s + 1;
                   allWorks := assign (allWorks s) (totalWorksCount s + 1)
                                 (mkWork (totalWorksCount s + 1) a a title summary
                                         license price false);
                   locked := locked s;
                   marketLog := marketLog s
                                ++ [WorkListed (totalWorksCount s + 1) a title price] |}).
Proof.
  unfold publishWork.
  destruct (Z.ltb_spec 0 price); cbn [negb]; [|eauto].
  destruct (nonEmpty title) eqn:H1; cbn [negb]; [|eauto].
  destruct (nonEmpty summary) eqn:H2; cbn [negb]; [|eauto].
  destruct (nonEmpty license) eqn:H3; cbn [negb]; [|eauto].
  rewrite Z.geb_leb. destruct (Z.leb_spec uintMax (totalWorksCount s)); [eauto|].
  right. apply nonEmpty_true in H1, H2, H3. auto 10.
Qed.

Lemma grownFrom_refl (s : Market) : grownFrom s s.
Proof.
  unfold grownFrom. split; [reflexivity|]. split; [lia|]. split; [reflexivity | exact (fun H => H)].
Qed.

Lemma grownFrom_trans (s1 s2 s3 : Market) :
  grownFrom s1 s2 -> grownFrom s2 s3 -> grownFrom s1 s3.
Proof.
  intros (A1 & A2 & A3 & A4) (B1 & B2 & B3 & B4). unfold grownFrom.
  split; [congruence|]. split; [lia|]. split; [|auto].
  intros k Hk. rewrite B3 by lia. apply A3, Hk.
Qed.

Lemma publishWork_grows (a : Z) (title summary license : string) (price : Z)
    (s s' : Market) :
  publishWork a title summary license price s = Done s' -> grownFrom s s'.
Proof.
  intros H.
  destruct (publishWork_cases a title summary license price s)
    as [(reason & E) | (Hp & Ht & Hs & Hl & Hlt & E)]; rewrite E in H;
    [discriminate H|]. injection H as <-.
  unfold grownFrom. cbn [locked totalWorksCount allWorks]. unfold assign.
  split; [reflexivity|]. split; [lia|]. split.
  - intros k Hk. destruct (Z.eqb_spec k (totalWorksCount s + 1)); [lia | reflexivity].
  - intros (Hrange & Hin & Hout). unfold worksInvariant.
    cbn [totalWorksCount allWorks]. split; [lia|]. split; intros k Hk.
    + destruct (Z.eqb_spec k (totalWorksCount s + 1)) as [-> | Hne].
      * cbn. repeat split; auto. discriminate.
      * apply Hin. lia.
    + destruct (Z.eqb_spec k (totalWorksCount s + 1)); [lia|]. apply Hout. lia.
Qed.

Lemma acquireWork_locked (depth : nat) (callee : Callee) (a v k : Z) (s : Market) :
  locked s = true -> acquireWork depth callee a v k s = Undone "No reentrancy allowed".
Proof. intros H. destruct depth; cbn [acquireWork]; rewrite H; reflexivity. Qed.

Lemma reentries_grow (depth : nat) (callee : Callee) (reentries : list Reentry) :
  forall s,
    locked s = true ->
    grownFrom s
      (fold_left
         (fun st r =>
            match r with
            | BackToPublishWork a title summary license price =>
                match publishWork a title summary license price st with
                | Done st' => st'
                | Undone _ => st
                end
            | BackToAcquireWork a v k =>
                match acquireWork depth callee a v k st with
                | Done st' => st'
                | Undone _ => st
                end
            end)
         reentries s).
Proof.
  induction reentries as [|r reentries IH]; intros s Hl; cbn [fold_left];
    [apply grownFrom_refl|].
  destruct r as [a title summary license price | a v k].
  - destruct (publishWork a title summary license price s) as [s'|reason] eqn:E;
      [|apply IH; exact Hl].
    pose proof (publishWork_grows _ _ _ _ _ _ _ E) as G.
    apply (grownFrom_trans s s'); [exact G|]. apply IH.
    destruct G as [G _]. congruence.
  - rewrite (acquireWork_locked depth callee a v k s Hl). apply IH. exact Hl.
Qed.

Lemma acquireWork_cases (depth : nat) (callee : Callee) (a v k : Z) (s : Market) :
  (exists reason, acquireWork depth callee a v k s = Undone reason)
  \/ (exists s1 s2,
        locked s = false
        /\ 0 < k <= totalWorksCount s
        /\ isUnavailable (allWorks s k) = false
        /\ v = askingPrice (allWorks s k)
        /\ a <> originalCreator (allWorks s k)
        /\ s1 = {| totalWorksCount := totalWorksCount s;
                   allWorks := assign (allWorks s) k (sell (allWorks s k) a);
                   locked := true;
                   marketLog := marketLog s
                                ++ [WorkOwnershipTransferred k (currentOwner (allWorks s k)) a] |}
        /\ grownFrom s1 s2
        /\ acquireWork depth callee a v k s
           = Done {| totalWorksCount := totalWorksCount s2;
                     allWorks := allWorks s2;
                     locked := false;
                     marketLog := marketLog s2 ++ [WorkAcquired k a v] |}).
Proof.
  destruct depth as [|depth]; cbn [acquireWork].
  - destruct (locked s); eauto.
  - destruct (locked s) eqn:Hl; [eauto|].
    cbn [setLocked totalWorksCount allWorks marketLog].
    destruct ((0 <? k) && (k <=? totalWorksCount s)) eqn:Hk; cbn [negb]; [|eauto].
    destruct (isUnavailable (allWorks s k)) eqn:Hu; [eauto|].
    destruct (Z.eqb_spec v (askingPrice (allWorks s k))); cbn [negb]; [|eauto].
    destruct (Z.eqb_spec a (originalCreator (allWorks s k))); [eauto|].
    match goal with
    | |- context [callee ?x] => set (s1 := x); destruct (callee s1) as [reentries sent]
    end.
    destruct sent; cbn [negb]; [|eauto].
    match goal with
    | |- context [fold_left ?f reentries s1] => set (s2 := fold_left f reentries s1)
    end.
    right. exists s1, s2.
    apply andb_true_iff in Hk. rewrite Z.ltb_lt, Z.leb_le in Hk.
    split; [reflexivity|]. split; [exact Hk|]. split; [reflexivity|].
    split; [assumption|]. split; [assumption|]. split; [reflexivity|].
    split; [|reflexivity].
    apply (reentries_grow depth callee reentries s1). reflexivity.
Qed.

Lemma worksInvariant_same_works (s s' : Market) :
  totalWorksCount s' = totalWorksCount s ->
  (forall k, allWorks s' k = allWorks s k) ->
  worksInvariant s -> worksInvariant s'.
Proof.
  intros Hc Hw (Hrange & Hin & Hout). unfold worksInvariant. rewrite Hc.
  split; [exact Hrange|]. split; intros k Hk; rewrite Hw; auto.
Qed.

Lemma market_step (c : MarketCall) (s : Market) :
  locked s = false -> worksInvariant s ->
  locked (marketAfter c s) = false /\ worksInvariant (marketAfter c s).
Proof.
  intros Hl Hinv.
  destruct c as [a title summary license price | depth callee a v k]; cbn [marketAfter].
  - destruct (publishWork a title summary license price s) as [s'|reason] eqn:E; [|auto].
    destruct (publishWork_grows _ _ _ _ _ _ _ E) as (G1 & _ & _ & G4).
    split; [congruence | auto].
  - destruct (acquireWork_cases depth callee a v k s)
      as [(reason & ->) | (s1 & s2 & _ & Hk & Hu & Hv & Ha & Hs1 & (_ & _ & _ & G) & ->)];
      [auto|].
    split; [reflexivity|].
    apply (worksInvariant_same_works s2); [reflexivity | reflexivity |].
    apply G. subst s1. destruct Hinv as (Hrange & Hin & Hout).
    unfold worksInvariant. cbn [totalWorksCount allWorks]. unfold assign.
    split; [exact Hrange|]. split; intros j Hj.
    + destruct (Z.eqb_spec j k) as [-> | Hne]; [|apply Hin; exact Hj].
      destruct (Hin k Hj) as (H1 & H2 & H3 & H4 & H5 & _). cbn.
      repeat split; auto; discriminate.
    + destruct (Z.eqb_spec j k); [lia|]. apply Hout. exact Hj.
Qed.

(** X27. After any sequence of transactions on the deployed
    marketplace, whatever the callees of its external calls do, the
    reentrancy lock is released, every id from 1 to [totalWorksCount]
    holds a work with that id, a positive price and non-empty texts, a
    work that is still available is owned by its creator and a work that
    is not is owned by someone else, and every other slot is empty. *)
Theorem marketplace_invariant_always (txs : list MarketCall) :
  locked (marketAfterAll txs marketDeployed) = false
  /\ worksInvariant (marketAfterAll txs marketDeployed).
Proof.
  assert (H0 : locked marketDeployed = false /\ worksInvariant marketDeployed).
  { split; [reflexivity|]. unfold worksInvariant, marketDeployed, uintMax. cbn.
    split; [lia|]. split; [intros k Hk; lia | auto]. }
  revert H0. generalize marketDeployed as s.
  induction txs as [|c txs IH]; intros s [Hl Hinv]; cbn [marketAfterAll]; [auto|].
  apply IH. apply market_step; assumption.
Qed.

Lemma sameListing_refl (w : Work) : sameListing w w.
Proof. unfold sameListing. repeat split; auto. Qed.

Lemma sameListing_trans (w1 w2 w3 : Work) :
  sameListing w1 w2 -> sameListing w2 w3 -> sameListing w1 w3.
Proof.
  intros (A1 & A2 & A3 & A4 & A5 & A6 & A7) (B1 & B2 & B3 & B4 & B5 & B6 & B7).
  unfold sameListing. repeat split; try congruence.
  intros H. rewrite <- (A7 H). apply B7. rewrite (A7 H). exact H.
Qed.

Lemma listing_step (c : MarketCall) (s : Market) (k : Z) :
  0 < k <= totalWorksCount s ->
  totalWorksCount s <= totalWorksCount (marketAfter c s)
  /\ sameListing (allWorks s k) (allWorks (marketAfter c s) k).
Proof.
  intros Hk.
  destruct c as [a title summary license price | depth callee a v j]; cbn [marketAfter].
  - destruct (publishWork a title summary license price s) as [s'|reason] eqn:E;
      [|split; [lia | apply sameListing_refl]].
    destruct (publishWork_grows _ _ _ _ _ _ _ E) as (_ & G2 & G3 & _).
    split; [exact G2|]. rewrite G3 by lia. apply sameListing_refl.
  - destruct (acquireWork_cases depth callee a v j s)
      as [(reason & ->) | (s1 & s2 & _ & Hj & Hu & Hv & Ha & Hs1 & (_ & G2 & G3 & _) & ->)];
      [split; [lia | apply sameListing_refl]|].
    subst s1. cbn [totalWorksCount allWorks] in *. split; [exact G2|].
    rewrite G3 by lia. unfold assign.
    destruct (Z.eqb_spec k j) as [-> | Hne]; [|apply sameListing_refl].
    unfold sameListing. cbn. repeat split. intros H. congruence.
Qed.

(** X28. A work changes hands at most once.  Over any sequence of
    transactions, whatever the callees do, a listed work keeps its id,
    creator, title, summary, licence and asking price; and once it is
    unavailable it is never changed again: it stays unavailable and keeps
    its owner.  [totalWorksCount] never decreases. *)
Theorem works_are_sold_once (txs : list MarketCall) (s : Market) (k : Z) :
  0 < k <= totalWorksCount s ->
  totalWorksCount s <= totalWorksCount (marketAfterAll txs s)
  /\ sameListing (allWorks s k) (allWorks (marketAfterAll txs s) k).
Proof.
  revert s. induction txs as [|c txs IH]; intros s Hk; cbn [marketAfterAll].
  - split; [lia | apply sameListing_refl].
  - destruct (listing_step c s k Hk) as [H1 H2].
    destruct (IH (marketAfter c s)) as [G1 G2]; [lia|].
    split; [lia|]. apply (sameListing_trans _ _ _ H2 G2).
Qed.

(** ** Properties of the error handler *)

Lemma classify_cases (error : JsError) :
  let '(statusCode, message, details) := classify error in
  In statusCode [400; 401; 403; 404; 409; 500]
  /\ In message ["Validation failed"; "Unauthorized"; "Forbidden"; "Resource not found";
                 "Resource conflict"; "Database validation failed";
                 "Resource already exists"; "Invalid reference"; "Invalid token";
                 "Token expired"; "File upload error"; "Internal server error"]
  /\ (forall d, details = Some d ->
        (d = err_message error
         /\ In (err_name error)
               ["ValidationError"; "SequelizeValidationError"; "MulterError"])
        \/ In d ["A record with this information already exists";
                 "Referenced resource does not exist"]).
Proof.
  unfold classify.
  repeat match goal with
         | |- context [(?a =? ?b)%string] =>
             destruct (String.eqb_spec a b) as [-> | ?]
         end;
    (split; [cbn; tauto|]); (split; [cbn; tauto|]);
    intros d [= <-] || intros d [=]; cbn; tauto.
Qed.

(** X29. The error handler discloses little.  The status it sends is one
    of 400, 401, 403, 404, 409 and 500 and its message one of twelve
    fixed texts, both chosen from [error.name] alone: the [statusCode] an
    error carries is ignored, so that an [AppError] is answered 500
    whatever status it was built with.  The body has [details] only when
    the log level is "debug", and the error's own message appears there
    only for a [ValidationError], a [SequelizeValidationError] or a
    [MulterError]. *)
Theorem errorHandler_discloses_little (logLevel contact : string) (error : JsError)
    (path method isoTime : string) :
  let sent := errorHandler logLevel contact error path method isoTime in
  In (fst sent) [400; 401; 403; 404; 409; 500]
  /\ In (er_message (snd sent))
        ["Validation failed"; "Unauthorized"; "Forbidden"; "Resource not found";
         "Resource conflict"; "Database validation failed"; "Resource already exists";
         "Invalid reference"; "Invalid token"; "Token expired"; "File upload error";
         "Internal server error"]
  /\ (forall d, er_details (snd sent) = Some d ->
        logLevel = "debug"
        /\ d <> ""
        /\ ((d = err_message error
             /\ In (err_name error)
                   ["ValidationError"; "SequelizeValidationError"; "MulterError"])
            \/ In d ["A record with this information already exists";
                     "Referenced resource does not exist"]))
  /\ (forall other,
        err_name other = err_name error ->
        fst (errorHandler logLevel contact other path method isoTime) = fst sent
        /\ er_message (snd (errorHandler logLevel contact other path method isoTime))
           = er_message (snd sent))
  /\ (forall message statusCode,
        fst (errorHandler logLevel contact (AppError message statusCode)
                          path method isoTime) = 500).
Proof.
  cbv zeta. unfold errorHandler.
  pose proof (classify_cases error) as H.
  destruct (classify error) as [[statusCode message] details] eqn:E.
  destruct H as (H1 & H2 & H3). cbn [fst snd er_message er_details].
  split; [exact H1|]. split; [exact H2|]. split; [|split].
  - intros d Hd.
    destruct (String.eqb_spec logLevel "debug") as [-> | ?]; cbn [andb] in Hd;
      [|discriminate Hd].
    destruct details as [d'|]; cbn [truthyKey] in Hd; [|discriminate Hd].
    destruct (truthy d') eqn:Ht; [|discriminate Hd].
    injection Hd as <-. apply truthy_true in Ht. auto.
  - intros other Hname.
    assert (E' : fst (fst (classify other)) = statusCode
                 /\ snd (fst (classify other)) = message).
    { unfold classify in *. rewrite Hname.
      repeat match goal with
             | |- context [(?a =? ?b)%string] => destruct (a =? b)%string
             end; injection E as <- <- _; split; reflexivity. }
    destruct (classify other) as [[st' m'] d']. cbn in *. destruct E' as [-> ->]. auto.
  - reflexivity.
Qed.

(** ** Properties of request validation *)

Lemma plusThen_true (cls : ascii -> bool) (rest : string -> bool) (s : string) :
  plusThen cls rest s = true
  <-> exists a b, s = (a ++ b)%string /\ a <> "" /\ allChars cls a = true
                  /\ rest b = true.
Proof.
  split.
  - induction s as [|c s IH]; cbn; [discriminate|].
    intros H. apply andb_true_iff in H. destruct H as [Hc H].
    apply orb_true_iff in H. destruct H as [H | H].
    + exists (String c ""), s. cbn. rewrite Hc. repeat split; auto. discriminate.
    + destruct (IH H) as (a & b & -> & _ & Ha & Hb).
      exists (String c a), b. cbn. rewrite Hc. repeat split; auto. discriminate.
  - intros (a & b & -> & Hne & Ha & Hb). revert Hne Ha.
    induction a as [|c a IH]; [congruence|]. intros _ Ha. cbn in *.
    apply andb_true_iff in Ha. destruct Ha as [Hc Ha]. rewrite Hc. cbn.
    destruct a as [|c' a']; [cbn; rewrite Hb; reflexivity|].
    rewrite IH; [apply orb_true_r | discriminate | exact Ha].
Qed.

Lemma charThen_true (code : N) (rest : string -> bool) (s : string) :
  charThen code rest s = true ->
  exists b, s = String (ascii_of_N code) b /\ rest b = true.
Proof.
  destruct s as [|c s]; cbn; [discriminate|].
  rewrite andb_true_iff, N.eqb_eq. unfold codeUnit.
  intros [<- H]. exists s. rewrite ascii_N_embedding. auto.
Qed.

Lemma emailRegex_true (s : string) :
  emailRegex s = true
  <-> exists l d t,
        s = (l ++ "@" ++ d ++ "." ++ t)%string
        /\ l <> "" /\ d <> "" /\ t <> ""
        /\ allChars isEmailChar l = true
        /\ allChars isEmailChar d = true
        /\ allChars isEmailChar t = true.
Proof.
  unfold emailRegex. split.
  - intros H. apply plusThen_true in H. destruct H as (l & r1 & -> & Hl & Hlc & H).
    apply charThen_true in H. destruct H as (r2 & -> & H).
    apply plusThen_true in H. destruct H as (d & r3 & -> & Hd & Hdc & H).
    apply charThen_true in H. destruct H as (r4 & -> & H).
    apply plusThen_true in H. destruct H as (t & r5 & -> & Ht & Htc & H).
    destruct r5; [|discriminate H].
    exists l, d, t. rewrite append_empty_r_local. repeat split; auto.
  - intros (l & d & t & -> & Hl & Hd & Ht & Hlc & Hdc & Htc).
    apply plusThen_true. exists l, ("@" ++ d ++ "." ++ t)%string.
    repeat split; auto. cbn [append charThen]. cbn.
    apply plusThen_true. exists d, ("." ++ t)%string.
    repeat split; auto. cbn [append charThen]. cbn.
    apply plusThen_true. exists t, "". rewrite append_empty_r_local. repeat split; auto.
Qed.

Lemma ahead_someChar (cls : ascii -> bool) (s : string) :
  ahead cls s = true -> someChar cls s = true.
Proof.
  induction s as [|c s IH]; cbn; [discriminate|].
  destruct (cls c); [reflexivity|]. cbn. intros H.
  apply andb_true_iff in H. apply IH, H.
Qed.

Lemma anywhere_someChar (cls : ascii -> bool) (pattern : string -> bool) (s : string) :
  (forall t, pattern t = true -> someChar cls t = true) ->
  anywhere pattern s = true -> someChar cls s = true.
Proof.
  intros Hp. induction s as [|c s IH]; cbn.
  - rewrite orb_false_r. intros H. apply (Hp "" H).
  - intros H. apply orb_true_iff in H. destruct H as [H | H].
    + apply (Hp _ H).
    + rewrite (IH H). apply orb_true_r.
Qed.

Lemma walletRegex_true (s : string) :
  walletRegex s = true ->
  exists h, s = ("0x" ++ h)%string /\ String.length h = 40%nat
            /\ allChars isHexDigit h = true.
Proof.
  unfold walletRegex. intros H.
  apply charThen_true in H. destruct H as (r1 & -> & H).
  apply charThen_true in H. destruct H as (h & -> & H).
  apply andb_true_iff in H. destruct H as [Hlen Hhex].
  apply Nat.eqb_eq in Hlen. exists h. auto.
Qed.

Section ValidatedRegistration.

Context {R : Runtime}.

(** X30. What [validateRegistration] lets through.  When it reports no
    error, all four fields are strings; the username has 3 to 30
    characters, all letters, digits or underscores; the email address is
    [local@domain.tld] with three non-empty parts free of whitespace and
    of [@]; the password has at least 8 characters, among them a
    lowercase letter, an uppercase letter and a digit; the wallet address
    is [0x] followed by exactly 40 hexadecimal digits; and the
    registration endpoint finds no field missing and hands the request to
    the service. *)
Theorem validateRegistration_accepts (username_ email_ password_ walletAddress_ : Field) :
  validateRegistration username_ email_ password_ walletAddress_ = [] ->
  exists u e p a,
    username_ = Text u /\ email_ = Text e /\ password_ = Text p
    /\ walletAddress_ = Text a
    /\ (3 <= String.length u <= 30)%nat /\ allChars isWordChar u = true
    /\ (exists l d t,
          e = (l ++ "@" ++ d ++ "." ++ t)%string
          /\ l <> "" /\ d <> "" /\ t <> ""
          /\ allChars isEmailChar l = true
          /\ allChars isEmailChar d = true
          /\ allChars isEmailChar t = true)
    /\ (8 <= String.length p)%nat
    /\ someChar isLower p = true /\ someChar isUpper p = true
    /\ someChar isDigit p = true
    /\ (exists h, a = ("0x" ++ h)%string /\ String.length h = 40%nat
                  /\ allChars isHexDigit h = true)
    /\ (forall w,
          exports_register (Some u) (Some e) (Some p) (Some a) w
          = answer (register u e p a) 201 400 "Registration failed." w).
Proof.
  unfold validateRegistration. intros H.
  apply app_eq_nil in H. destruct H as [Hu H].
  apply app_eq_nil in H. destruct H as [He H].
  apply app_eq_nil in H. destruct H as [Hp Ha].
  unfold usernameError in Hu. unfold emailError in He.
  unfold passwordError in Hp. unfold walletError in Ha.
  destruct username_ as [| |u]; try discriminate Hu.
  destruct email_ as [| |e]; try discriminate He.
  destruct password_ as [| |p]; try discriminate Hp.
  destruct walletAddress_ as [| |a]; try discriminate Ha.
  cbn [notAText textOf] in *.
  destruct (truthy u) eqn:Tu; cbn [negb] in Hu; [|discriminate Hu].
  destruct (truthy e) eqn:Te; cbn [negb] in He; [|discriminate He].
  destruct (truthy p) eqn:Tp; cbn [negb] in Hp; [|discriminate Hp].
  destruct (truthy a) eqn:Ta; cbn [negb] in Ha; [|discriminate Ha].
  destruct ((String.length u <? 3) || (30 <? String.length u))%nat eqn:Lu;
    [discriminate Hu|].
  destruct (usernameRegex u) eqn:Ru; cbn [negb] in Hu; [|discriminate Hu].
  destruct (emailRegex e) eqn:Re; cbn [negb] in He; [|discriminate He].
  destruct (String.length p <? 8)%nat eqn:Lp; [discriminate Hp|].
  destruct (passwordRegex p) eqn:Rp; cbn [negb] in Hp; [|discriminate Hp].
  destruct (walletRegex a) eqn:Ra; cbn [negb] in Ha; [|discriminate Ha].
  apply orb_false_iff in Lu. destruct Lu as [Lu1 Lu2].
  apply Nat.ltb_ge in Lu1, Lu2, Lp.
  unfold usernameRegex in Ru. apply andb_true_iff in Ru. destruct Ru as [_ Ru].
  apply emailRegex_true in Re. apply walletRegex_true in Ra.
  exists u, e, p, a.
  split; [reflexivity|]. split; [reflexivity|]. split; [reflexivity|].
  split; [reflexivity|]. split; [lia|]. split; [exact Ru|]. split; [exact Re|].
  split; [exact Lp|].
  unfold passwordRegex in Rp.
  split; [|split; [|split; [|split; [exact Ra|]]]].
  - apply (anywhere_someChar isLower
             (fun s => ahead isLower s && ahead isUpper s && ahead isDigit s) p);
      [|exact Rp]. intros t Ht.
    apply andb_true_iff in Ht. destruct Ht as [Ht _].
    apply andb_true_iff in Ht. apply ahead_someChar, Ht.
  - apply (anywhere_someChar isUpper
             (fun s => ahead isLower s && ahead isUpper s && ahead isDigit s) p);
      [|exact Rp]. intros t Ht.
    apply andb_true_iff in Ht. destruct Ht as [Ht _].
    apply andb_true_iff in Ht. apply ahead_someChar, Ht.
  - apply (anywhere_someChar isDigit
             (fun s => ahead isLower s && ahead isUpper s && ahead isDigit s) p);
      [|exact Rp]. intros t Ht.
    apply andb_true_iff in Ht. apply ahead_someChar, Ht.
  - intros w. unfold exports_register. cbn [truthyKey text orElse].
    rewrite Tu, Te, Tp, Ta. reflexivity.
Qed.

End ValidatedRegistration.

(** ** The further properties at the sample data *)

(** Alice changes her password and logs in with the new one. *)
Lemma changePassword_then_login_witness :
  exists w1 issued w2,
    @changePassword demoRuntime 1 "Abcd1234" "NewPass99" (tableOf [alice; bob])
    = (Returned (mkMessageResult true "Password changed successfully" None), w1)
    /\ @login demoRuntime "a@x.com" "NewPass99" w1
       = (Returned (mkAuthResult true (publicFields alice)
                                 (@tokensIssuedAt demoRuntime issued alice) None), w2).
Proof.
  destruct (@changePassword_then_login demoRuntime 1 "a@x.com" "Abcd1234" "NewPass99"
              (tableOf [alice; bob]) alice)
    as (w1 & E1 & (issued & w2 & E2) & _);
    [reflexivity | reflexivity | reflexivity | reflexivity |].
  exists w1, issued, w2. exact (conj E1 E2).
Defined.

(** The access token of Alice's login is exchanged for a new pair. *)
Lemma refreshToken_after_login_witness :
  exists u,
    id u = 1
    /\ @refreshToken_ demoRuntime demoVerifier "access.alice.24h.1700000000000"
         afterAliceLogin
       = (Returned (mkRefreshResult true (@tokensIssuedAt demoRuntime 3 u)),
          advance 3 afterAliceLogin).
Proof.
  exact (@refreshToken_after_login demoRuntime demoVerifier "a@x.com" "Abcd1234"
           "access.alice.24h.1700000000000" (tableOf [alice; bob]) afterAliceLogin
           aliceLoggedIn
           (AccessClaims 1 "alice" "a@x.com" None)
           eq_refl eq_refl eq_refl).
Defined.

(** Alice's refresh token still works after she changed her password. *)
Lemma refreshToken_survives_password_change_witness :
  exists w1 u1,
    fst (@changePassword demoRuntime 1 "Abcd1234" "NewPass99" (tableOf [alice; bob]))
    = Returned (mkMessageResult true "Password changed successfully" None)
    /\ w1 = snd (@changePassword demoRuntime 1 "Abcd1234" "NewPass99"
                   (tableOf [alice; bob]))
    /\ id u1 = 1
    /\ @refreshToken_ demoRuntime demoVerifier "refresh.7d.1700000001000" w1
       = (Returned (mkRefreshResult true (@tokensIssuedAt demoRuntime (S (ticks w1)) u1)),
          advance 3 w1).
Proof.
  set (out := @changePassword demoRuntime 1 "Abcd1234" "NewPass99" (tableOf [alice; bob])).
  destruct (@refreshToken_survives_password_change demoRuntime demoVerifier
              "refresh.7d.1700000001000" (RefreshClaims 1) alice
              (tableOf [alice; bob]) (snd out)
              (mkMessageResult true "Password changed successfully" None))
    as (u1 & Hid & E).
  - reflexivity.
  - reflexivity.
  - left. exists 1, "Abcd1234"%string, "NewPass99"%string. reflexivity.
  - exists (snd out), u1.
    split; [reflexivity|]. split; [reflexivity|]. exact (conj Hid E).
Defined.

(** Registering Carol keeps the sample table well formed. *)
Lemma register_keeps_table_well_formed_witness :
  wellFormed (tableOf [alice; bob])
  /\ wellFormed (snd (@register demoRuntime "carol" "c@x.com" "Abcd1234"
                        "0x3333333333333333333333333333333333333333"
                        (tableOf [alice; bob]))).
Proof.
  assert (H : wellFormed (tableOf [alice; bob])).
  { unfold wellFormed. cbn.
    repeat split; repeat constructor; cbn; try lia;
      intros [H | H]; try discriminate H; exact H. }
  split; [exact H|].
  apply (@register_keeps_table_well_formed demoRuntime). exact H.
Defined.


(** Alice's attempt to verify herself keeps the sample table well formed. *)
Lemma updateProfile_keeps_table_well_formed_witness :
  wellFormed (tableOf [alice; bob])
  /\ wellFormed (snd (updateProfile 1 promoteSelf (tableOf [alice; bob]))).
Proof.
  assert (H : wellFormed (tableOf [alice; bob])).
  { unfold wellFormed. cbn.
    repeat split; repeat constructor; cbn; try lia;
      intros [H | H]; try discriminate H; exact H. }
  split; [exact H|].
  apply updateProfile_keeps_table_well_formed. exact H.
Defined.

(** Locked-out Alice resets her password within the hour and logs in. *)
Lemma reset_flow_in_time_witness :
  exists w1 w2,
    @requestPasswordReset demoRuntime "a@x.com" (tableOf [aliceLocked; bob])
    = (Returned (mkMessageResult true resetRequested (Some "hex0")), w1)
    /\ @resetPassword demoRuntime "hex0" "NewPass99" w1
       = (Returned (mkMessageResult true "Password reset successfully" None), w2)
    /\ @resetPassword demoRuntime "hex0" "Other1234" w2
       = (Thrown "Password reset failed: Invalid or expired reset token", advance 1 w2).
Proof.
  destruct (@reset_flow_in_time demoRuntime "a@x.com" "NewPass99" "Other1234"
              (tableOf [aliceLocked; bob]) aliceLocked)
    as (w1 & w2 & E1 & E2 & E3 & _).
  - reflexivity.
  - intros r [<- | [<- | []]] Hne; [elim Hne; reflexivity | cbn; discriminate].
  - vm_compute. reflexivity.
  - exists w1, w2. exact (conj E1 (conj E2 E3)).
Defined.

(** With a clock that moves an hour per read the token is dead on arrival. *)
Lemma reset_flow_too_late_witness :
  exists w1,
    @requestPasswordReset hourlyRuntime "a@x.com" (tableOf [alice; bob])
    = (Returned (mkMessageResult true resetRequested (Some "hex0")), w1)
    /\ @resetPassword hourlyRuntime "hex0" "NewPass99" w1
       = (Thrown "Password reset failed: Invalid or expired reset token", advance 1 w1).
Proof.
  apply (@reset_flow_too_late hourlyRuntime "a@x.com" "NewPass99"
           (tableOf [alice; bob]) alice).
  - reflexivity.
  - intros r [<- | [<- | []]] Hne; [elim Hne; reflexivity | cbn; discriminate].
  - vm_compute. discriminate.
Defined.

(** A third word in the header is ignored. *)
Lemma authenticate_uses_second_word_witness :
  @authenticate demoRuntime demoVerifier
    (Some "Bearer access.alice.24h.1700000000000 trailing") (tableOf [alice; bob])
  = @authenticate demoRuntime demoVerifier
      (Some "Bearer access.alice.24h.1700000000000") (tableOf [alice; bob]).
Proof.
  exact (proj1 (@authenticate_uses_second_word demoRuntime demoVerifier
                  "access.alice.24h.1700000000000" "trailing" (tableOf [alice; bob])
                  eq_refl)).
Defined.

(** A refused request leaves the sample map in order. *)
Lemma rateLimiter_keeps_map_in_order_witness :
  limiterInvariant 1 oneClientAtLimit
  /\ limiterInvariant 1
       (snd (rateLimiter 1000 1 (Some "10.0.0.1") None 4500 oneClientAtLimit)).
Proof.
  assert (H : limiterInvariant 1 oneClientAtLimit).
  { split; repeat constructor; cbn; try lia; try (intros []). }
  split; [exact H|].
  apply (rateLimiter_keeps_map_in_order 1000 1 (Some "10.0.0.1") None 4500
           oneClientAtLimit); [lia | exact H].
Defined.

(** A request of another client leaves the first client's entry alone. *)
Lemma rateLimiter_isolates_clients_witness :
  mapGet "10.0.0.1" (snd (rateLimiter 1000 1 (Some "10.0.0.2") None 4500 oneClientAtLimit))
  = Some (mkClientData 1 5000).
Proof.
  rewrite (rateLimiter_isolates_clients 1000 1 (Some "10.0.0.2") None 4500
             oneClientAtLimit "10.0.0.1").
  - reflexivity.
  - repeat constructor; try (intros []).
  - discriminate.
Defined.

(** The client at its limit is told to come back in one second. *)
Lemma rateLimiter_refusal_witness :
  exists e,
    mapGet "10.0.0.1" oneClientAtLimit = Some e
    /\ 1 <= count e
    /\ 4500 <= resetTime e.
Proof.
  destruct (rateLimiter_refusal 1000 1 (Some "10.0.0.1") None 4500 1
              oneClientAtLimit oneClientAtLimit)
    as (e & Hm & _ & Hc & Hr & _).
  - repeat constructor; try (intros []).
  - vm_compute. reflexivity.
  - exists e. exact (conj Hm (conj Hc Hr)).
Defined.

(** With a limit of two, the third request of a client within the window
    is the first one refused. *)
Lemma rateLimiter_admits_up_to_limit_witness :
  map isPass
      (verdictsFor "10.0.0.1" (mkHit (Some "10.0.0.1") None 1000 :: burst)
         (fst (serve 1000 2 (mkHit (Some "10.0.0.1") None 1000 :: burst) [])))
  = [true; true; false].
Proof.
  refine (eq_trans (rateLimiter_admits_up_to_limit 1000 2
                      (mkHit (Some "10.0.0.1") None 1000) burst [] _ _) eq_refl).
  - intros e [].
  - repeat constructor; cbn; lia.
Defined.

(** The owner of the sample entry hands it to address 9. *)
Lemma only_owner_changes_entry_witness :
  sender (mkMsg 7 200) = ip_owner (ips oneRegistered 1).
Proof.
  refine (proj1 (only_owner_changes_entry (mkMsg 7 200) (CallTransferOwnership 1 9)
                   oneRegistered 1 _ _)).
  - vm_compute. split; [reflexivity | discriminate].
  - vm_compute. discriminate.
Defined.

(** The sample entry keeps its title through a transfer and an update. *)
Lemma registered_entries_are_permanent_witness :
  ip_title (ips (storageAfterAll
                   [(mkMsg 7 200, CallTransferOwnership 1 9);
                    (mkMsg 9 300, CallUpdateDescription 1 "Better" "QmOther");
                    (mkMsg 8 400, CallRegisterIP "Logo" "Trademark" "A logo" "QmLogo")]
                   oneRegistered) 1)
  = "Engine"%string.
Proof.
  refine (proj1 (proj2 (proj2 (registered_entries_are_permanent
            [(mkMsg 7 200, CallTransferOwnership 1 9);
             (mkMsg 9 300, CallUpdateDescription 1 "Better" "QmOther");
             (mkMsg 8 400, CallRegisterIP "Logo" "Trademark" "A logo" "QmLogo")]
            oneRegistered 1 _)))).
  vm_compute. split; [reflexivity | discriminate].
Defined.

(** A registration on the fresh contract is read back. *)
Lemma registerIP_then_getIP_witness :
  getIP 1 oneRegistered
  = Success (mkIP 1 "Engine" "Patent" 7 "A new engine" "QmHash" 100) oneRegistered
  /\ getOwnershipHistory 1 oneRegistered = Success [7] oneRegistered.
Proof.
  refine (proj2 (registerIP_then_getIP (mkMsg 7 100) "Engine" "Patent" "A new engine"
                   "QmHash" deployed oneRegistered _ _)).
  - unfold registryInvariant, deployed, uintMax. cbn. repeat split; auto; lia.
  - reflexivity.
Defined.

(** After handing the sample entry to address 9, address 7 is refused. *)
Lemma transferOwnership_hands_over_witness :
  transferOwnership (mkMsg 7 300) 1 7
    (storageAfter (mkMsg 7 200) (CallTransferOwnership 1 9) oneRegistered)
  = Reverted "Only owner can perform this action".
Proof.
  refine (proj1 (proj2 (transferOwnership_hands_over (mkMsg 7 200) (mkMsg 7 300) 1 9
            oneRegistered
            (storageAfter (mkMsg 7 200) (CallTransferOwnership 1 9) oneRegistered)
            7 "Mine again" "QmMine" _ _ _))).
  - reflexivity.
  - discriminate.
  - reflexivity.
Defined.

(** The sample work keeps its price whatever the seller and a second buyer
    try. *)
Lemma works_are_sold_once_witness :
  askingPrice (allWorks (marketAfterAll
                           [SendAcquireWork 3 greedySeller 8 100 1;
                            SendAcquireWork 3 greedySeller 9 100 1]
                           oneListed) 1)
  = 100.
Proof.
  destruct (works_are_sold_once
              [SendAcquireWork 3 greedySeller 8 100 1;
               SendAcquireWork 3 greedySeller 9 100 1] oneListed 1)
    as (_ & _ & _ & _ & _ & _ & Hprice & _).
  - vm_compute. split; [reflexivity | discriminate].
  - rewrite Hprice. reflexivity.
Defined.

(** Alice's registration data pass the validation. *)
Lemma validateRegistration_accepts_witness :
  exists u, Text "alice" = Text u /\ allChars isWordChar u = true.
Proof.
  destruct (@validateRegistration_accepts demoRuntime (Text "alice") (Text "a@x.com")
              (Text "Abcd1234") (Text "0x1111111111111111111111111111111111111111"))
    as (u & e & p & a & Hu & _ & _ & _ & _ & Hw & _).
  - vm_compute. reflexivity.
  - exists u. exact (conj Hu Hw).
Defined.
